(** * Staging a release and unpacking it: the code of
      pkg/release/unpacker.go and cmd/cmrel/cmd/gcb_stage.go

    The development follows the Go files function by function.  Strings are
    Go strings (sequences of bytes), a file's content is a list of bytes, the
    map from component name to image bundle is a finite map, and the calls
    that touch the disk, the bucket or the archive readers run in a small
    state monad over a [World].  A Go function that returns a value and an
    error returns the pair here, and a panic ends the computation. *)

From Stdlib Require Import Ascii String List ZArith Lia Bool DecimalString Sorted.
From stdpp Require Import base option list strings gmap.

Import ListNotations.
Local Open Scope Z_scope.
Local Open Scope nat_scope.
Local Open Scope list_scope.

(** ** Go strings *)

Module GoString.

(** [len(s)] *)
Definition len (s : string) : nat := String.length s.

Definition chars (s : string) : list ascii := String.list_ascii_of_string s.
Definition of_chars (l : list ascii) : string := String.string_of_list_ascii l.

(** [s[lo:hi]] for indices already known to be in range. *)
Definition slice (s : string) (lo hi : nat) : string :=
  String.substring lo (hi - lo) s.

End GoString.

(** ** path/filepath, on a system whose separator is the slash *)

Module filepath.

Definition Separator : ascii := "/"%char.

(** [os.IsPathSeparator] *)
Definition IsPathSeparator (c : ascii) : bool := Ascii.eqb c Separator.

(** The loop of [Ext], which runs from the last byte towards the first:
    [back] holds the bytes still to visit, nearest first, and [seen] the
    bytes already passed, in the order of the path. *)
Fixpoint ext_loop (back seen : list ascii) : list ascii :=
  match back with
  | [] => []
  | c :: back' =>
      if IsPathSeparator c then []
      else if Ascii.eqb c "."%char then c :: seen
      else ext_loop back' (c :: seen)
  end.

(** [Ext]: the suffix beginning at the final dot in the final element of
    the path, empty if there is no dot. *)
Definition Ext (path : string) : string :=
  GoString.of_chars (ext_loop (rev (GoString.chars path)) []).

(** Dropping the separators at the end of a path given backwards. *)
Fixpoint strip_trailing (back : list ascii) : list ascii :=
  match back with
  | c :: back' => if IsPathSeparator c then strip_trailing back' else back
  | [] => []
  end.

(** The last element of a path given backwards: the bytes after its last
    separator, in the order of the path. *)
Fixpoint last_element (back seen : list ascii) : list ascii :=
  match back with
  | [] => seen
  | c :: back' => if IsPathSeparator c then seen else last_element back' (c :: seen)
  end.

(** [Base]: the last element of the path, trailing separators removed
    first; ["."] for the empty path and the separator for a path made of
    separators only.  There is no volume name on this system. *)
Definition Base (path : string) : string :=
  if String.eqb path "" then "."
  else
    let stripped := strip_trailing (rev (GoString.chars path)) in
    let elem := last_element stripped [] in
    match elem with
    | [] => String Separator ""
    | _ => GoString.of_chars elem
    end.

(** *** [Clean] and [Join]

    [Walk] names what it visits by [Join], and the staging command joins
    onto a repository path given on the command line, which need not be
    clean; so here is [Join] in full, with [Clean] as it runs on a system
    whose paths have no volume name. *)

(** The [lazybuf] that [Clean] writes to holds the bytes written so far;
    it is kept here last byte first, so that [out.w] is its length and
    [out.w--] drops its head. *)
Abbreviation lazybuf := (list ascii).

(** [for out.w > dotdot && !os.IsPathSeparator(out.index(out.w)) { out.w-- }]:
    [c] is the byte at [out.w], the one dropped last. *)
Fixpoint back_to_separator (dotdot : nat) (c : ascii) (out : lazybuf) {struct out} : lazybuf :=
  if (dotdot <? length out) && negb (IsPathSeparator c)
  then match out with
       | c' :: out' => back_to_separator dotdot c' out'
       | [] => []
       end
  else out.

(** [r+k == n || os.IsPathSeparator(path[r+k])], on what is left at [r+k]. *)
Definition ends_element (rest : list ascii) : bool :=
  match rest with
  | [] => true
  | c :: _ => IsPathSeparator c
  end.

(** [for ; r < n && !os.IsPathSeparator(path[r]); r++ { out.append(path[r]) }] *)
Fixpoint copy_element (rest : list ascii) (out : lazybuf) : list ascii * lazybuf :=
  match rest with
  | c :: rest' => if IsPathSeparator c then (rest, out) else copy_element rest' (c :: out)
  | [] => ([], out)
  end.

(** The loop [for r < n] of [Clean], on what is left of the path from [r]
    on.  Every turn moves [r] forward, so no more turns are taken than the
    path has bytes; [turns] bounds them. *)
Fixpoint clean_loop (turns : nat) (rooted : bool) (rest : list ascii)
    (out : lazybuf) (dotdot : nat) : lazybuf * nat :=
  match turns, rest with
  | 0, _ | _, [] => (out, dotdot)
  | S turns', c :: rest1 =>
      if IsPathSeparator c then
        (* empty path element *)
        clean_loop turns' rooted rest1 out dotdot
      else if Ascii.eqb c "." && ends_element rest1 then
        (* . element *)
        clean_loop turns' rooted rest1 out dotdot
      else if Ascii.eqb c "."
              && match rest1 with
                 | c1 :: rest2 => Ascii.eqb c1 "." && ends_element rest2
                 | [] => false
                 end then
        (* .. element: remove to last separator *)
        let rest2 := tail rest1 in
        if dotdot <? length out then
          (* can backtrack *)
          match out with
          | last :: out' => clean_loop turns' rooted rest2 (back_to_separator dotdot last out') dotdot
          | [] => clean_loop turns' rooted rest2 out dotdot
          end
        else if negb rooted then
          (* cannot backtrack, but not rooted, so append .. element *)
          let out1 := if 0 <? length out then Separator :: out else out in
          let out2 := "."%char :: "."%char :: out1 in
          clean_loop turns' rooted rest2 out2 (length out2)
        else clean_loop turns' rooted rest2 out dotdot
      else
        (* real path element: add slash if needed, copy element *)
        let out1 :=
          if (rooted && negb (length out =? 1)) || (negb rooted && negb (length out =? 0))
          then Separator :: out else out in
        let '(rest', out2) := copy_element rest out1 in
        clean_loop turns' rooted rest' out2 dotdot
  end.

(** [rooted := os.IsPathSeparator(path[0])] *)
Definition rooted (path : list ascii) : bool :=
  match path with
  | c :: _ => IsPathSeparator c
  | [] => false
  end.

(** [Clean] from its first statement after the empty path is dealt with
    to the end of its loop: the buffer and [dotdot]. *)
Definition clean_run (path : list ascii) : lazybuf * nat :=
  if rooted path then clean_loop (length path) true (tail path) [Separator] 1
  else clean_loop (length path) false path [] 0.

(** [Clean]: the shortest path name equivalent to [path] by purely lexical
    processing. *)
Definition Clean (path : string) : string :=
  if String.eqb path "" then "."
  else
    match fst (clean_run (GoString.chars path)) with
    | [] => "."   (* Turn empty string into "." *)
    | out => GoString.of_chars (rev out)
    end.

(** [strings.Join(elems, sep)] *)
Fixpoint strings_Join (elems : list string) (sep : string) : string :=
  match elems with
  | [] => ""
  | [e] => e
  | e :: rest => e +:+ sep +:+ strings_Join rest sep
  end.

(** [join]: the elements from the first non-empty one on, joined by the
    separator and cleaned; empty elements before it are ignored. *)
Fixpoint join (elem : list string) : string :=
  match elem with
  | [] => ""
  | e :: rest =>
      if negb (String.eqb e "") then Clean (strings_Join elem (String Separator ""))
      else join rest
  end.

Definition Join (elem : list string) : string := join elem.

End filepath.

(** ** crypto/sha256 and encoding/hex *)

Abbreviation Bytes := (list Byte.byte).

Module sha256.

Local Open Scope Z_scope.

(** Arithmetic is on 32-bit words, kept in [Z] and wrapped by hand. *)
Definition w32 (x : Z) : Z := x mod 2 ^ 32.
Definition add32 (x y : Z) : Z := w32 (x + y).
Definition rotr (n x : Z) : Z := w32 (Z.lor (Z.shiftr x n) (Z.shiftl x (32 - n))).

Definition Ch (x y z : Z) : Z := Z.lxor (Z.land x y) (Z.land (w32 (Z.lnot x)) z).
Definition Maj (x y z : Z) : Z := Z.lxor (Z.lxor (Z.land x y) (Z.land x z)) (Z.land y z).
Definition Sigma0 (x : Z) : Z := Z.lxor (Z.lxor (rotr 2 x) (rotr 13 x)) (rotr 22 x).
Definition Sigma1 (x : Z) : Z := Z.lxor (Z.lxor (rotr 6 x) (rotr 11 x)) (rotr 25 x).
Definition sigma0 (x : Z) : Z := Z.lxor (Z.lxor (rotr 7 x) (rotr 18 x)) (Z.shiftr x 3).
Definition sigma1 (x : Z) : Z := Z.lxor (Z.lxor (rotr 17 x) (rotr 19 x)) (Z.shiftr x 10).

(** The round constants and the initial hash value of FIPS 180-4, in
    decimal: the first 32 bits of the fractional parts of the cube roots of
    the first 64 primes, and of the square roots of the first 8. *)
Definition K : list Z :=
  [
    1116352408; 1899447441; 3049323471; 3921009573; 961987163; 1508970993;
    2453635748; 2870763221; 3624381080; 310598401; 607225278; 1426881987;
    1925078388; 2162078206; 2614888103; 3248222580; 3835390401; 4022224774;
    264347078; 604807628; 770255983; 1249150122; 1555081692; 1996064986;
    2554220882; 2821834349; 2952996808; 3210313671; 3336571891; 3584528711;
    113926993; 338241895; 666307205; 773529912; 1294757372; 1396182291;
    1695183700; 1986661051; 2177026350; 2456956037; 2730485921; 2820302411;
    3259730800; 3345764771; 3516065817; 3600352804; 4094571909; 275423344;
    430227734; 506948616; 659060556; 883997877; 958139571; 1322822218;
    1537002063; 1747873779; 1955562222; 2024104815; 2227730452; 2361852424;
    2428436474; 2756734187; 3204031479; 3329325298
  ].

Definition H0 : list Z :=
  [
    1779033703; 3144134277; 1013904242; 2773480762; 1359893119; 2600822924;
    528734635; 1541459225
  ].

(** Big-endian words and bytes. *)
Definition be_bytes (n : nat) (x : Z) : list Z :=
  map (fun i => Z.shiftr x (8 * Z.of_nat i) mod 256) (rev (seq 0 n)).
Definition be_word (bs : list Z) : Z := fold_left (fun acc b => acc * 256 + b) bs 0.

(** The message followed by the bit 1, zeros, and its length in bits on 64
    bits, which fills a whole number of 64-byte blocks. *)
Definition pad (msg : list Z) : list Z :=
  let l := Z.of_nat (length msg) in
  let zeros := Z.to_nat ((55 - l) mod 64) in
  msg ++ [128] ++ repeat 0 zeros ++ be_bytes 8 (8 * l).

Fixpoint chunks (fuel : nat) (n : nat) (l : list Z) : list (list Z) :=
  match fuel, l with
  | _, [] => []
  | O, _ => []
  | S fuel', _ => firstn n l :: chunks fuel' n (skipn n l)
  end.

(** The message schedule, latest word first while it is built. *)
Fixpoint extend (steps : nat) (back : list Z) : list Z :=
  match steps with
  | O => back
  | S steps' =>
      let w := add32 (add32 (sigma1 (nth 1 back 0)) (nth 6 back 0))
                     (add32 (sigma0 (nth 14 back 0)) (nth 15 back 0)) in
      extend steps' (w :: back)
  end.

Definition schedule (block : list Z) : list Z :=
  rev (extend 48 (rev (map be_word (chunks 16 4 block)))).

Definition round (st : list Z) (kw : Z * Z) : list Z :=
  match st with
  | [a; b; c; d; e; f; g; h] =>
      let T1 := add32 (add32 (add32 h (Sigma1 e)) (add32 (Ch e f g) (fst kw))) (snd kw) in
      let T2 := add32 (Sigma0 a) (Maj a b c) in
      [add32 T1 T2; a; b; c; add32 d T1; e; f; g]
  | _ => st
  end.

Definition compress (h : list Z) (block : list Z) : list Z :=
  let st := fold_left round (combine K (schedule block)) h in
  map (fun p => add32 (fst p) (snd p)) (combine h st).

(** [sha256.Sum256]: the 32 bytes of the digest. *)
Definition Sum (data : Bytes) : Bytes :=
  let msg := pad (map (fun b => Z.of_N (Byte.to_N b)) data) in
  let h := fold_left compress (chunks (length msg) 64 msg) H0 in
  map (fun z => default Byte.x00 (Byte.of_N (Z.to_N z))) (concat (map (be_bytes 4) h)).

End sha256.

Module hex.

Definition digit (n : N) : ascii :=
  nth (N.to_nat n) (GoString.chars "0123456789abcdef") "0"%char.

(** [hex.EncodeToString]: two lowercase digits per byte. *)
Fixpoint EncodeToString (src : Bytes) : string :=
  match src with
  | [] => ""
  | b :: rest =>
      let n := Byte.to_N b in
      String (digit (N.div n 16)) (String (digit (N.modulo n 16)) (EncodeToString rest))
  end.

End hex.

(** The digest the code compares with the declared one. *)
Definition sha256hex (data : Bytes) : string := hex.EncodeToString (sha256.Sum data).

Definition bytes_of (s : string) : Bytes := String.list_byte_of_string s.


(** ** Errors

    An error made by [fmt.Errorf] keeps its format and its argument (printed
    by [%q]); one wrapping another by [%w] keeps the cause.  Errors of the
    operating system, the bucket and the archive readers are [External]. *)

Inductive error : Type :=
| External (msg : string)
| Errorf (format : string) (arg : string)
| Wrapf (format : string) (arg : string) (cause : error).

(** ** The structs *)

(** [release.ArtifactMetadata], as cmd/gcb_stage.go fills it. *)
Module ArtifactMetadata.
Record t : Type := mk
  { Name : string; SHA256 : string; OS : string; Architecture : string }.
End ArtifactMetadata.

(** [release.Metadata], as cmd/gcb_stage.go fills it. *)
Module Metadata.
Record t : Type := mk
  { ReleaseVersion : string;
    GitCommitRef : string;
    Artifacts : list ArtifactMetadata.t }.
End Metadata.

(** [release.StagedArtifact]: the metadata and the handle of the object in
    the bucket, which is the object's name here. *)
Module StagedArtifact.
Record t : Type := mk
  { Metadata : ArtifactMetadata.t; ObjectHandle : string }.
End StagedArtifact.

(** Modelled from the spec: [release.Staged] is declared in a file that is
    not among the sources.  It has a name, the release metadata (release
    version, git commit reference) and the artifacts in declared order. *)
Module Staged.
Record t : Type := mk
  { Name : string;
    Metadata : Metadata.t;
    artifacts : list StagedArtifact.t }.
End Staged.

(** Modelled from the spec: [manifests.Chart] and [manifests.YAML] keep the
    path they were built from. *)
Module manifests.
Record Chart : Type := mkChart { chart_path : string }.
Record YAML : Type := mkYAML { yaml_path : string }.
End manifests.

(** Modelled from the spec: [images.Tar] keeps the path of the image
    archive, the declared OS and architecture, and the image name read out
    of the archive's own metadata. *)
Module images.
Record Tar : Type := mkTar
  { tar_path : string; tar_os : string; tar_arch : string; imageName : string }.
End images.

Module Unpacked.
Record t : Type := mk
  { ReleaseVersion : string;
    GitCommitRef : string;
    Charts : list manifests.Chart;
    YAMLs : list manifests.YAML;
    ComponentImageBundles : gmap string (list images.Tar) }.
End Unpacked.

(** ** The world the code runs in *)

(** What [os.Lstat] and a directory listing can find at a path.  The code
    asks a [FileInfo] one thing, [IsDir]: a [File] is an entry that is not a
    directory, with its content. *)
#[local] Unset Elimination Schemes.
Inductive Node : Type :=
| File (data : Bytes)
| Dir (entries : list (string * Node))
| Unlistable (e : error)     (* a directory whose listing fails *)
| Unstattable (e : error).   (* a name whose lstat fails *)
#[local] Set Elimination Schemes.

(** Making a temporary directory and entering the archive extractor are
    recorded, in the order they happen. *)
Inductive Event : Type :=
| MkdirTemp (dir : string)
| Untar (dest : string) (data : Bytes).

Record World : Type := mkWorld
  { objects : gmap string Bytes;       (* the bucket: object name to content *)
    disk : list (string * Node);       (* the local trees, each under its root path *)
    serial : nat;                      (* where the next temporary name is tried *)
    faults : list (option error);      (* outcome of the coming fallible calls, [None] for success *)
    trace : list Event }.

Definition set_disk (d : list (string * Node)) (w : World) : World :=
  mkWorld (objects w) d (serial w) (faults w) (trace w).
Definition set_faults (fs : list (option error)) (w : World) : World :=
  mkWorld (objects w) (disk w) (serial w) fs (trace w).
Definition record_event (ev : Event) (w : World) : World :=
  mkWorld (objects w) (disk w) (serial w) (faults w) (trace w ++ [ev]).

(** The node found at a path, searched below a root; an entry of a
    directory is at the path that [Join] makes of the directory's path and
    the entry's name, which is the path [Walk] visits it under. *)
Fixpoint find_path (root : string) (n : Node) (p : string) : option Node :=
  if String.eqb root p then Some n
  else match n with
       | Dir entries =>
           (fix below (es : list (string * Node)) : option Node :=
              match es with
              | [] => None
              | (name, child) :: es' =>
                  match find_path (filepath.Join [root; name]) child p with
                  | Some found => Some found
                  | None => below es'
                  end
              end) entries
       | _ => None
       end.

Fixpoint lookup_disk (d : list (string * Node)) (p : string) : option Node :=
  match d with
  | [] => None
  | (root, n) :: d' =>
      match find_path root n p with
      | Some found => Some found
      | None => lookup_disk d' p
      end
  end.

Definition roots (d : list (string * Node)) : list string := map fst d.

(** Replacing the tree under a root, or adding the root. *)
Fixpoint write_root (root : string) (n : Node) (d : list (string * Node))
  : list (string * Node) :=
  match d with
  | [] => [(root, n)]
  | (r, old) :: d' =>
      if String.eqb r root then (r, n) :: d' else (r, old) :: write_root root n d'
  end.

Fixpoint lookup_root (root : string) (d : list (string * Node)) : option Node :=
  match d with
  | [] => None
  | (r, n) :: d' => if String.eqb r root then Some n else lookup_root root d'
  end.

(** ** Computations: a state, and a panic that ends everything *)

Definition Go (St A : Type) : Type := St -> option (A * St).

Definition ret {St A : Type} (a : A) : Go St A := fun s => Some (a, s).
Definition bind {St A B : Type} (c : Go St A) (k : A -> Go St B) : Go St B :=
  fun s => match c s with
           | Some (a, s') => k a s'
           | None => None
           end.
Definition panic {St A : Type} : Go St A := fun _ => None.
Definition get {St : Type} : Go St St := fun s => Some (s, s).
Definition modify {St : Type} (f : St -> St) : Go St unit := fun s => Some (tt, f s).

Notation "x <- c ;; k" := (bind c (fun x => k))
  (at level 100, c at next level, right associativity).
Notation "'run' p <- c ;; k" := (bind c (fun x => let 'p := x in k))
  (at level 100, p pattern, c at next level, right associativity).

(** [*p]: a nil pointer panics. *)
Definition deref {St A : Type} (p : option A) : Go St A :=
  match p with
  | Some a => ret a
  | None => panic
  end.

(** [l[i]]: an index out of range panics. *)
Definition index {St A : Type} (l : list A) (i : nat) : Go St A := deref (l !! i).

(** [s[:hi]], the bound an [int]: out of range panics. *)
Definition slice_to {St : Type} (s : string) (hi : Z) : Go St string :=
  if ((0 <=? hi)%Z && (hi <=? Z.of_nat (GoString.len s))%Z)%bool
  then ret (GoString.slice s 0 (Z.to_nat hi))
  else panic.

Abbreviation M := (Go World).

(** The outcome scheduled for the next fallible call. *)
Definition fault : M (option error) :=
  fun w => match faults w with
           | [] => Some (None, w)
           | f :: rest => Some (f, set_faults rest w)
           end.

(** ** The operating system and the bucket *)

Definition no_such_file : error := External "no such file or directory".
Definition file_exists : error := External "file exists".

Definition decimal (n : nat) : string := NilEmpty.string_of_uint (Nat.to_uint n).

(** The name tried for a temporary entry: the system's temporary directory,
    the prefix, and a number in decimal. *)
Definition temp_name (prefix : string) (n : nat) : string :=
  "/tmp/" +:+ prefix +:+ decimal n.

Definition on_disk (w : World) (p : string) : bool :=
  match lookup_disk (disk w) p with
  | Some _ => true
  | None => false
  end.

(** The loop of [ioutil.TempDir] and [ioutil.TempFile]: a name that exists
    already is passed over and the next one tried, a bounded number of times. *)
Definition max_tries : nat := 100 * 100.

Fixpoint pick_fresh (taken : string -> bool) (name : nat -> string) (tries n : nat)
  : option nat :=
  match tries with
  | O => None
  | S tries' => if taken (name n) then pick_fresh taken name tries' (S n) else Some n
  end.

Definition create_temp (prefix : string) (n : Node) (ev : string -> list Event)
  : M (string * option error) :=
  err <- fault ;;
  match err with
  | Some e => ret ("", Some e)
  | None =>
      w <- get ;;
      match pick_fresh (on_disk w) (temp_name prefix) max_tries (serial w) with
      | None => ret ("", Some file_exists)
      | Some k =>
          let name := temp_name prefix k in
          _ <- modify (fun w =>
                 mkWorld (objects w) (disk w ++ [(name, n)]) (S k) (faults w)
                         (trace w ++ ev name)) ;;
          ret (name, None)
      end
  end.

(** [ioutil.TempDir("", prefix)]: a new, empty directory. *)
Definition TempDir (prefix : string) : M (string * option error) :=
  create_temp prefix (Dir []) (fun name => [MkdirTemp name]).

(** [ioutil.TempFile("", prefix)]: a new, empty file, open; the handle is
    the file's name.  The read position of the handle is not part of the
    model: [Seek(0, 0)] puts it back at the start, which is where both
    readers of the file begin. *)
Definition TempFile (prefix : string) : M (string * option error) :=
  create_temp prefix (File []) (fun _ => []).

(** [h.NewReader(ctx)]: the reader is the content it will deliver. *)
Definition NewReader (h : string) : M (Bytes * option error) :=
  err <- fault ;;
  match err with
  | Some e => ret ([], Some e)
  | None =>
      w <- get ;;
      match objects w !! h with
      | Some data => ret (data, None)
      | None => ret ([], Some (External "storage: object doesn't exist"))
      end
  end.

(** [io.Copy(f, r)] into a file. *)
Definition CopyToFile (f : string) (r : Bytes) : M (option error) :=
  err <- fault ;;
  match err with
  | Some e => ret (Some e)
  | None =>
      _ <- modify (fun w => set_disk (write_root f (File r) (disk w)) w) ;;
      ret None
  end.

(** [f.Sync()] and [f.Seek(0, 0)] *)
Definition Sync (f : string) : M (option error) := fault.
Definition Seek (f : string) : M (option error) := fault.

(** [os.Open(filename)] followed by reading the file to its end. *)
Definition Open (filename : string) : M (Bytes * option error) :=
  err <- fault ;;
  match err with
  | Some e => ret ([], Some e)
  | None =>
      w <- get ;;
      match lookup_disk (disk w) filename with
      | Some (File data) => ret (data, None)
      | _ => ret ([], Some no_such_file)
      end
  end.

(** ** path/filepath.Walk *)

Record FileInfo : Type := mkFileInfo { IsDir : bool }.

(** A [WalkFunc] with the variables it captures as its state. *)
Definition WalkFunc (St : Type) : Type :=
  string -> option FileInfo -> option error -> Go St (option error).

(** The visits of a directory's entries, in the order of the names. *)
Fixpoint visit_each {St : Type} (visits : list (string * Go St (option error)))
  : Go St (option error) :=
  match visits with
  | [] => ret None
  | (_, visit) :: rest =>
      err <- visit ;;
      match err with
      | Some e => ret (Some e)
      | None => visit_each rest
      end
  end.

(** The names of a directory come sorted, as [readDirNames] returns them. *)
Fixpoint insert_by_name {A : Type} (x : string * A) (l : list (string * A))
  : list (string * A) :=
  match l with
  | [] => [x]
  | y :: l' => if String.leb (fst x) (fst y) then x :: l else y :: insert_by_name x l'
  end.

Fixpoint sort_by_name {A : Type} (l : list (string * A)) : list (string * A) :=
  match l with
  | [] => []
  | x :: l' => insert_by_name x (sort_by_name l')
  end.

(** [walk]: the callback on the path itself, then, for a directory, each
    entry in the order of the sorted names, under [Join(path, name)],
    stopping at the first error.  The callback of this package never
    answers [SkipDir] or [SkipAll], so those two branches are left out. *)
Fixpoint walk {St : Type} (walkFn : WalkFunc St) (path : string) (n : Node)
  : Go St (option error) :=
  match n with
  | File _ => walkFn path (Some (mkFileInfo false)) None
  | Unstattable e => walkFn path None (Some e)
  | Unlistable e => walkFn path (Some (mkFileInfo true)) (Some e)
  | Dir entries =>
      err1 <- walkFn path (Some (mkFileInfo true)) None ;;
      match err1 with
      | Some e => ret (Some e)
      | None =>
          visit_each
            (sort_by_name
               (map (fun entry : string * Node =>
                       (fst entry, walk walkFn (filepath.Join [path; fst entry]) (snd entry)))
                    entries))
      end
  end.

(** What [walk] visits below a path, in its order, each with what
    [IsDir] answers; a name whose lstat fails has no [FileInfo]. *)
Fixpoint visited (path : string) (n : Node) : list (string * bool) :=
  match n with
  | File _ => [(path, false)]
  | Unstattable _ => []
  | Unlistable _ => [(path, true)]
  | Dir entries =>
      (path, true) ::
      concat (map snd
                (sort_by_name
                   (map (fun entry : string * Node =>
                           (fst entry, visited (filepath.Join [path; fst entry]) (snd entry)))
                        entries)))
  end.

(** A tree all of whose names can be examined and directories listed. *)
Fixpoint readable (n : Node) : bool :=
  match n with
  | File _ => true
  | Dir entries => forallb (fun entry => readable (snd entry)) entries
  | Unlistable _ | Unstattable _ => false
  end.

(** The visited files, directories apart, whose extension is the given one. *)
Definition files_with_ext (ext : string) (seen : list (string * bool)) : list string :=
  map fst (List.filter (fun v => negb (snd v) && String.eqb (filepath.Ext (fst v)) ext) seen).

(** [filepath.Walk(root, walkFn)] on a disk. *)
Definition Walk {St : Type} (d : list (string * Node)) (root : string)
    (walkFn : WalkFunc St) : Go St (option error) :=
  match lookup_disk d root with
  | None => walkFn root None (Some no_such_file)
  | Some n => walk walkFn root n
  end.

(** ** The parts of the repository that are not among the sources *)

(** What the absent packages compute from the bytes they are given, and how
    a record's kind is told, is taken as given. *)
Class Collaborators : Type :=
  { (* the kind of an artifact record: manifests, server or client *)
    kindOf : ArtifactMetadata.t -> string;
    (* the entries of a gzip-compressed tar stream, or why it cannot be read *)
    readTarGz : Bytes -> error + list (string * Node);
    (* the image name in an image archive's metadata, or why it cannot be read *)
    inspectImage : Bytes -> error + string;
    (* why a chart package cannot be loaded, if it cannot *)
    loadChart : Bytes -> option error }.

Section Unpacker.

Context `{Collaborators}.

(** Modelled from the spec: [Staged.ArtifactsOfKind] is not among the
    sources.  It returns every record whose kind equals the requested
    value, in the release's declared order. *)
Definition ArtifactsOfKind (s : Staged.t) (kind : string) : list StagedArtifact.t :=
  filter (fun a => kindOf (StagedArtifact.Metadata a) = kind) (Staged.artifacts s).

(** Modelled from the spec: [tar.UntarGz] is not among the sources.  Its
    input is a gzip-compressed tar stream; every entry is written into the
    destination directory, and the first error aborts the extraction. *)
Definition UntarGz (dest : string) (f : string) : M (option error) :=
  w <- get ;;
  let data := match lookup_disk (disk w) f with
              | Some (File data) => data
              | _ => []
              end in
  _ <- modify (record_event (Untar dest data)) ;;
  err <- fault ;;
  match err with
  | Some e => ret (Some e)
  | None =>
      match readTarGz data, lookup_root dest (disk w) with
      | inl e, _ => ret (Some e)
      | inr entries, Some (Dir old) =>
          _ <- modify (fun w => set_disk (write_root dest (Dir (old ++ entries)) (disk w)) w) ;;
          ret None
      | inr _, _ => ret (Some no_such_file)
      end
  end.

(** Modelled from the spec: [images.NewTar] is not among the sources.  The
    descriptor takes the path and the declared OS and architecture as
    given, and the image name from the archive's content. *)
Definition NewTar (path os arch : string) : M (option images.Tar * option error) :=
  w <- get ;;
  match lookup_disk (disk w) path with
  | Some (File data) =>
      match inspectImage data with
      | inr name => ret (Some (images.mkTar path os arch name), None)
      | inl e => ret (None, Some e)
      end
  | _ => ret (None, Some no_such_file)
  end.

(** Modelled from the spec: [manifests.NewChart] is not among the sources.
    A chart is built from one discovered package, which must load. *)
Definition NewChart (path : string) : M (option manifests.Chart * option error) :=
  w <- get ;;
  match lookup_disk (disk w) path with
  | Some (File data) =>
      match loadChart data with
      | None => ret (Some (manifests.mkChart path), None)
      | Some e => ret (None, Some e)
      end
  | _ => ret (None, Some no_such_file)
  end.

(** Modelled from the spec: [manifests.NewYAML] is not among the sources. *)
Definition NewYAML (path : string) : option manifests.YAML :=
  Some (manifests.mkYAML path).

(** *** pkg/release/unpacker.go

    The calls to [log.Printf] write to the process's log only and are left
    out; [defer f.Close()] and [defer r.Close()] change nothing that the
    model holds.  A [*StagedArtifact] parameter is the artifact itself: the
    caller dereferences, which is where a nil pointer would panic. *)

Definition sha256SumFile (filename : string) : M (string * option error) :=
  run (data, err) <- Open filename ;;
  match err with
  | Some e => ret ("", Some e)
  | None =>
      (* io.Copy(hasher, f) *)
      err <- fault ;;
      match err with
      | Some e => ret ("", Some e)
      | None => ret (sha256hex data, None)
      end
  end.

Definition mismatching_checksum : string :=
  "artifact %q has a mismatching checksum - refusing to extract".

Definition extractStagedArtifact (a : StagedArtifact.t) (dest : string)
  : M (option error) :=
  (* download the file to disk first *)
  run (f, err) <- TempFile "temp-artifact-" ;;
  match err with
  | Some e => ret (Some e)
  | None =>
  run (r, err) <- NewReader (StagedArtifact.ObjectHandle a) ;;
  match err with
  | Some e => ret (Some e)
  | None =>
  err <- CopyToFile f r ;;
  match err with
  | Some e => ret (Some e)
  | None =>
  (* flush data to disk *)
  err <- Sync f ;;
  match err with
  | Some e => ret (Some e)
  | None =>
  (* seek back to the start of the file so it can be read again *)
  err <- Seek f ;;
  match err with
  | Some e => ret (Some e)
  | None =>
  (* validate the sha256sum *)
  run (downloadedSum, err) <- sha256SumFile f ;;
  match err with
  | Some e => ret (Some e)
  | None =>
  if negb (String.eqb downloadedSum (ArtifactMetadata.SHA256 (StagedArtifact.Metadata a)))
  then ret (Some (Errorf mismatching_checksum
                         (ArtifactMetadata.Name (StagedArtifact.Metadata a))))
  else UntarGz dest f
  end end end end end end.

Definition extractStagedArtifactToTempDir (a : StagedArtifact.t)
  : M (string * option error) :=
  run (dest, err) <- TempDir "extracted-artifact-" ;;
  match err with
  | Some e => ret ("", Some e)
  | None =>
      err <- extractStagedArtifact a dest ;;
      ret (dest, err)
  end.

Definition manifestArtifactForStaged (s : Staged.t)
  : M (option StagedArtifact.t * option error) :=
  let artifacts := ArtifactsOfKind s "manifests" in
  if length artifacts =? 0
  then ret (None, Some (Errorf "cannot find 'manifests' artifact in staged release %q"
                               (Staged.Name s)))
  else if 1 <? length artifacts
  then ret (None, Some (Errorf "found multiple 'manifests' artifacts in staged release %q"
                               (Staged.Name s)))
  else
    a <- index artifacts 0 ;;
    ret (Some a, None).

(** The callback given to [filepath.Walk]; it captures [paths] and [ext]. *)
Definition find_walkFn (ext : string) : WalkFunc (list string) :=
  fun path info err =>
    match err with
    | Some e => ret (Some e)
    | None =>
        info <- deref info ;;
        if IsDir info then ret None
        else if negb (String.eqb (filepath.Ext path) ext) then ret None
        else
          _ <- modify (fun paths => paths ++ [path]) ;;
          ret None
    end.

Definition recursiveFindWithExt (path ext : string) : M (list string * option error) :=
  w <- get ;;
  match Walk (disk w) path (find_walkFn ext) [] with
  | None => panic
  | Some (Some e, _) => ret ([], Some e)
  | Some (None, paths) => ret (paths, None)
  end.

Definition failed_to_inspect : string := "failed to inspect image tar at path %q: %w".

(** [baseName[:len(baseName)-len(filepath.Ext(baseName))]] *)
Definition componentNameOf {St : Type} (archive : string) : Go St string :=
  let baseName := filepath.Base archive in
  slice_to baseName
    (Z.of_nat (GoString.len baseName) - Z.of_nat (GoString.len (filepath.Ext baseName)))%Z.

(** [tarBundles[componentName] = append(tarBundles[componentName], *imageTar)];
    a key that is absent reads as the empty slice. *)
Definition append_to_bundle (componentName : string) (imageTar : images.Tar)
    (tarBundles : gmap string (list images.Tar)) : gmap string (list images.Tar) :=
  <[componentName := default [] (tarBundles !! componentName) ++ [imageTar]]> tarBundles.

(** [for _, archive := range imageArchives]; an error leaves the function
    with a nil map, which reads as the empty one. *)
Fixpoint range_imageArchives (a : StagedArtifact.t) (imageArchives : list string)
    (tarBundles : gmap string (list images.Tar))
  : M (gmap string (list images.Tar) * option error) :=
  match imageArchives with
  | [] => ret (tarBundles, None)
  | archive :: rest =>
      run (imageTar, err) <-
        NewTar archive (ArtifactMetadata.OS (StagedArtifact.Metadata a))
                       (ArtifactMetadata.Architecture (StagedArtifact.Metadata a)) ;;
      match err with
      | Some e => ret (∅, Some (Wrapf failed_to_inspect archive e))
      | None =>
          componentName <- componentNameOf archive ;;
          imageTar <- deref imageTar ;;
          range_imageArchives a rest (append_to_bundle componentName imageTar tarBundles)
      end
  end.

(** [for _, a := range serverA] *)
Fixpoint range_serverA (serverA : list StagedArtifact.t)
    (tarBundles : gmap string (list images.Tar))
  : M (gmap string (list images.Tar) * option error) :=
  match serverA with
  | [] => ret (tarBundles, None)
  | a :: rest =>
      run (dir, err) <- extractStagedArtifactToTempDir a ;;
      match err with
      | Some e => ret (∅, Some e)
      | None =>
      run (imageArchives, err) <- recursiveFindWithExt dir ".tar" ;;
      match err with
      | Some e => ret (∅, Some e)
      | None =>
      run (tarBundles, err) <- range_imageArchives a imageArchives tarBundles ;;
      match err with
      | Some e => ret (∅, Some e)
      | None => range_serverA rest tarBundles
      end end end
  end.

Definition unpackServerImagesFromRelease (s : Staged.t)
  : M (gmap string (list images.Tar) * option error) :=
  let serverA := ArtifactsOfKind s "server" in
  (* tarBundles is a map from component name to slices of images.Tar *)
  range_serverA serverA ∅.

(** [for _, path := range chartPaths] *)
Fixpoint range_chartPaths (chartPaths : list string) (charts : list manifests.Chart)
  : M (list manifests.Chart * option error) :=
  match chartPaths with
  | [] => ret (charts, None)
  | path :: rest =>
      run (c, err) <- NewChart path ;;
      match err with
      | Some e => ret ([], Some e)
      | None =>
          c <- deref c ;;
          range_chartPaths rest (charts ++ [c])
      end
  end.

(** [for _, path := range yamlPaths] *)
Fixpoint range_yamlPaths (yamlPaths : list string) (yamls : list manifests.YAML)
  : M (list manifests.YAML) :=
  match yamlPaths with
  | [] => ret yamls
  | path :: rest =>
      y <- deref (NewYAML path) ;;
      range_yamlPaths rest (yamls ++ [y])
  end.

Definition Unpack (s : Staged.t) : M (option Unpacked.t * option error) :=
  run (manifestsA, err) <- manifestArtifactForStaged s ;;
  match err with
  | Some e => ret (None, Some e)
  | None =>
  manifestsA <- deref manifestsA ;;
  run (manifestsDir, err) <- extractStagedArtifactToTempDir manifestsA ;;
  match err with
  | Some e => ret (None, Some e)
  | None =>
  (* chart packages have a .tgz file extension *)
  run (chartPaths, err) <- recursiveFindWithExt manifestsDir ".tgz" ;;
  match err with
  | Some e => ret (None, Some e)
  | None =>
  run (charts, err) <- range_chartPaths chartPaths [] ;;
  match err with
  | Some e => ret (None, Some e)
  | None =>
  (* static manifests have a .yaml file extension *)
  run (yamlPaths, err) <- recursiveFindWithExt manifestsDir ".yaml" ;;
  match err with
  | Some e => ret (None, Some e)
  | None =>
  yamls <- range_yamlPaths yamlPaths [] ;;
  run (bundles, err) <- unpackServerImagesFromRelease s ;;
  match err with
  | Some e => ret (None, Some e)
  | None =>
  ret (Some (Unpacked.mk (Metadata.ReleaseVersion (Staged.Metadata s))
                         (Metadata.GitCommitRef (Staged.Metadata s))
                         charts yamls bundles),
       None)
  end end end end end end.

End Unpacker.

(** ** os/exec: the environment of a started process

    An entry of [Cmd.Env] is [key=value]; of the entries with one key the
    process gets the last. *)

(** The key of an entry: what stands before its first [=]. *)
Fixpoint env_key (kv : string) : option string :=
  match kv with
  | EmptyString => None
  | String c rest =>
      if Ascii.eqb c "=" then Some ""
      else option_map (String c) (env_key rest)
  end.

Definition defines (key kv : string) : bool :=
  match env_key kv with
  | Some k => String.eqb k key
  | None => false
  end.

(** The entry in effect for a key. *)
Definition in_effect (env : list string) (key : string) : option string :=
  last (List.filter (defines key) env).

(** ** cmd/cmrel/cmd/gcb_stage.go

    The functions of the staging command that build a record for a staged
    artifact, and the names they derive.  A slice reached through a pointer
    ([artifacts *[]release.ArtifactMetadata]) goes in as the slice and comes
    back, as it is after the call, beside the error. *)

Module gcbStageOptions.
Record t : Type := mk
  { Bucket : string;
    RepoPath : string;
    ReleaseVersion : string;
    PublishedImageRepository : string;
    SkipPush : bool;
    SkipSigning : bool;
    SigningKMSKey : string;
    TargetOSes : string;
    TargetArches : string }.
End gcbStageOptions.

Module cmd.

(** [type postprocessFunc func(string) error] *)
Definition postprocessFunc : Type := string -> M (option error).

Definition sha256SumFile (filename : string) : M (string * option error) :=
  run (f, err) <- Open filename ;;
  match err with
  | Some e => ret ("", Some e)
  | None =>
      (* io.Copy(hasher, f) *)
      err <- fault ;;
      match err with
      | Some e => ret ("", Some e)
      | None => ret (hex.EncodeToString (sha256.Sum f), None)
      end
  end.

Definition buildObjectName (outputDir name : string) : string :=
  outputDir +:+ "/" +:+ name.

Definition buildArtifactPath (repoRoot : string) (artifactPaths : list string) : string :=
  filepath.Join ([repoRoot; "bazel-bin"] ++ artifactPaths).

Definition platformFlagForOSArch (os arch : string) : string :=
  "--platforms=@io_bazel_rules_go//go/toolchain:" +:+ os +:+ "_" +:+ arch.

(** [os.Environ()] is what the process was started with; it is given. *)
Definition bazelBuildEnv (environ : list string) (opts : gcbStageOptions.t) : list string :=
  environ ++ ["DOCKER_REGISTRY=" +:+ gcbStageOptions.PublishedImageRepository opts].

Definition failed_to_postprocess : string := "failed to postprocess %q: %w".
Definition failed_to_compute_sha256sum : string :=
  "failed to compute sha256sum of release artifact %q: %w".

(** Build an artifact record using the given name, and append it to the
    given list after running [postprocess] to modify the file in place. *)
Definition appendArtifactWithPostprocess (artifacts : list ArtifactMetadata.t)
    (repoPath name os arch : string) (postprocess : option postprocessFunc)
  : M (list ArtifactMetadata.t * option error) :=
  let artifactPath := buildArtifactPath repoPath ["build"; "release-tars"; name] in
  err <- match postprocess with
         | Some postprocess => postprocess artifactPath
         | None => ret None
         end ;;
  match err with
  | Some e => ret (artifacts, Some (Wrapf failed_to_postprocess artifactPath e))
  | None =>
      run (artifactHash, err) <- sha256SumFile artifactPath ;;
      match err with
      | Some e => ret (artifacts, Some (Wrapf failed_to_compute_sha256sum artifactPath e))
      | None =>
          ret (artifacts ++ [ArtifactMetadata.mk name artifactHash os arch], None)
      end
  end.

Definition appendArtifact (artifacts : list ArtifactMetadata.t)
    (repoPath name os arch : string) : M (list ArtifactMetadata.t * option error) :=
  appendArtifactWithPostprocess artifacts repoPath name os arch None.

(** *** The command itself

    [runGCBStage] calls into packages that are not among the sources
    ([pkg/release] for the lists of targets and the layout of the bucket,
    [pkg/sign] for the signing) and into the system (subprocesses, the
    storage client, the JSON encoder).  They are the fields of [Stager];
    what the command does with them is below, statement by statement.  The
    calls to [log.Printf] are left out, and so is [rootOpts], which the
    function does not use. *)

Class Stager : Type :=
  { (** [os.Environ()] *)
    Environ : list string;
    (** [exec.Cmd.Run] of a command, given [Dir], [Env] (nil for the
        environment of the process), the program and its arguments; what it
        writes to its standard output comes back with the error. *)
    Run : string -> option (list string) -> string -> list string -> M (string * option error);
    (** [strings.TrimSpace] *)
    TrimSpace : string -> string;
    (** [sign.NewGCPKMSKey] and [sign.CertManagerManifests] *)
    GCPKMSKey : Type;
    NewGCPKMSKey : string -> error + GCPKMSKey;
    CertManagerManifests : GCPKMSKey -> string -> string -> M (option error);
    (** [release.BucketPathForRelease] and the constants it is called with *)
    DefaultBucketPathPrefix : string;
    BuildTypeDevel : string;
    BuildTypeRelease : string;
    BucketPathForRelease : string -> string -> string -> string -> string;
    (** [release.OSListFromString], [release.ArchListFromString] and the
        methods [List] and [Has] of what they return *)
    OSList : Type;
    ArchList : Type;
    OSListFromString : string -> error + OSList;
    ArchListFromString : string -> OSList -> error + ArchList;
    OSList_List : OSList -> list string;
    ArchList_Has : ArchList -> string -> bool;
    (** [release.ArchitecturesPerOS], a map; an OS that is not a key has
        no architecture *)
    ArchitecturesPerOS : gmap string (list string);
    IsServerOS : string -> bool;
    IsClientOS : string -> bool;
    CmctlIsShipped : string -> bool;
    TarsBazelTarget : string;
    MetadataFileName : string;
    (** [json.MarshalIndent(v, "", " ")] of a [release.Metadata] *)
    MarshalIndent : Metadata.t -> error + Bytes }.

(** An error made by [fmt.Errorf] from a format whose only verb is the
    one for the cause. *)
Definition wrap (format : string) (cause : error) : error := Wrapf format "" cause.

(** [gcs.Bucket(bucket).Object(name)]: the handle of an object is the name
    of its bucket and its own. *)
Definition ObjectHandle (bucket name : string) : string :=
  "gs://" +:+ bucket +:+ "/" +:+ name.

(** [storage.NewClient(ctx)] *)
Definition NewClient : M (option error) := fault.

(** [io.Copy(w, r)] and [w.Write(p)] into the writer of an object: the
    bytes are held by the writer. *)
Definition WriteToObject (h : string) (p : Bytes) : M (option error) := fault.

(** [w.Close()] on the writer of an object: the object is there, with the
    bytes written, when this returns without error. *)
Definition CloseObject (h : string) (written : Bytes) : M (option error) :=
  err <- fault ;;
  match err with
  | Some e => ret (Some e)
  | None =>
      _ <- modify (fun w => mkWorld (<[h := written]> (objects w)) (disk w) (serial w)
                                    (faults w) (trace w)) ;;
      ret None
  end.

(** [os.ReadFile(name)] *)
Definition ReadFile (name : string) : M (Bytes * option error) := Open name.

Section Command.

Context `{Stager}.

Definition runCmdWithEnv (wd : string) (env : option (list string)) (cmd : string)
    (args : list string) : M (option error) :=
  run (_, err) <- Run wd env cmd args ;;
  ret err.

Definition runCmd (wd cmd : string) (args : list string) : M (option error) :=
  runCmdWithEnv wd None cmd args.

Definition runBazel (wd : string) (env : option (list string)) (args : list string)
  : M (option error) :=
  runCmdWithEnv wd env "bazel" args.

Definition runGit (wd : string) (args : list string) : M (option error) :=
  runCmd wd "git" args.

(** [readBazelVersion] builds the //:version target and reads the
    contents of the version file generated. *)
Definition readBazelVersion (wd : string) : M (string * option error) :=
  err <- runBazel wd None ["build"; "//:version"] ;;
  match err with
  | Some e => ret ("", Some e)
  | None =>
      run (vBytes, err) <- ReadFile (buildArtifactPath wd ["version"]) ;;
      match err with
      | Some e => ret ("", Some e)
      | None => ret (TrimSpace (String.string_of_list_byte vBytes), None)
      end
  end.

Definition readGitRef (wd : string) : M (string * option error) :=
  run (b, err) <- Run wd None "git" ["rev-parse"; "HEAD"] ;;
  match err with
  | Some e => ret ("", Some e)
  | None => ret (TrimSpace b, None)
  end.

Definition serverArtifactName (arch : string) : string :=
  "cert-manager-server-linux-" +:+ arch +:+ ".tar.gz".

Definition clientArtifactName (kind osVariant arch : string) : string :=
  "cert-manager-" +:+ kind +:+ "-" +:+ osVariant +:+ "-" +:+ arch +:+ ".tar.gz".

(** [for _, kind := range []string{"kubectl-cert_manager", "cmctl"}] *)
Fixpoint range_kinds (o : gcbStageOptions.t) (osVariant arch : string) (kinds : list string)
    (artifacts : list ArtifactMetadata.t) : M (list ArtifactMetadata.t * option error) :=
  match kinds with
  | [] => ret (artifacts, None)
  | kind :: rest =>
      run (artifacts, err) <-
        appendArtifact artifacts (gcbStageOptions.RepoPath o)
                       (clientArtifactName kind osVariant arch) osVariant arch ;;
      match err with
      | Some e => ret (artifacts, Some e)
      | None => range_kinds o osVariant arch rest artifacts
      end
  end.

(** The body of the loop over the architectures of one OS, for an
    architecture that is among the targets. *)
Definition build_target (o : gcbStageOptions.t) (releaseVersion osVariant arch : string)
    (artifacts : list ArtifactMetadata.t) : M (list ArtifactMetadata.t * option error) :=
  err <- runBazel (gcbStageOptions.RepoPath o) (Some (bazelBuildEnv Environ o))
                  ["build"; "--stamp"; platformFlagForOSArch osVariant arch; TarsBazelTarget] ;;
  match err with
  | Some e =>
      ret (artifacts,
           Some (Wrapf "failed building release artifacts for architecture %q: %w" arch e))
  | None =>
      run (artifacts, err) <-
        (if IsServerOS osVariant
         then appendArtifact artifacts (gcbStageOptions.RepoPath o)
                             (serverArtifactName arch) osVariant arch
         else ret (artifacts, None)) ;;
      match err with
      | Some e => ret (artifacts, Some e)
      | None =>
          if IsClientOS osVariant && CmctlIsShipped releaseVersion
          then range_kinds o osVariant arch ["kubectl-cert_manager"; "cmctl"] artifacts
          else ret (artifacts, None)
      end
  end.

(** [for _, arch := range release.ArchitecturesPerOS[osVariant]] *)
Fixpoint range_arches (o : gcbStageOptions.t) (releaseVersion : string)
    (targetArches : ArchList) (osVariant : string) (arches : list string)
    (artifacts : list ArtifactMetadata.t) : M (list ArtifactMetadata.t * option error) :=
  match arches with
  | [] => ret (artifacts, None)
  | arch :: rest =>
      if negb (ArchList_Has targetArches arch)
      then range_arches o releaseVersion targetArches osVariant rest artifacts
      else
        run (artifacts, err) <- build_target o releaseVersion osVariant arch artifacts ;;
        match err with
        | Some e => ret (artifacts, Some e)
        | None => range_arches o releaseVersion targetArches osVariant rest artifacts
        end
  end.

(** [for _, osVariant := range targetOSes.List()] *)
Fixpoint range_targetOSes (o : gcbStageOptions.t) (releaseVersion : string)
    (targetArches : ArchList) (oses : list string)
    (artifacts : list ArtifactMetadata.t) : M (list ArtifactMetadata.t * option error) :=
  match oses with
  | [] => ret (artifacts, None)
  | osVariant :: rest =>
      run (artifacts, err) <-
        range_arches o releaseVersion targetArches osVariant
                     (default [] (ArchitecturesPerOS !! osVariant)) artifacts ;;
      match err with
      | Some e => ret (artifacts, Some e)
      | None => range_targetOSes o releaseVersion targetArches rest artifacts
      end
  end.

Definition manifestPostProcessor (o : gcbStageOptions.t) : postprocessFunc :=
  fun path =>
    if gcbStageOptions.SkipSigning o then ret None
    else
      match NewGCPKMSKey (gcbStageOptions.SigningKMSKey o) with
      | inl e => ret (Some e)
      | inr parsedKey =>
          CertManagerManifests parsedKey path (gcbStageOptions.ReleaseVersion o)
      end.

(** The function literal called in the loop over the artifacts to upload. *)
Definition upload (o : gcbStageOptions.t) (filePath gcsPath : string) : M (option error) :=
  run (r, err) <- Open filePath ;;
  match err with
  | Some e => ret (Some e)
  | None =>
      let w := ObjectHandle (gcbStageOptions.Bucket o) gcsPath in
      err <- WriteToObject w r ;;
      match err with
      | Some e => ret (Some e)
      | None =>
          err <- CloseObject w r ;;
          match err with
          | Some e => ret (Some e)
          | None => ret None
          end
      end
  end.

(** [for _, artifact := range artifacts]: upload all built release
    artifacts. *)
Fixpoint range_artifacts (o : gcbStageOptions.t) (outputDir : string)
    (artifacts : list ArtifactMetadata.t) : M (option error) :=
  match artifacts with
  | [] => ret None
  | artifact :: rest =>
      let filePath := buildArtifactPath (gcbStageOptions.RepoPath o)
                        ["build"; "release-tars"; ArtifactMetadata.Name artifact] in
      let gcsPath := buildObjectName outputDir (ArtifactMetadata.Name artifact) in
      err <- upload o filePath gcsPath ;;
      match err with
      | Some e =>
          ret (Some (wrap "failed to copy output artifact to GCS staging location: %w" e))
      | None => range_artifacts o outputDir rest
      end
  end.

Definition runGCBStage (o : gcbStageOptions.t) : M (option error) :=
  run (gitRef, err) <- readGitRef (gcbStageOptions.RepoPath o) ;;
  match err with
  | Some e => ret (Some (wrap "failed to read git ref from repository: %v" e))
  | None =>
  match (if negb (String.eqb (gcbStageOptions.SigningKMSKey o) "")
         then match NewGCPKMSKey (gcbStageOptions.SigningKMSKey o) with
              | inl e => Some e
              | inr _ => None
              end
         else None) with
  | Some e => ret (Some e)
  | None =>
  err <- (if negb (String.eqb (gcbStageOptions.ReleaseVersion o) "")
          then runGit (gcbStageOptions.RepoPath o)
                      ["tag"; "-f"; gcbStageOptions.ReleaseVersion o]
          else ret None) ;;
  match err with
  | Some e => ret (Some e)
  | None =>
  run (releaseVersion, err) <- readBazelVersion (gcbStageOptions.RepoPath o) ;;
  match err with
  | Some e => ret (Some e)
  | None =>
  (* If --release-version is not explicitly set, this is a 'devel' build
     and goes into the development directory. *)
  let outputDir :=
    if String.eqb (gcbStageOptions.ReleaseVersion o) ""
    then BucketPathForRelease DefaultBucketPathPrefix BuildTypeDevel releaseVersion gitRef
    else BucketPathForRelease DefaultBucketPathPrefix BuildTypeRelease releaseVersion gitRef in
  match OSListFromString (gcbStageOptions.TargetOSes o) with
  | inl e => ret (Some (wrap "invalid --target-os list: %w" e))
  | inr targetOSes =>
  match ArchListFromString (gcbStageOptions.TargetArches o) targetOSes with
  | inl e => ret (Some (wrap "invalid --target-arch list: %w" e))
  | inr targetArches =>
  run (artifacts, err) <-
    range_targetOSes o releaseVersion targetArches (OSList_List targetOSes) [] ;;
  match err with
  | Some e => ret (Some e)
  | None =>
  (* add 'manifests' (helm chart, k8s YAML manifests) *)
  run (artifacts, err) <-
    appendArtifactWithPostprocess artifacts (gcbStageOptions.RepoPath o)
      "cert-manager-manifests.tar.gz" "" "" (Some (manifestPostProcessor o)) ;;
  match err with
  | Some e => ret (Some e)
  | None =>
  match MarshalIndent (Metadata.mk (gcbStageOptions.ReleaseVersion o) gitRef artifacts) with
  | inl e => ret (Some (wrap "failed to encode metadata output: %w" e))
  | inr meta =>
  if gcbStageOptions.SkipPush o then ret None
  else
  (* Build Google Cloud Storage API client for uploading artifacts *)
  err <- NewClient ;;
  match err with
  | Some e => ret (Some (wrap "failed to create GCS client: %w" e))
  | None =>
  err <- range_artifacts o outputDir artifacts ;;
  match err with
  | Some e => ret (Some e)
  | None =>
  let w := ObjectHandle (gcbStageOptions.Bucket o) (buildObjectName outputDir MetadataFileName) in
  err <- WriteToObject w meta ;;
  match err with
  | Some e =>
      ret (Some (wrap "failed to write release metadata to GCS staging location: %w" e))
  | None =>
  err <- CloseObject w meta ;;
  match err with
  | Some e => ret (Some e)
  | None => ret None
  end end end end end end end end end end end end end.

End Command.

End cmd.

(** *** What a run of the staging command leaves behind *)

Section Staged.

Context `{cmd.Stager}.

Definition artifact_file (repoPath : string) (a : ArtifactMetadata.t) : string :=
  cmd.buildArtifactPath repoPath ["build"; "release-tars"; ArtifactMetadata.Name a].

Definition artifact_object (o : gcbStageOptions.t) (outputDir : string)
    (a : ArtifactMetadata.t) : string :=
  cmd.ObjectHandle (gcbStageOptions.Bucket o)
                   (cmd.buildObjectName outputDir (ArtifactMetadata.Name a)).

Definition metadata_object (o : gcbStageOptions.t) (outputDir : string) : string :=
  cmd.ObjectHandle (gcbStageOptions.Bucket o)
                   (cmd.buildObjectName outputDir cmd.MetadataFileName).

(** The directory of the bucket a run stages to. *)
Definition outputDir_of (o : gcbStageOptions.t) (releaseVersion gitRef : string) : string :=
  if String.eqb (gcbStageOptions.ReleaseVersion o) ""
  then cmd.BucketPathForRelease cmd.DefaultBucketPathPrefix cmd.BuildTypeDevel
                                releaseVersion gitRef
  else cmd.BucketPathForRelease cmd.DefaultBucketPathPrefix cmd.BuildTypeRelease
                                releaseVersion gitRef.

(** The content of a file, empty where there is no file. *)
Definition file_bytes (d : list (string * Node)) (p : string) : Bytes :=
  match lookup_disk d p with
  | Some (File data) => data
  | _ => []
  end.

(** The bucket after the archives of the artifacts, in their order, have
    been uploaded from the disk. *)
Definition pushed (o : gcbStageOptions.t) (outputDir : string) (d : list (string * Node))
    (artifacts : list ArtifactMetadata.t) (bucket : gmap string Bytes) : gmap string Bytes :=
  fold_left (fun m a =>
               <[artifact_object o outputDir a
                 := file_bytes d (artifact_file (gcbStageOptions.RepoPath o) a)]> m)
            artifacts bucket.

(** A record has the digest of the archive at its artifact's path. *)
Definition recorded (repoPath : string) (w : World) (a : ArtifactMetadata.t) : Prop :=
  exists data,
    lookup_disk (disk w) (artifact_file repoPath a) = Some (File data) /\
    ArtifactMetadata.SHA256 a = sha256hex data.

(** A record comes from a target of the run: an OS of the list and one
    of its architectures that is among those asked for. *)
Definition from_target (targetOSes : cmd.OSList) (targetArches : cmd.ArchList)
    (releaseVersion : string) (a : ArtifactMetadata.t) : Prop :=
  let osVariant := ArtifactMetadata.OS a in
  let arch := ArtifactMetadata.Architecture a in
  In osVariant (cmd.OSList_List targetOSes) /\
  In arch (default [] (cmd.ArchitecturesPerOS !! osVariant)) /\
  cmd.ArchList_Has targetArches arch = true /\
  ((cmd.IsServerOS osVariant = true /\
    ArtifactMetadata.Name a = cmd.serverArtifactName arch) \/
   (cmd.IsClientOS osVariant = true /\ cmd.CmctlIsShipped releaseVersion = true /\
    exists kind, In kind ["kubectl-cert_manager"; "cmctl"] /\
                 ArtifactMetadata.Name a = cmd.clientArtifactName kind osVariant arch)).

(** The name, the OS and the architecture of a record. *)
Definition target_of (a : ArtifactMetadata.t) : string * string * string :=
  (ArtifactMetadata.Name a, ArtifactMetadata.OS a, ArtifactMetadata.Architecture a).

(** The artifacts of one target, by name, OS and architecture, in the
    order they are recorded: the server archive where the OS is one for
    servers, then the two client archives where it is one for clients and
    the version ships cmctl. *)
Definition artifacts_of_target (releaseVersion osVariant arch : string)
  : list (string * string * string) :=
  (if cmd.IsServerOS osVariant then [(cmd.serverArtifactName arch, osVariant, arch)] else [])
  ++ (if cmd.IsClientOS osVariant && cmd.CmctlIsShipped releaseVersion
      then [(cmd.clientArtifactName "kubectl-cert_manager" osVariant arch, osVariant, arch);
            (cmd.clientArtifactName "cmctl" osVariant arch, osVariant, arch)]
      else []).

(** The artifacts a run is asked for: those of every OS of the list, in
    its order, with each architecture of that OS, in the order of the
    table, that is among the architectures asked for. *)
Definition requested (releaseVersion : string) (targetOSes : cmd.OSList)
    (targetArches : cmd.ArchList) : list (string * string * string) :=
  flat_map (fun osVariant =>
              flat_map (artifacts_of_target releaseVersion osVariant)
                       (List.filter (cmd.ArchList_Has targetArches)
                                    (default [] (cmd.ArchitecturesPerOS !! osVariant))))
           (cmd.OSList_List targetOSes).

(** The files that are there keep their content, but for those excepted. *)
Definition files_same (except : list string) (w w' : World) : Prop :=
  forall p data,
    ~ In p except ->
    lookup_disk (disk w) p = Some (File data) ->
    lookup_disk (disk w') p = Some (File data).

(** Neither a subprocess nor the signing changes a file that is there,
    but for the file that is signed. *)
Definition files_kept : Prop :=
  (forall wd env name args w r w',
      cmd.Run wd env name args w = Some (r, w') -> files_same [] w w') /\
  (forall key path version w r w',
      cmd.CertManagerManifests key path version w = Some (r, w') -> files_same [path] w w').

(** The bucket is as it was, and so are the files, where subprocesses and
    signing keep them. *)
Definition kept (except : list string) (w w' : World) : Prop :=
  objects w' = objects w /\ (files_kept -> files_same except w w').

(** The records made so far come from targets of the run and, where the
    files are kept, have the digests of their archives. *)
Definition built_so_far (o : gcbStageOptions.t) (targetOSes : cmd.OSList)
    (targetArches : cmd.ArchList) (releaseVersion : string) (w : World)
    (artifacts : list ArtifactMetadata.t) : Prop :=
  Forall (from_target targetOSes targetArches releaseVersion) artifacts /\
  (files_kept -> Forall (recorded (gcbStageOptions.RepoPath o) w) artifacts).

(** No OS that the options ask for and no architecture has a separator in
    its name. *)
Definition targets_plain (o : gcbStageOptions.t) : Prop :=
  (forall targetOSes,
      cmd.OSListFromString (gcbStageOptions.TargetOSes o) = inr targetOSes ->
      Forall (fun osVariant =>
                Forall (fun c => filepath.IsPathSeparator c = false)
                       (GoString.chars osVariant)) (cmd.OSList_List targetOSes)) /\
  (forall osVariant arches,
      cmd.ArchitecturesPerOS !! osVariant = Some arches ->
      Forall (fun arch => Forall (fun c => filepath.IsPathSeparator c = false)
                                 (GoString.chars arch)) arches).

(** The commit and the version a run reads before it builds: the commit
    first, then, after the tag is set where a release version is given,
    the version. *)
Definition read_at_start (o : gcbStageOptions.t) (w : World)
    (gitRef releaseVersion : string) : Prop :=
  exists w1 w2 w3,
    cmd.readGitRef (gcbStageOptions.RepoPath o) w = Some ((gitRef, None), w1) /\
    (if negb (String.eqb (gcbStageOptions.ReleaseVersion o) "")
     then cmd.runGit (gcbStageOptions.RepoPath o) ["tag"; "-f"; gcbStageOptions.ReleaseVersion o]
     else ret None) w1 = Some (None, w2) /\
    cmd.readBazelVersion (gcbStageOptions.RepoPath o) w2 = Some ((releaseVersion, None), w3).

(** The ways a run of [runGCBStage] ends.  Either nothing was pushed, and
    then the run failed or was told to skip the push; or the push was
    begun, after the records were made and the metadata encoded, and then
    the bucket holds the archives of the first artifacts, up to the one
    whose upload failed, or of all of them and the metadata, written
    last. *)
Definition staging_outcome (o : gcbStageOptions.t) (w : World)
    (err : option error) (w' : World) : Prop :=
  (objects w' = objects w /\ (is_Some err \/ gcbStageOptions.SkipPush o = true)) \/
  (gcbStageOptions.SkipPush o = false /\
   exists gitRef releaseVersion targetOSes targetArches artifacts sum meta,
     read_at_start o w gitRef releaseVersion /\
     cmd.OSListFromString (gcbStageOptions.TargetOSes o) = inr targetOSes /\
     cmd.ArchListFromString (gcbStageOptions.TargetArches o) targetOSes = inr targetArches /\
     Forall (from_target targetOSes targetArches releaseVersion) artifacts /\
     map target_of artifacts = requested releaseVersion targetOSes targetArches /\
     cmd.MarshalIndent
       (Metadata.mk (gcbStageOptions.ReleaseVersion o) gitRef
          (artifacts ++ [ArtifactMetadata.mk "cert-manager-manifests.tar.gz" sum "" ""]))
     = inr meta /\
     (files_kept -> targets_plain o ->
      Forall (recorded (gcbStageOptions.RepoPath o) w')
             (artifacts ++ [ArtifactMetadata.mk "cert-manager-manifests.tar.gz" sum "" ""])) /\
     let all := artifacts ++ [ArtifactMetadata.mk "cert-manager-manifests.tar.gz" sum "" ""] in
     let outputDir := outputDir_of o releaseVersion gitRef in
     ((is_Some err /\
       exists k, objects w' = pushed o outputDir (disk w') (take k all) (objects w)) \/
      (err = None /\
       objects w'
       = <[metadata_object o outputDir := meta]>
           (pushed o outputDir (disk w') all (objects w))))).

End Staged.

(** ** The vocabulary of the properties *)

(** A byte that is neither the dot nor the separator. *)
Definition plain (c : ascii) : Prop :=
  filepath.IsPathSeparator c = false /\ Ascii.eqb c "." = false.

(** [file_at path n p]: in the tree [n], which sits at [path], there is a
    file at the path [p]. *)
Inductive file_at : string -> Node -> string -> Prop :=
| file_here path data :
    file_at path (File data) path
| file_below path entries name child p :
    In (name, child) entries ->
    file_at (filepath.Join [path; name]) child p ->
    file_at path (Dir entries) p.

(** [post c s Q]: from [s] the computation [c] does not panic, and its
    result and final state satisfy [Q]. *)
Definition post {St A : Type} (c : Go St A) (s : St) (Q : A -> St -> Prop) : Prop :=
  exists a s', c s = Some (a, s') /\ Q a s'.

(** Nothing but the schedule of faults differs. *)
Definition quiet (w w' : World) : Prop :=
  objects w' = objects w /\ disk w' = disk w /\ serial w' = serial w /\ trace w' = trace w.

(** The outcome scheduled for the coming fallible call. *)
Definition scheduled (w : World) : option error := default None (head (faults w)).

(** What one extraction leaves behind: the bucket as it was, no tree
    removed, and the extractor entered at most once, and only on bytes
    whose digest is the declared one. *)
Definition extraction_effect (a : StagedArtifact.t) (dest : string)
    (w : World) (err : option error) (w' : World) : Prop :=
  objects w' = objects w /\
  incl (roots (disk w)) (roots (disk w')) /\
  ((is_Some err /\ trace w' = trace w) \/
   (exists data,
       trace w' = trace w ++ [Untar dest data] /\
       sha256hex data = ArtifactMetadata.SHA256 (StagedArtifact.Metadata a))).

(** What extracting into a temporary directory of its own leaves behind:
    the directory is new to the disk, and the extractor, if entered, is
    entered on that directory. *)
Definition tempdir_extraction_effect (a : StagedArtifact.t)
    (w : World) (r : string * option error) (w' : World) : Prop :=
  objects w' = objects w /\
  incl (roots (disk w)) (roots (disk w')) /\
  ((is_Some (snd r) /\ trace w' = trace w) \/
   (~ In (fst r) (roots (disk w)) /\ In (fst r) (roots (disk w')) /\
    ((is_Some (snd r) /\ trace w' = trace w ++ [MkdirTemp (fst r)]) \/
     (exists data,
         trace w' = trace w ++ [MkdirTemp (fst r); Untar (fst r) data] /\
         sha256hex data = ArtifactMetadata.SHA256 (StagedArtifact.Metadata a))))).

(** The descriptors appended under a key, in the order they were appended. *)
Definition with_key (k : string) (found : list (string * images.Tar)) : list images.Tar :=
  map snd (List.filter (fun p => String.eqb (fst p) k) found).

(** A descriptor under its key, as the loop over one artifact's image
    archives makes it: the artifact's declared OS and architecture, and the
    key derived from the descriptor's path. *)
Definition tagged (a : StagedArtifact.t) (p : string * images.Tar) : Prop :=
  images.tar_os (snd p) = ArtifactMetadata.OS (StagedArtifact.Metadata a) /\
  images.tar_arch (snd p) = ArtifactMetadata.Architecture (StagedArtifact.Metadata a) /\
  componentNameOf (images.tar_path (snd p)) tt = Some (fst p, tt).

(** The destinations the extractor was entered on, in the order of the trace. *)
Definition untar_dests (evs : list Event) : list string :=
  flat_map (fun ev => match ev with Untar dest _ => [dest] | MkdirTemp _ => [] end) evs.

(** What a stretch of a run wrote to the trace: the destinations of the
    extractions are pairwise distinct, each was made by [TempDir] within the
    stretch, and what [TempDir] made was not among the trees on the disk
    before and is among them after. *)
Definition extraction_log (w : World) (evs : list Event) (w' : World) : Prop :=
  trace w' = trace w ++ evs /\
  incl (roots (disk w)) (roots (disk w')) /\
  NoDup (untar_dests evs) /\
  (forall d, In d (untar_dests evs) -> In (MkdirTemp d) evs) /\
  (forall d, In (MkdirTemp d) evs -> ~ In d (roots (disk w)) /\ In d (roots (disk w'))).

(** What a stretch of a run leaves among the trees it added to the disk:
    the directory of every extraction it began, and the file of every
    archive that reached the extractor, holding the archive's bytes. *)
Definition left_on_disk (evs : list Event) (added : list (string * Node)) : Prop :=
  (forall d, In (MkdirTemp d) evs -> exists entries, In (d, Dir entries) added) /\
  (forall dest data, In (Untar dest data) evs -> exists f, In (f, File data) added).

(** What a stretch of a run appends to the disk and to the trace. *)
Definition appended (w w' : World) : Prop :=
  exists added evs,
    disk w' = disk w ++ added /\ trace w' = trace w ++ evs /\ left_on_disk evs added.

(** The map after a list of descriptors has been appended, each under its key. *)
Definition classify (found : list (string * images.Tar)) (bundles : gmap string (list images.Tar))
  : gmap string (list images.Tar) :=
  fold_left (fun b p => append_to_bundle (fst p) (snd p) b) found bundles.

(** *** The runs of the pipeline, stage by stage

    Each relation lists the ways a stage can end: at the first call that
    fails, with that call's error, or after its last call. *)

Abbreviation Bundles := (gmap string (list images.Tar)).

Section Outcomes.

Context `{Collaborators}.

(** Fetching, verifying and extracting one artifact.  [extractStagedArtifact]
    ends at the first call that fails, with that call's error; at the
    comparison of the digests, with the error naming the artifact; or
    with what the extractor answers. *)
Inductive artifact_extracted (a : StagedArtifact.t) (dest : string) (w : World)
  : option error -> World -> Prop :=
| stop_at_temp_file f e w1 :
    TempFile "temp-artifact-" w = Some ((f, Some e), w1) ->
    artifact_extracted a dest w (Some e) w1
| stop_at_fetch f w1 r e w2 :
    TempFile "temp-artifact-" w = Some ((f, None), w1) ->
    NewReader (StagedArtifact.ObjectHandle a) w1 = Some ((r, Some e), w2) ->
    artifact_extracted a dest w (Some e) w2
| stop_at_copy f w1 r w2 e w3 :
    TempFile "temp-artifact-" w = Some ((f, None), w1) ->
    NewReader (StagedArtifact.ObjectHandle a) w1 = Some ((r, None), w2) ->
    CopyToFile f r w2 = Some (Some e, w3) ->
    artifact_extracted a dest w (Some e) w3
| stop_at_sync f w1 r w2 w3 e w4 :
    TempFile "temp-artifact-" w = Some ((f, None), w1) ->
    NewReader (StagedArtifact.ObjectHandle a) w1 = Some ((r, None), w2) ->
    CopyToFile f r w2 = Some (None, w3) ->
    Sync f w3 = Some (Some e, w4) ->
    artifact_extracted a dest w (Some e) w4
| stop_at_seek f w1 r w2 w3 w4 e w5 :
    TempFile "temp-artifact-" w = Some ((f, None), w1) ->
    NewReader (StagedArtifact.ObjectHandle a) w1 = Some ((r, None), w2) ->
    CopyToFile f r w2 = Some (None, w3) ->
    Sync f w3 = Some (None, w4) ->
    Seek f w4 = Some (Some e, w5) ->
    artifact_extracted a dest w (Some e) w5
| stop_at_digest f w1 r w2 w3 w4 w5 downloadedSum e w6 :
    TempFile "temp-artifact-" w = Some ((f, None), w1) ->
    NewReader (StagedArtifact.ObjectHandle a) w1 = Some ((r, None), w2) ->
    CopyToFile f r w2 = Some (None, w3) ->
    Sync f w3 = Some (None, w4) ->
    Seek f w4 = Some (None, w5) ->
    sha256SumFile f w5 = Some ((downloadedSum, Some e), w6) ->
    artifact_extracted a dest w (Some e) w6
| stop_at_checksum f w1 r w2 w3 w4 w5 downloadedSum w6 :
    TempFile "temp-artifact-" w = Some ((f, None), w1) ->
    NewReader (StagedArtifact.ObjectHandle a) w1 = Some ((r, None), w2) ->
    CopyToFile f r w2 = Some (None, w3) ->
    Sync f w3 = Some (None, w4) ->
    Seek f w4 = Some (None, w5) ->
    sha256SumFile f w5 = Some ((downloadedSum, None), w6) ->
    downloadedSum <> ArtifactMetadata.SHA256 (StagedArtifact.Metadata a) ->
    artifact_extracted a dest w
      (Some (Errorf mismatching_checksum (ArtifactMetadata.Name (StagedArtifact.Metadata a))))
      w6
| extractor_answers f w1 r w2 w3 w4 w5 downloadedSum w6 err w7 :
    TempFile "temp-artifact-" w = Some ((f, None), w1) ->
    NewReader (StagedArtifact.ObjectHandle a) w1 = Some ((r, None), w2) ->
    CopyToFile f r w2 = Some (None, w3) ->
    Sync f w3 = Some (None, w4) ->
    Seek f w4 = Some (None, w5) ->
    sha256SumFile f w5 = Some ((downloadedSum, None), w6) ->
    downloadedSum = ArtifactMetadata.SHA256 (StagedArtifact.Metadata a) ->
    UntarGz dest f w6 = Some (err, w7) ->
    artifact_extracted a dest w err w7.

(** The same into a temporary directory of its own, which is made first. *)
Inductive artifact_extracted_to_temp_dir (a : StagedArtifact.t) (w : World)
  : string * option error -> World -> Prop :=
| stop_at_temp_dir d e w1 :
    TempDir "extracted-artifact-" w = Some ((d, Some e), w1) ->
    artifact_extracted_to_temp_dir a w ("", Some e) w1
| temp_dir_made dest w1 err w2 :
    TempDir "extracted-artifact-" w = Some ((dest, None), w1) ->
    artifact_extracted a dest w1 err w2 ->
    artifact_extracted_to_temp_dir a w (dest, err) w2.

(** An artifact that can be fetched, verified and extracted: its object
    is in the bucket, the digest of the object is the declared one, and
    the extractor reads the object as an archive. *)
Definition archive_accepted (w : World) (a : StagedArtifact.t) : Prop :=
  exists data entries,
    objects w !! StagedArtifact.ObjectHandle a = Some data /\
    sha256hex data = ArtifactMetadata.SHA256 (StagedArtifact.Metadata a) /\
    readTarGz data = inr entries.

(** Building the charts, from the paths still to visit and the charts
    built so far. *)
Inductive charts_built (w : World)
  : list string -> list manifests.Chart -> list manifests.Chart * option error -> Prop :=
| charts_done charts :
    charts_built w [] charts (charts, None)
| charts_stop path rest charts c e :
    NewChart path w = Some ((c, Some e), w) ->
    charts_built w (path :: rest) charts ([], Some e)
| charts_next path rest charts c r :
    NewChart path w = Some ((Some c, None), w) ->
    charts_built w rest (charts ++ [c]) r ->
    charts_built w (path :: rest) charts r.

(** Classifying the image archives of one server artifact; the list in
    between holds the descriptors appended, each under its key. *)
Inductive images_classified (a : StagedArtifact.t) (w : World)
  : list string -> Bundles -> list (string * images.Tar) -> Bundles * option error -> Prop :=
| images_done bundles :
    images_classified a w [] bundles [] (bundles, None)
| images_stop archive rest bundles t e :
    NewTar archive (ArtifactMetadata.OS (StagedArtifact.Metadata a))
           (ArtifactMetadata.Architecture (StagedArtifact.Metadata a)) w
    = Some ((t, Some e), w) ->
    images_classified a w (archive :: rest) bundles []
                      (∅, Some (Wrapf failed_to_inspect archive e))
| images_next archive rest bundles imageTar componentName found r :
    NewTar archive (ArtifactMetadata.OS (StagedArtifact.Metadata a))
           (ArtifactMetadata.Architecture (StagedArtifact.Metadata a)) w
    = Some ((Some imageTar, None), w) ->
    componentNameOf archive w = Some (componentName, w) ->
    images_classified a w rest (append_to_bundle componentName imageTar bundles) found r ->
    images_classified a w (archive :: rest) bundles ((componentName, imageTar) :: found) r.

(** Unpacking the server artifacts in their order; the list in between
    holds, for each artifact gone through, the descriptors it gave. *)
Inductive servers_unpacked
  : list StagedArtifact.t -> Bundles -> World ->
    list (list (string * images.Tar)) -> Bundles * option error -> World -> Prop :=
| servers_done bundles w :
    servers_unpacked [] bundles w [] (bundles, None) w
| servers_stop_extract a rest bundles w dir e w1 :
    extractStagedArtifactToTempDir a w = Some ((dir, Some e), w1) ->
    servers_unpacked (a :: rest) bundles w [] (∅, Some e) w1
| servers_stop_scan a rest bundles w dir w1 paths e :
    extractStagedArtifactToTempDir a w = Some ((dir, None), w1) ->
    recursiveFindWithExt dir ".tar" w1 = Some ((paths, Some e), w1) ->
    servers_unpacked (a :: rest) bundles w [] (∅, Some e) w1
| servers_stop_inspect a rest bundles w dir w1 imageArchives found b e :
    extractStagedArtifactToTempDir a w = Some ((dir, None), w1) ->
    recursiveFindWithExt dir ".tar" w1 = Some ((imageArchives, None), w1) ->
    images_classified a w1 imageArchives bundles found (b, Some e) ->
    servers_unpacked (a :: rest) bundles w [found] (∅, Some e) w1
| servers_next a rest bundles w dir w1 imageArchives found bundles' founds r w2 :
    extractStagedArtifactToTempDir a w = Some ((dir, None), w1) ->
    recursiveFindWithExt dir ".tar" w1 = Some ((imageArchives, None), w1) ->
    images_classified a w1 imageArchives bundles found (bundles', None) ->
    servers_unpacked rest bundles' w1 founds r w2 ->
    servers_unpacked (a :: rest) bundles w (found :: founds) r w2.

(** The whole of [Unpack]. *)
Inductive unpack_run (s : Staged.t) (w : World)
  : option Unpacked.t * option error -> World -> Prop :=
| stop_at_selection a e :
    manifestArtifactForStaged s w = Some ((a, Some e), w) ->
    unpack_run s w (None, Some e) w
| stop_at_manifests a dir e w1 :
    manifestArtifactForStaged s w = Some ((Some a, None), w) ->
    extractStagedArtifactToTempDir a w = Some ((dir, Some e), w1) ->
    unpack_run s w (None, Some e) w1
| stop_at_chart_scan a dir w1 paths e :
    manifestArtifactForStaged s w = Some ((Some a, None), w) ->
    extractStagedArtifactToTempDir a w = Some ((dir, None), w1) ->
    recursiveFindWithExt dir ".tgz" w1 = Some ((paths, Some e), w1) ->
    unpack_run s w (None, Some e) w1
| stop_at_chart a dir w1 chartPaths cs e :
    manifestArtifactForStaged s w = Some ((Some a, None), w) ->
    extractStagedArtifactToTempDir a w = Some ((dir, None), w1) ->
    recursiveFindWithExt dir ".tgz" w1 = Some ((chartPaths, None), w1) ->
    charts_built w1 chartPaths [] (cs, Some e) ->
    unpack_run s w (None, Some e) w1
| stop_at_yaml_scan a dir w1 chartPaths charts paths e :
    manifestArtifactForStaged s w = Some ((Some a, None), w) ->
    extractStagedArtifactToTempDir a w = Some ((dir, None), w1) ->
    recursiveFindWithExt dir ".tgz" w1 = Some ((chartPaths, None), w1) ->
    charts_built w1 chartPaths [] (charts, None) ->
    recursiveFindWithExt dir ".yaml" w1 = Some ((paths, Some e), w1) ->
    unpack_run s w (None, Some e) w1
| stop_at_servers a dir w1 chartPaths charts yamlPaths founds b e w2 :
    manifestArtifactForStaged s w = Some ((Some a, None), w) ->
    extractStagedArtifactToTempDir a w = Some ((dir, None), w1) ->
    recursiveFindWithExt dir ".tgz" w1 = Some ((chartPaths, None), w1) ->
    charts_built w1 chartPaths [] (charts, None) ->
    recursiveFindWithExt dir ".yaml" w1 = Some ((yamlPaths, None), w1) ->
    servers_unpacked (ArtifactsOfKind s "server") ∅ w1 founds (b, Some e) w2 ->
    unpack_run s w (None, Some e) w2
| assembled a dir w1 chartPaths charts yamlPaths founds bundles w2 :
    manifestArtifactForStaged s w = Some ((Some a, None), w) ->
    extractStagedArtifactToTempDir a w = Some ((dir, None), w1) ->
    recursiveFindWithExt dir ".tgz" w1 = Some ((chartPaths, None), w1) ->
    charts_built w1 chartPaths [] (charts, None) ->
    recursiveFindWithExt dir ".yaml" w1 = Some ((yamlPaths, None), w1) ->
    servers_unpacked (ArtifactsOfKind s "server") ∅ w1 founds (bundles, None) w2 ->
    unpack_run s w
      (Some (Unpacked.mk (Metadata.ReleaseVersion (Staged.Metadata s))
                         (Metadata.GitCommitRef (Staged.Metadata s))
                         charts (map manifests.mkYAML yamlPaths) bundles),
       None)
      w2.

End Outcomes.

(** *** Listings and their order *)

(** The order [sort_by_name] puts a listing in. *)
Definition name_le {A : Type} (x y : string * A) : Prop :=
  String.leb (fst x) (fst y) = true.

(** A tree with every listing put in the order of the names. *)
Fixpoint canon (n : Node) : Node :=
  match n with
  | Dir entries =>
      Dir (sort_by_name (map (fun entry => (fst entry, canon (snd entry))) entries))
  | File _ | Unlistable _ | Unstattable _ => n
  end.

(** [relisted n n']: the same tree, its directories listed in another
    order; the names in a directory that is listed anew are pairwise
    different, as they are on a disk. *)
Inductive relisted : Node -> Node -> Prop :=
| relisted_same n :
    relisted n n
| relisted_order entries entries' :
    entries ≡ₚ entries' ->
    NoDup (map fst entries) ->
    relisted (Dir entries) (Dir entries')
| relisted_below before name child child' after :
    relisted child child' ->
    relisted (Dir (before ++ (name, child) :: after))
             (Dir (before ++ (name, child') :: after))
| relisted_then n1 n2 n3 :
    relisted n1 n2 -> relisted n2 n3 -> relisted n1 n3.

(** A lowercase hexadecimal digit, as a proposition and as a test. *)
Definition lower_hex (c : ascii) : Prop := In c (GoString.chars "0123456789abcdef").

Definition is_lower_hex (c : ascii) : bool :=
  existsb (Ascii.eqb c) (GoString.chars "0123456789abcdef").

(** The shape of a digest as [sha256SumFile] writes it: 64 lowercase
    hexadecimal digits. *)
Definition digest_shaped (s : string) : bool :=
  (String.length s =? 64) && forallb is_lower_hex (GoString.chars s).

(** A path element that names an entry: not empty, free of separators,
    and neither [.] nor [..]. *)
Definition names_entry (name : string) : Prop :=
  name <> "" /\ name <> "." /\ name <> ".." /\
  Forall (fun c => filepath.IsPathSeparator c = false) (GoString.chars name).

(** The same as a test. *)
Definition is_entry_name (name : string) : bool :=
  negb (String.eqb name "") && negb (String.eqb name ".") && negb (String.eqb name "..")
  && forallb (fun c => negb (filepath.IsPathSeparator c)) (GoString.chars name).

(** A tree whose listings hold names of entries, as the listings of a
    disk do, in every directory below. *)
Fixpoint entries_named (n : Node) : bool :=
  match n with
  | Dir entries =>
      forallb (fun entry => is_entry_name (fst entry) && entries_named (snd entry)) entries
  | File _ | Unlistable _ | Unstattable _ => true
  end.

(** ** A small release to run the code on *)

Module Sample.

Definition starts_with (prefix s : string) : bool := String.prefix prefix s.

(** Records are told apart by their names, as the staging command names
    them. *)
Definition kind_of_name (m : ArtifactMetadata.t) : string :=
  if starts_with "cert-manager-manifests" (ArtifactMetadata.Name m) then "manifests"
  else if starts_with "cert-manager-server-" (ArtifactMetadata.Name m) then "server"
  else "client".

Definition manifests_bytes : Bytes := bytes_of "manifests archive".
Definition amd64_bytes : Bytes := bytes_of "server archive, amd64".
Definition arm64_bytes : Bytes := bytes_of "server archive, arm64".
Definition broken_chart_bytes : Bytes := bytes_of "manifests archive, chart damaged".

Definition eqb_bytes (x y : Bytes) : bool :=
  String.eqb (String.string_of_list_byte x) (String.string_of_list_byte y).

(** An archive reader that knows the archives above. *)
Definition read_archive (data : Bytes) : error + list (string * Node) :=
  if eqb_bytes data manifests_bytes then
    inr [("install.yaml", File (bytes_of "kind: Namespace"));
         ("chart.tgz", File (bytes_of "chart: cert-manager"))]
  else if eqb_bytes data broken_chart_bytes then
    inr [("chart.tgz", File (bytes_of "damaged"))]
  else if eqb_bytes data amd64_bytes then
    inr [("images", Dir [("cainjector.tar", File (bytes_of "image: cainjector-amd64"))])]
  else if eqb_bytes data arm64_bytes then
    inr [("images", Dir [("cainjector.tar", File (bytes_of "image: cainjector-arm64"))])]
  else inl (External "gzip: invalid header").

Definition inspect (data : Bytes) : error + string :=
  let s := String.string_of_list_byte data in
  if starts_with "image: " s then inr (String.substring 7 (String.length s - 7) s)
  else inl (External "not an image archive").

Definition load (data : Bytes) : option error :=
  if starts_with "chart: " (String.string_of_list_byte data) then None
  else Some (External "chart metadata missing").

Definition collaborators : Collaborators :=
  {| kindOf := kind_of_name;
     readTarGz := read_archive;
     inspectImage := inspect;
     loadChart := load |}.

Definition artifact (name os arch : string) (content : Bytes) : StagedArtifact.t :=
  StagedArtifact.mk (ArtifactMetadata.mk name (sha256hex content) os arch) name.

Definition manifestsA : StagedArtifact.t :=
  artifact "cert-manager-manifests.tar.gz" "" "" manifests_bytes.
Definition amd64A : StagedArtifact.t :=
  artifact "cert-manager-server-linux-amd64.tar.gz" "linux" "amd64" amd64_bytes.
Definition arm64A : StagedArtifact.t :=
  artifact "cert-manager-server-linux-arm64.tar.gz" "linux" "arm64" arm64_bytes.

Definition staged (arts : list StagedArtifact.t) : Staged.t :=
  Staged.mk "v1.2.3"
    (Metadata.mk "v1.2.3" "0a1b2c3d" (map StagedArtifact.Metadata arts)) arts.

Definition bucket : gmap string Bytes :=
  <["cert-manager-manifests.tar.gz" := manifests_bytes]>
  (<["cert-manager-server-linux-amd64.tar.gz" := amd64_bytes]>
  (<["cert-manager-server-linux-arm64.tar.gz" := arm64_bytes]> ∅)).

Definition world : World := mkWorld bucket [] 0 [] [].

(** A record whose declared digest is not the digest of the object. *)
Definition tamperedA : StagedArtifact.t :=
  StagedArtifact.mk
    (ArtifactMetadata.mk "cert-manager-manifests.tar.gz"
       "deadbeefdeadbeefdeadbeefdeadbeefdeadbeefdeadbeefdeadbeefdeadbeef" "" "")
    "cert-manager-manifests.tar.gz".

(** A second manifests record, and a manifests archive whose chart does
    not load. *)
Definition manifestsB : StagedArtifact.t :=
  artifact "cert-manager-manifests-extra.tar.gz" "" "" manifests_bytes.
Definition damagedA : StagedArtifact.t :=
  StagedArtifact.mk
    (ArtifactMetadata.mk "cert-manager-manifests.tar.gz" (sha256hex broken_chart_bytes) "" "")
    "damaged.tar.gz".
Definition damaged_world : World :=
  mkWorld (<["damaged.tar.gz" := broken_chart_bytes]> bucket) [] 0 [] [].

(** A manifests record whose object, of the declared digest, is not an
    archive. *)
Definition garbled_bytes : Bytes := bytes_of "not an archive".
Definition garbledA : StagedArtifact.t :=
  StagedArtifact.mk
    (ArtifactMetadata.mk "cert-manager-manifests.tar.gz" (sha256hex garbled_bytes) "" "")
    "garbled.tar.gz".
Definition garbled_world : World :=
  mkWorld (<["garbled.tar.gz" := garbled_bytes]> bucket) [] 0 [] [].

(** A tree to scan: two manifests, one of them in a directory, a file
    whose extension is in capitals, and the names out of order. *)
Definition tree : Node :=
  Dir [("c", Dir [("d.yaml", File [])]); ("b.YAML", File []); ("a.yaml", File [])].
Definition scan_world : World := mkWorld ∅ [("/tmp/extracted-artifact-0", tree)] 1 [] [].

(** A directory holding one image archive. *)
Definition image_world : World :=
  mkWorld ∅
    [("/tmp/extracted-artifact-0",
      Dir [("cainjector-amd64.tar", File (bytes_of "image: cainjector"))])]
    1 [] [].

End Sample.

(** ** More to run the code on *)

Module Cases.

(** The tree of [Sample.tree] with its listings in another order. *)
Definition relisted_tree : Node :=
  Dir [("a.yaml", File []); ("c", Dir [("d.yaml", File [])]); ("b.YAML", File [])].
Definition relisted_world : World :=
  mkWorld ∅ [("/tmp/extracted-artifact-0", relisted_tree)] 1 [] [].

(** A record whose declared digest is the digest of the object, written
    in capitals. *)
Definition capitalsA : StagedArtifact.t :=
  StagedArtifact.mk
    (ArtifactMetadata.mk "cert-manager-manifests.tar.gz"
       "0F1E2D3C4B5A69780F1E2D3C4B5A69780F1E2D3C4B5A69780F1E2D3C4B5A6978" "" "")
    "cert-manager-manifests.tar.gz".

(** A machine that has been used before: a tree and a file of earlier
    runs are on the disk, under names the next run tries first, and of
    the release only the manifests are in the bucket. *)
Definition used_world : World :=
  mkWorld (<["cert-manager-manifests.tar.gz" := Sample.manifests_bytes]> ∅)
    [("/tmp/extracted-artifact-0", Sample.tree);
     ("/tmp/temp-artifact-1", File (bytes_of "left by an earlier run"))]
    0 [] [].

(** A repository after the build: the archive of the manifests and one
    server archive are where Bazel leaves them. *)
Definition repo : string := "/workspace/cert-manager".

Definition built (name : string) : string :=
  "/workspace/cert-manager/bazel-bin/build/release-tars/" +:+ name.

Definition build_world : World :=
  mkWorld ∅
    [(built "cert-manager-manifests.tar.gz", File Sample.manifests_bytes);
     (built "cert-manager-server-linux-amd64.tar.gz", File Sample.amd64_bytes)]
    0 [] [].

(** A signing step: the signature goes on the end of the file. *)
Definition signature : Bytes := bytes_of "signed".

Definition sign : cmd.postprocessFunc :=
  fun path =>
    w <- get ;;
    match lookup_root path (disk w) with
    | Some (File data) =>
        _ <- modify (set_disk (write_root path (File (data ++ signature)) (disk w))) ;;
        ret None
    | _ => ret (Some no_such_file)
    end.

Definition environ : list string :=
  ["PATH=/usr/bin"; "DOCKER_REGISTRY=registry.example/old"; "HOME=/root"].

Definition options : gcbStageOptions.t :=
  gcbStageOptions.mk "cert-manager-release" repo "v1.2.3" "quay.io/jetstack"
                     false false "" "*" "*".

(** Collaborators for the staging command.  Git and Bazel answer at once
    and change nothing; the signing is [sign]; the targets are linux on
    amd64 and arm64, of which amd64 is asked for. *)
Definition newline : string := String "010"%char "".

Definition without_newlines (s : string) : string :=
  GoString.of_chars (List.filter (fun c => negb (Ascii.eqb c "010"%char)) (GoString.chars s)).

Definition run_command (wd : string) (env : option (list string)) (name : string)
    (args : list string) : M (string * option error) :=
  if String.eqb name "git" then ret ("0a1b2c3d" +:+ newline, None) else ret ("", None).

Definition render (m : Metadata.t) : Bytes :=
  bytes_of (Metadata.ReleaseVersion m +:+ " " +:+ Metadata.GitCommitRef m +:+ " "
            +:+ filepath.strings_Join
                  (map (fun a => ArtifactMetadata.Name a +:+ "=" +:+ ArtifactMetadata.SHA256 a)
                       (Metadata.Artifacts m)) " ").

Definition stager : cmd.Stager :=
  {| cmd.Environ := environ;
     cmd.Run := run_command;
     cmd.TrimSpace := without_newlines;
     cmd.GCPKMSKey := string;
     cmd.NewGCPKMSKey := fun name => if String.eqb name "" then inl (External "no key") else inr name;
     cmd.CertManagerManifests := fun key path version => sign path;
     cmd.DefaultBucketPathPrefix := "stage/gcb";
     cmd.BuildTypeDevel := "devel";
     cmd.BuildTypeRelease := "release";
     cmd.BucketPathForRelease :=
       fun prefix buildType version gitRef =>
         prefix +:+ "/" +:+ buildType +:+ "/" +:+ version +:+ "-" +:+ gitRef;
     cmd.OSList := list string;
     cmd.ArchList := list string;
     cmd.OSListFromString :=
       fun s => if String.eqb s "*" then inr ["linux"] else inl (External "unknown OS");
     cmd.ArchListFromString := fun s oses => inr ["amd64"];
     cmd.OSList_List := fun l => l;
     cmd.ArchList_Has := fun l arch => existsb (String.eqb arch) l;
     cmd.ArchitecturesPerOS := {["linux" := ["amd64"; "arm64"]]};
     cmd.IsServerOS := String.eqb "linux";
     cmd.IsClientOS := fun _ => false;
     cmd.CmctlIsShipped := fun _ => true;
     cmd.TarsBazelTarget := "//build/release-tars";
     cmd.MetadataFileName := "metadata.json";
     cmd.MarshalIndent := fun m => inr (render m) |}.

(** The repository after the build, with the version file. *)
Definition stage_world : World :=
  mkWorld ∅
    [("/workspace/cert-manager/bazel-bin/version", File (bytes_of ("v1.2.3" +:+ newline)));
     (built "cert-manager-manifests.tar.gz", File Sample.manifests_bytes);
     (built "cert-manager-server-linux-amd64.tar.gz", File Sample.amd64_bytes)]
    0 [] [].

Definition signing_options : gcbStageOptions.t :=
  gcbStageOptions.mk "cert-manager-release" repo "v1.2.3" "quay.io/jetstack"
                     false false "projects/p/locations/l/keyRings/r/cryptoKeys/k" "*" "*".

Definition dry_options : gcbStageOptions.t :=
  gcbStageOptions.mk "cert-manager-release" repo "" "quay.io/jetstack"
                     true true "" "*" "*".

End Cases.

(** * Properties *)

(** ** The code on small inputs *)

Example Ext_tar : filepath.Ext "/tmp/x/cainjector.tar" = ".tar".
Proof. reflexivity. Qed.
Example Ext_none : filepath.Ext "/tmp/x.d/cainjector" = "".
Proof. reflexivity. Qed.
Example Ext_dotfile : filepath.Ext ".tar" = ".tar".
Proof. reflexivity. Qed.
Example Base_file : filepath.Base "/tmp/x/cainjector-amd64.tar" = "cainjector-amd64.tar".
Proof. reflexivity. Qed.
Example Base_slashes : filepath.Base "///" = "/".
Proof. reflexivity. Qed.
Example Base_trailing : filepath.Base "a/b//" = "b".
Proof. reflexivity. Qed.

Example sha256_empty :
  sha256hex [] = "e3b0c44298fc1c149afbf4c8996fb92427ae41e4649b934ca495991b7852b855".
Proof. vm_compute. reflexivity. Qed.
Example sha256_abc :
  sha256hex (bytes_of "abc") = "ba7816bf8f01cfea414140de5dae2223b00361a396177a9cb410ff61f20015ad".
Proof. vm_compute. reflexivity. Qed.
Example sha256_two_blocks :
  sha256hex (bytes_of "abcdbcdecdefdefgefghfghighijhijkijkljklmklmnlmnomnopnopq")
  = "248d6a61d20638b8e5c026930c3e6039a33ce45964ff2167f6ecedd419db06c1".
Proof. vm_compute. reflexivity. Qed.

(** ** Strings and paths *)

Section Paths.

Import filepath GoString.

Lemma of_chars_app (l1 l2 : list ascii) :
  of_chars (l1 ++ l2) = of_chars l1 +:+ of_chars l2.
Proof.
  unfold of_chars. induction l1 as [|c l1 IH]; simpl; [reflexivity | now rewrite IH].
Qed.

Lemma chars_app (s1 s2 : string) : chars (s1 +:+ s2) = chars s1 ++ chars s2.
Proof.
  unfold chars. induction s1 as [|c s1 IH]; simpl; [reflexivity | now rewrite IH].
Qed.

Lemma of_chars_chars (s : string) : of_chars (chars s) = s.
Proof. apply String.string_of_list_ascii_of_string. Qed.

Lemma chars_of_chars (l : list ascii) : chars (of_chars l) = l.
Proof. apply String.list_ascii_of_string_of_list_ascii. Qed.

Lemma len_app (s1 s2 : string) : len (s1 +:+ s2) = len s1 + len s2.
Proof. unfold len. induction s1 as [|c s1 IH]; simpl; [reflexivity | now rewrite IH]. Qed.

Lemma substring_all (s : string) : String.substring 0 (String.length s) s = s.
Proof. induction s as [|c s IH]; simpl; [reflexivity | now rewrite IH]. Qed.

Lemma slice_prefix (s1 s2 : string) : slice (s1 +:+ s2) 0 (len s1) = s1.
Proof.
  unfold slice, len. rewrite Nat.sub_0_r.
  induction s1 as [|c s1 IH]; simpl.
  - now destruct s2.
  - now rewrite IH.
Qed.

(** The loop of [Ext] returns a suffix of what it has seen and visited. *)
Lemma ext_loop_suffix (back seen : list ascii) :
  exists pre, rev back ++ seen = pre ++ ext_loop back seen.
Proof.
  revert seen. induction back as [|c back IH]; intros seen; simpl.
  - exists seen. now rewrite app_nil_r.
  - destruct (IsPathSeparator c).
    + exists (rev back ++ c :: seen). now rewrite app_nil_r, <- app_assoc.
    + destruct (Ascii.eqb c ".").
      * exists (rev back). now rewrite <- app_assoc.
      * destruct (IH (c :: seen)) as [pre Hpre]. exists pre.
        now rewrite <- app_assoc.
Qed.

Lemma Ext_suffix (path : string) : exists pre, path = pre +:+ Ext path.
Proof.
  unfold Ext. destruct (ext_loop_suffix (rev (chars path)) []) as [pre Hpre].
  rewrite rev_involutive, app_nil_r in Hpre.
  exists (of_chars pre). rewrite <- of_chars_app, <- Hpre. symmetry. apply of_chars_chars.
Qed.


Lemma ext_loop_last_dot (l rest seen : list ascii) :
  Forall plain l ->
  ext_loop (l ++ "."%char :: rest) seen = "."%char :: rev l ++ seen.
Proof.
  intros Hl. revert seen. induction Hl as [|c l [Hsep Hdot] _ IH]; intros seen; simpl.
  - reflexivity.
  - rewrite Hsep, Hdot, IH. now rewrite <- app_assoc.
Qed.

(** The extension starts at the last dot. *)
Lemma Ext_last_dot (stem suffix : string) :
  Forall plain (chars suffix) ->
  Ext (stem +:+ "." +:+ suffix) = "." +:+ suffix.
Proof.
  intros Hs. unfold Ext. rewrite !chars_app, !rev_app_distr. simpl.
  rewrite <- app_assoc. simpl.
  rewrite ext_loop_last_dot by now apply Forall_rev.
  rewrite rev_involutive, app_nil_r. simpl. now rewrite of_chars_chars.
Qed.

Lemma last_element_after_separator (l rest seen : list ascii) :
  Forall (fun c => IsPathSeparator c = false) l ->
  last_element (l ++ Separator :: rest) seen = rev l ++ seen.
Proof.
  intros Hl. revert seen. induction Hl as [|c l Hc _ IH]; intros seen; simpl.
  - reflexivity.
  - rewrite Hc, IH. now rewrite <- app_assoc.
Qed.

(** The slice that gives the component name is always in range. *)
Lemma componentNameOf_strips {St : Type} (archive : string) (s : St) :
  exists name,
    componentNameOf archive s = Some (name, s) /\
    Base archive = name +:+ Ext (Base archive).
Proof.
  destruct (Ext_suffix (Base archive)) as [pre Hpre].
  exists pre. split; [|exact Hpre].
  unfold componentNameOf, slice_to.
  set (b := Base archive) in *.
  assert (Hlen : len b = len pre + len (Ext b)) by (rewrite Hpre at 1; apply len_app).
  replace (Z.of_nat (len b) - Z.of_nat (len (Ext b)))%Z with (Z.of_nat (len pre)) by lia.
  destruct (0 <=? Z.of_nat (len pre))%Z eqn:H0; [|lia].
  destruct (Z.of_nat (len pre) <=? Z.of_nat (len b))%Z eqn:H1; [|lia].
  simpl. unfold ret. rewrite Nat2Z.id.
  rewrite Hpre at 1. now rewrite slice_prefix.
Qed.

Lemma append_cancel_r (s1 s2 t : string) : s1 +:+ t = s2 +:+ t -> s1 = s2.
Proof.
  intros Heq. apply (f_equal chars) in Heq. rewrite !chars_app in Heq.
  apply app_inv_tail in Heq. apply (f_equal of_chars) in Heq.
  now rewrite !of_chars_chars in Heq.
Qed.

Lemma componentNameOf_last_dot {St : Type} (archive stem suffix : string) (s : St) :
  Base archive = stem +:+ "." +:+ suffix ->
  Forall plain (chars suffix) ->
  componentNameOf archive s = Some (stem, s).
Proof.
  intros Hbase Hplain.
  destruct (componentNameOf_strips archive s) as (name & Hrun & Hname).
  rewrite Hrun. repeat f_equal.
  rewrite Hbase in Hname. rewrite Ext_last_dot in Hname by assumption.
  symmetry. now apply (append_cancel_r _ _ ("." +:+ suffix)).
Qed.

End Paths.

(** ** Reasoning about computations *)


Section Post.

Context {St : Type}.

Lemma post_ret {A : Type} (a : A) (s : St) (Q : A -> St -> Prop) :
  Q a s -> post (ret a) s Q.
Proof. intros HQ. exists a, s. now split. Qed.

Lemma post_bind {A B : Type} (c : Go St A) (k : A -> Go St B) (s : St)
    (Q : B -> St -> Prop) :
  post c s (fun a s' => post (k a) s' Q) -> post (bind c k) s Q.
Proof.
  intros (a & s' & Hc & b & s'' & Hk & HQ).
  exists b, s''. unfold bind. rewrite Hc. now split.
Qed.

Lemma post_mono {A : Type} (c : Go St A) (s : St) (Q Q' : A -> St -> Prop) :
  post c s Q -> (forall a s', c s = Some (a, s') -> Q a s' -> Q' a s') -> post c s Q'.
Proof. intros (a & s' & Hc & HQ) Himp. exists a, s'. split; [exact Hc | now apply Himp]. Qed.

Lemma post_elim {A : Type} (c : Go St A) (s s' : St) (a : A) (Q : A -> St -> Prop) :
  post c s Q -> c s = Some (a, s') -> Q a s'.
Proof. intros (a0 & s0 & Hc & HQ) Hrun. rewrite Hc in Hrun. now inversion Hrun; subst. Qed.

Lemma post_and {A : Type} (c : Go St A) (s : St) (Q Q' : A -> St -> Prop) :
  post c s Q -> post c s Q' -> post c s (fun a s' => Q a s' /\ Q' a s').
Proof.
  intros (a & s' & Hc & HQ) (a' & s'' & Hc' & HQ'). rewrite Hc in Hc'.
  injection Hc' as <- <-. exists a, s'. now repeat split.
Qed.

Lemma post_get (s : St) (Q : St -> St -> Prop) : Q s s -> post get s Q.
Proof. intros HQ. exists s, s. now split. Qed.

Lemma post_modify (f : St -> St) (s : St) (Q : unit -> St -> Prop) :
  Q tt (f s) -> post (modify f) s Q.
Proof. intros HQ. exists tt, (f s). now split. Qed.

Lemma bind_eq {A B : Type} (c : Go St A) (k : A -> Go St B) (s s' : St) (a : A) :
  c s = Some (a, s') -> bind c k s = k a s'.
Proof. intros Hc. unfold bind. now rewrite Hc. Qed.

End Post.

(** A nested induction principle for trees. *)
Lemma Node_ind (P : Node -> Prop) :
  (forall data, P (File data)) ->
  (forall entries, Forall (fun entry => P (snd entry)) entries -> P (Dir entries)) ->
  (forall e, P (Unlistable e)) ->
  (forall e, P (Unstattable e)) ->
  forall n, P n.
Proof.
  intros HF HD HL HS. fix IH 1. intros [data|entries|e|e].
  - apply HF.
  - apply HD. induction entries as [|entry entries IHes]; constructor.
    + apply IH.
    + exact IHes.
  - apply HL.
  - apply HS.
Qed.

(** ** Walking a tree *)

(** The paths of the entries are left as [Join] of the directory and the
    name while a walk is unfolded. *)
Arguments filepath.Join : simpl never.

Section Walking.

Lemma insert_by_name_map {A B : Type} (g : string * A -> B) (x : string * A)
    (l : list (string * A)) :
  insert_by_name (fst x, g x) (map (fun e => (fst e, g e)) l)
  = map (fun e => (fst e, g e)) (insert_by_name x l).
Proof.
  induction l as [|y l IH]; simpl; [reflexivity|].
  destruct (String.leb (fst x) (fst y)); simpl; [reflexivity | now rewrite IH].
Qed.

(** Sorting by name does not look at what comes with the names. *)
Lemma sort_by_name_map {A B : Type} (g : string * A -> B) (l : list (string * A)) :
  sort_by_name (map (fun e => (fst e, g e)) l)
  = map (fun e => (fst e, g e)) (sort_by_name l).
Proof.
  induction l as [|x l IH]; simpl; [reflexivity|].
  rewrite IH. apply insert_by_name_map.
Qed.

Lemma insert_by_name_perm {A : Type} (x : string * A) (l : list (string * A)) :
  insert_by_name x l ≡ₚ x :: l.
Proof.
  induction l as [|y l IH]; simpl; [reflexivity|].
  destruct (String.leb (fst x) (fst y)); [reflexivity|].
  rewrite IH. apply Permutation_swap.
Qed.

Lemma sort_by_name_perm {A : Type} (l : list (string * A)) : sort_by_name l ≡ₚ l.
Proof.
  induction l as [|x l IH]; simpl; [reflexivity|].
  rewrite insert_by_name_perm. now rewrite IH.
Qed.

(** [walk] on a directory, as the Go code reads: the callback, then the
    sorted entries one after the other. *)
Lemma walk_Dir {St : Type} (walkFn : WalkFunc St) (path : string)
    (entries : list (string * Node)) :
  walk walkFn path (Dir entries)
  = (err1 <- walkFn path (Some (mkFileInfo true)) None ;;
     match err1 with
     | Some e => ret (Some e)
     | None =>
         visit_each
           (map (fun entry => (fst entry,
                               walk walkFn (filepath.Join [path; fst entry]) (snd entry)))
                (sort_by_name entries))
     end).
Proof.
  simpl.
  now rewrite (sort_by_name_map
                 (fun entry => walk walkFn (filepath.Join [path; fst entry]) (snd entry))).
Qed.

Lemma visited_Dir (path : string) (entries : list (string * Node)) :
  visited path (Dir entries)
  = (path, true) ::
    concat (map (fun entry => visited (filepath.Join [path; fst entry]) (snd entry))
                (sort_by_name entries)).
Proof.
  simpl.
  rewrite (sort_by_name_map
             (fun entry => visited (filepath.Join [path; fst entry]) (snd entry))).
  now rewrite map_map.
Qed.

Lemma files_with_ext_app (ext : string) (l1 l2 : list (string * bool)) :
  files_with_ext ext (l1 ++ l2) = files_with_ext ext l1 ++ files_with_ext ext l2.
Proof. unfold files_with_ext. now rewrite List.filter_app, map_app. Qed.

Lemma find_walkFn_file (ext path : string) (paths : list string) :
  find_walkFn ext path (Some (mkFileInfo false)) None paths
  = Some (None, paths ++ files_with_ext ext [(path, false)]).
Proof.
  unfold find_walkFn, files_with_ext. simpl.
  destruct (String.eqb (filepath.Ext path) ext); simpl.
  - reflexivity.
  - now rewrite app_nil_r.
Qed.

Lemma find_walkFn_dir (ext path : string) (paths : list string) :
  find_walkFn ext path (Some (mkFileInfo true)) None paths = Some (None, paths).
Proof. reflexivity. Qed.

Lemma find_walkFn_err (ext path : string) (info : option FileInfo) (e : error)
    (paths : list string) :
  find_walkFn ext path info (Some e) paths = Some (Some e, paths).
Proof. reflexivity. Qed.

(** The callback never panics on what [walk] hands it, so the walk ends. *)
Lemma walk_find_total (ext : string) (n : Node) :
  forall path paths, exists err paths',
    walk (find_walkFn ext) path n paths = Some (err, paths').
Proof.
  induction n as [data|entries IH|e|e] using Node_ind; intros path paths.
  - cbn [walk]. rewrite find_walkFn_file. eauto.
  - rewrite walk_Dir. unfold bind at 1. rewrite find_walkFn_dir.
    assert (IHs : Forall (fun entry => forall path paths, exists err paths',
                     walk (find_walkFn ext) path (snd entry) paths = Some (err, paths'))
                   (sort_by_name entries)).
    { rewrite sort_by_name_perm. exact IH. }
    clear IH. revert paths.
    induction IHs as [|entry rest Hentry _ IHrest]; intros paths; simpl.
    + eauto.
    + unfold bind. destruct (Hentry (filepath.Join [path; fst entry]) paths)
        as (err & paths' & Hrun). rewrite Hrun.
      destruct err as [e|]; [eauto | apply IHrest].
  - cbn [walk]. rewrite find_walkFn_err. eauto.
  - cbn [walk]. rewrite find_walkFn_err. eauto.
Qed.

(** On a readable tree the walk collects the matching files, in the order
    of the visits, and reports no error. *)
Lemma walk_find_readable (ext : string) (n : Node) :
  forall path paths,
    readable n = true ->
    walk (find_walkFn ext) path n paths
    = Some (None, paths ++ files_with_ext ext (visited path n)).
Proof.
  induction n as [data|entries IH|e|e] using Node_ind; intros path paths Hread.
  - cbn [walk]. apply find_walkFn_file.
  - rewrite walk_Dir, visited_Dir. unfold bind at 1. rewrite find_walkFn_dir.
    simpl in Hread. rewrite forallb_forall in Hread.
    assert (IHs : Forall (fun entry => forall path paths,
                     walk (find_walkFn ext) path (snd entry) paths
                     = Some (None, paths ++ files_with_ext ext (visited path (snd entry))))
                   (sort_by_name entries)).
    { rewrite sort_by_name_perm. rewrite Forall_forall in IH |- *.
      intros entry Hin path' paths'. apply IH; [exact Hin|].
      apply Hread. now apply list_elem_of_In. }
    clear IH Hread.
    change ((path, true) :: ?l) with ([(path, true)] ++ l).
    rewrite files_with_ext_app.
    change (files_with_ext ext [(path, true)]) with (@nil string). simpl.
    revert paths.
    induction IHs as [|entry rest Hentry _ IHrest]; intros paths; simpl.
    + unfold ret. now rewrite app_nil_r.
    + unfold bind. rewrite Hentry. rewrite IHrest.
      rewrite files_with_ext_app. now rewrite app_assoc.
  - discriminate.
  - discriminate.
Qed.

(** The files the walk visits are the files of the tree. *)
Lemma visited_file_at (n : Node) :
  forall path p, In (p, false) (visited path n) <-> file_at path n p.
Proof.
  induction n as [data|entries IH|e|e] using Node_ind; intros path p.
  - simpl. split.
    + intros [[= <-]|[]]. constructor.
    + intros Hfile. inversion Hfile; subst. now left.
  - rewrite visited_Dir. simpl. rewrite in_concat. split.
    + intros [[=]|(l & Hl & Hp)].
      apply in_map_iff in Hl. destruct Hl as ([name child] & <- & Hin).
      apply list_elem_of_In in Hin. rewrite sort_by_name_perm in Hin.
      rewrite Forall_forall in IH. pose proof (IH _ Hin) as IHchild.
      apply list_elem_of_In in Hin.
      eapply file_below; [exact Hin|]. now apply IHchild.
    + intros Hfile. inversion Hfile as [|? ? name child ? Hin Hchild]; subst.
      right. exists (visited (filepath.Join [path; name]) child). split.
      * apply in_map_iff. exists (name, child). split; [reflexivity|].
        apply list_elem_of_In. rewrite sort_by_name_perm. now apply list_elem_of_In.
      * rewrite Forall_forall in IH. apply list_elem_of_In in Hin.
        now apply (IH _ Hin).
  - simpl. split; [intros [[=]|[]] | intros Hfile; inversion Hfile].
  - simpl. split; [intros [] | intros Hfile; inversion Hfile].
Qed.

End Walking.

Section Scanning.

Lemma recursiveFindWithExt_total (path ext : string) (w : World) :
  exists paths err,
    recursiveFindWithExt path ext w = Some ((paths, err), w) /\
    (err = None \/ paths = []).
Proof.
  unfold recursiveFindWithExt, bind, get, Walk.
  destruct (lookup_disk (disk w) path) as [n|].
  - destruct (walk_find_total ext n path []) as (err & paths & Hrun). rewrite Hrun.
    destruct err as [e|]; unfold ret; eauto.
  - rewrite find_walkFn_err. unfold ret. eauto.
Qed.

Lemma recursiveFindWithExt_readable (root ext : string) (t : Node) (w : World) :
  lookup_disk (disk w) root = Some t ->
  readable t = true ->
  recursiveFindWithExt root ext w = Some ((files_with_ext ext (visited root t), None), w).
Proof.
  intros Hroot Hread. unfold recursiveFindWithExt, bind, get, Walk.
  rewrite Hroot. now rewrite walk_find_readable.
Qed.

Lemma in_files_with_ext (ext p : string) (seen : list (string * bool)) :
  In p (files_with_ext ext seen) <-> In (p, false) seen /\ filepath.Ext p = ext.
Proof.
  unfold files_with_ext. rewrite in_map_iff. split.
  - intros ([q isdir] & Hq & Hin). simpl in Hq. subst q.
    apply List.filter_In in Hin. destruct Hin as [Hin Hmatch]. simpl in Hmatch.
    apply andb_true_iff in Hmatch. destruct Hmatch as [Hfile Hext].
    destruct isdir; [discriminate|]. split; [exact Hin|].
    now apply String.eqb_eq.
  - intros [Hin Hext]. exists (p, false). split; [reflexivity|].
    apply List.filter_In. split; [exact Hin|]. simpl. now apply String.eqb_eq.
Qed.

End Scanning.

(** ** The calls to the system, one by one *)


Section System.

Lemma quiet_refl (w : World) : quiet w w.
Proof. now repeat split. Qed.

Lemma quiet_trans (w1 w2 w3 : World) : quiet w1 w2 -> quiet w2 w3 -> quiet w1 w3.
Proof. unfold quiet. intros (-> & -> & -> & ->) (-> & -> & -> & ->). now repeat split. Qed.

Lemma fault_eq (w : World) :
  fault w = Some (scheduled w, set_faults (tail (faults w)) w).
Proof. unfold fault, scheduled. destruct w as [o d s [|f fs] t]; reflexivity. Qed.

Lemma quiet_set_faults (fs : list (option error)) (w : World) : quiet w (set_faults fs w).
Proof. now repeat split. Qed.

Lemma fault_post (w : World) (Q : option error -> World -> Prop) :
  (forall w', quiet w w' -> faults w' = tail (faults w) -> Q (scheduled w) w') ->
  post fault w Q.
Proof.
  intros HQ. eexists _, _. split; [apply fault_eq|].
  apply HQ; [apply quiet_set_faults | reflexivity].
Qed.

Lemma pick_fresh_free (taken : string -> bool) (name : nat -> string) (tries n k : nat) :
  pick_fresh taken name tries n = Some k -> taken (name k) = false.
Proof.
  revert n. induction tries as [|tries IH]; intros n; simpl; [discriminate|].
  destruct (taken (name n)) eqn:Htaken.
  - apply IH.
  - intros [= <-]. exact Htaken.
Qed.

(** A temporary entry is made under a name that nothing on the disk has;
    the call fails when a fault is scheduled or every name tried is taken. *)
Lemma create_temp_post (prefix : string) (n : Node) (ev : string -> list Event)
    (w : World) (Q : string * option error -> World -> Prop) :
  (forall e w',
      quiet w w' -> faults w' = tail (faults w) ->
      scheduled w = Some e \/
      pick_fresh (on_disk w) (temp_name prefix) max_tries (serial w) = None ->
      Q ("", Some e) w') ->
  (forall name w',
      on_disk w name = false ->
      objects w' = objects w ->
      disk w' = disk w ++ [(name, n)] ->
      trace w' = trace w ++ ev name ->
      faults w' = tail (faults w) ->
      Q (name, None) w') ->
  post (create_temp prefix n ev) w Q.
Proof.
  intros Hfail Hok. unfold create_temp.
  apply post_bind, fault_post. intros w1 Hq Hfs.
  destruct (scheduled w) as [e|] eqn:Hsched.
  { apply post_ret. apply Hfail; auto. }
  apply post_bind, post_get.
  destruct Hq as (Ho & Hd & Hs & Ht).
  assert (Hdisk : on_disk w1 = on_disk w) by (unfold on_disk; now rewrite Hd).
  rewrite Hdisk, Hs.
  destruct (pick_fresh (on_disk w) (temp_name prefix) max_tries (serial w)) as [k|] eqn:Hpick.
  - apply post_bind, post_modify, post_ret.
    apply pick_fresh_free in Hpick.
    apply Hok; simpl; congruence.
  - apply post_ret. apply Hfail; auto. now repeat split.
Qed.

Lemma NewReader_post (h : string) (w : World) (Q : Bytes * option error -> World -> Prop) :
  (forall e w',
      quiet w w' -> faults w' = tail (faults w) ->
      scheduled w = Some e \/ objects w !! h = None ->
      Q ([], Some e) w') ->
  (forall data w',
      quiet w w' -> faults w' = tail (faults w) ->
      objects w !! h = Some data ->
      Q (data, None) w') ->
  post (NewReader h) w Q.
Proof.
  intros Hfail Hok. unfold NewReader.
  apply post_bind, fault_post. intros w1 Hq Hfs.
  destruct (scheduled w) as [e|] eqn:Hsched.
  { apply post_ret. apply Hfail; auto. }
  apply post_bind, post_get.
  assert (Ho : objects w1 = objects w) by apply Hq. rewrite Ho.
  destruct (objects w !! h) as [data|] eqn:Hobj; apply post_ret.
  - now apply Hok.
  - apply Hfail; auto.
Qed.

Lemma CopyToFile_post (f : string) (r : Bytes) (w : World)
    (Q : option error -> World -> Prop) :
  (forall e w',
      quiet w w' -> faults w' = tail (faults w) -> scheduled w = Some e ->
      Q (Some e) w') ->
  (forall w',
      objects w' = objects w ->
      disk w' = write_root f (File r) (disk w) ->
      trace w' = trace w ->
      faults w' = tail (faults w) ->
      Q None w') ->
  post (CopyToFile f r) w Q.
Proof.
  intros Hfail Hok. unfold CopyToFile.
  apply post_bind, fault_post. intros w1 (Ho & Hd & Hs & Ht) Hfs.
  destruct (scheduled w) as [e|] eqn:Hsched.
  { apply post_ret. apply Hfail; auto. now repeat split. }
  apply post_bind, post_modify, post_ret.
  apply Hok; simpl; congruence.
Qed.

Lemma Open_post (filename : string) (w : World)
    (Q : Bytes * option error -> World -> Prop) :
  (forall e w',
      quiet w w' -> faults w' = tail (faults w) ->
      scheduled w = Some e \/
      (forall data, lookup_disk (disk w) filename <> Some (File data)) ->
      Q ([], Some e) w') ->
  (forall data w',
      quiet w w' -> faults w' = tail (faults w) ->
      lookup_disk (disk w) filename = Some (File data) ->
      Q (data, None) w') ->
  post (Open filename) w Q.
Proof.
  intros Hfail Hok. unfold Open.
  apply post_bind, fault_post. intros w1 Hq Hfs.
  destruct (scheduled w) as [e|] eqn:Hsched.
  { apply post_ret. apply Hfail; auto. }
  apply post_bind, post_get.
  assert (Hd : disk w1 = disk w) by apply Hq. rewrite Hd.
  destruct (lookup_disk (disk w) filename) as [[data|es|e|e]|] eqn:Hfile;
    apply post_ret; try (apply Hfail; auto; right; intros data; discriminate).
  now apply Hok.
Qed.

End System.

Section Extraction.

Context `{Collaborators}.

Lemma roots_app (d1 d2 : list (string * Node)) : roots (d1 ++ d2) = roots d1 ++ roots d2.
Proof. apply map_app. Qed.

Lemma roots_write_root (root : string) (n : Node) (d : list (string * Node)) :
  incl (roots d) (roots (write_root root n d)).
Proof.
  induction d as [|[r old] d IH]; simpl.
  - intros x [].
  - destruct (String.eqb r root); simpl.
    + apply incl_refl.
    + intros x [<-|Hx]; [now left | right; now apply IH].
Qed.

Lemma sha256SumFile_post (filename : string) (w : World)
    (Q : string * option error -> World -> Prop) :
  (forall e w',
      quiet w w' ->
      scheduled w = Some e \/
      (forall data, lookup_disk (disk w) filename <> Some (File data)) \/
      default None (head (tail (faults w))) = Some e ->
      Q ("", Some e) w') ->
  (forall data w',
      quiet w w' ->
      faults w' = tail (tail (faults w)) ->
      lookup_disk (disk w) filename = Some (File data) ->
      Q (sha256hex data, None) w') ->
  post (sha256SumFile filename) w Q.
Proof.
  intros Hfail Hok. unfold sha256SumFile.
  apply post_bind, Open_post.
  - intros e w1 Hq _ Hwhy. apply post_ret. apply Hfail; tauto.
  - intros data w1 Hq1 Hfs1 Hfile.
    apply post_bind, fault_post. intros w2 Hq2 Hfs2.
    assert (Hq : quiet w w2) by (eapply quiet_trans; eassumption).
    unfold scheduled. rewrite Hfs1.
    destruct (default None (head (tail (faults w)))) as [e|] eqn:Hsched; apply post_ret.
    + apply Hfail; auto.
    + apply Hok; congruence.
Qed.

(** The extractor is entered once, on the bytes of the file it is given,
    whatever comes of it. *)
Lemma UntarGz_post (dest f : string) (w : World) (Q : option error -> World -> Prop) :
  (forall err w' data,
      data = match lookup_disk (disk w) f with
             | Some (File data) => data
             | _ => []
             end ->
      objects w' = objects w ->
      trace w' = trace w ++ [Untar dest data] ->
      incl (roots (disk w)) (roots (disk w')) ->
      (err = None -> exists entries, readTarGz data = inr entries) ->
      Q err w') ->
  post (UntarGz dest f) w Q.
Proof.
  intros HQ. unfold UntarGz.
  apply post_bind, post_get.
  set (data := match lookup_disk (disk w) f with
               | Some (File data) => data
               | _ => []
               end).
  apply post_bind, post_modify.
  apply post_bind, fault_post. intros w1 (Ho & Hd & Hs & Ht) _.
  simpl in Ho, Hd, Ht.
  destruct (scheduled _) as [e|].
  { apply post_ret. apply (HQ _ _ data); try easy. rewrite Hd. apply incl_refl. }
  destruct (readTarGz data) as [e|entries] eqn:Hread.
  { apply post_ret. apply (HQ _ _ data); try easy. rewrite Hd. apply incl_refl. }
  destruct (lookup_root dest (disk w)) as [[d|old|e|e]|];
    try (apply post_ret; apply (HQ _ _ data); try easy; rewrite Hd; apply incl_refl).
  apply post_bind, post_modify, post_ret.
  apply (HQ _ _ data); try easy; [|eauto]. simpl. rewrite Hd. apply roots_write_root.
Qed.


Lemma extractStagedArtifact_post (a : StagedArtifact.t) (dest : string) (w : World) :
  post (extractStagedArtifact a dest) w (extraction_effect a dest w).
Proof.
  unfold extractStagedArtifact.
  assert (Hfail : forall e w', objects w' = objects w ->
                               incl (roots (disk w)) (roots (disk w')) ->
                               trace w' = trace w ->
                               extraction_effect a dest w (Some e) w').
  { intros e w' Ho Hr Ht. repeat split; try assumption. left. split; [eauto | assumption]. }
  apply post_bind, create_temp_post.
  { intros e w1 (Ho & Hd & Hs & Ht) _ _. apply post_ret, Hfail; try easy.
    rewrite Hd. apply incl_refl. }
  intros f w1 Hfresh Ho1 Hd1 Ht1 _. rewrite app_nil_r in Ht1.
  assert (Hr1 : incl (roots (disk w)) (roots (disk w1))).
  { rewrite Hd1, roots_app. now apply incl_appl, incl_refl. }
  apply post_bind, NewReader_post.
  { intros e w2 (Ho & Hd & Hs & Ht) _ _. apply post_ret, Hfail; try congruence.
    now rewrite Hd. }
  intros r w2 (Ho2 & Hd2 & Hs2 & Ht2) _ _.
  apply post_bind, CopyToFile_post.
  { intros e w3 (Ho & Hd & Hs & Ht) _ _. apply post_ret, Hfail; try congruence.
    now rewrite Hd, Hd2. }
  intros w3 Ho3 Hd3 Ht3 _.
  assert (Hr3 : incl (roots (disk w)) (roots (disk w3))).
  { rewrite Hd3, Hd2. eapply incl_tran; [exact Hr1 | apply roots_write_root]. }
  apply post_bind, fault_post. intros w4 (Ho4 & Hd4 & Hs4 & Ht4) _.
  destruct (scheduled w3) as [e|].
  { apply post_ret, Hfail; try congruence. now rewrite Hd4. }
  apply post_bind, fault_post. intros w5 (Ho5 & Hd5 & Hs5 & Ht5) _.
  destruct (scheduled w4) as [e|].
  { apply post_ret, Hfail; try congruence. now rewrite Hd5, Hd4. }
  apply post_bind, sha256SumFile_post.
  { intros e w6 (Ho & Hd & Hs & Ht) _. apply post_ret, Hfail; try congruence.
    now rewrite Hd, Hd5, Hd4. }
  intros data w6 (Ho6 & Hd6 & Hs6 & Ht6) _ Hfile.
  destruct (String.eqb_spec (sha256hex data)
              (ArtifactMetadata.SHA256 (StagedArtifact.Metadata a))) as [Hsum|Hsum]; simpl.
  - apply UntarGz_post. intros err w7 data' Hdata Ho7 Ht7 Hr7 Hread7.
    rewrite Hd6, Hfile in Hdata. subst data'.
    repeat split; try congruence.
    + eapply incl_tran; [|exact Hr7]. now rewrite Hd6, Hd5, Hd4.
    + right. exists data. split; [congruence | exact Hsum].
  - apply post_ret, Hfail; try congruence. now rewrite Hd6, Hd5, Hd4.
Qed.

End Extraction.

Section Verification.

Context `{Collaborators}.

Lemma find_path_root (root : string) (n : Node) : find_path root n root = Some n.
Proof. destruct n; simpl; now rewrite String.eqb_refl. Qed.

Lemma find_path_none_neq (root p : string) (n : Node) :
  find_path root n p = None -> String.eqb root p = false.
Proof. destruct (String.eqb_spec root p) as [->|]; [now rewrite find_path_root | reflexivity]. Qed.

(** A file written under a name new to the disk is what is read back. *)
Lemma lookup_disk_write_fresh (d : list (string * Node)) (f : string) (n n' : Node) :
  lookup_disk d f = None ->
  lookup_disk (write_root f n' (d ++ [(f, n)])) f = Some n'.
Proof.
  induction d as [|[r old] d IH]; simpl; intros Hnone.
  - rewrite String.eqb_refl. simpl. now rewrite find_path_root.
  - destruct (find_path r old f) eqn:Hfind; [discriminate|].
    rewrite (find_path_none_neq _ _ _ Hfind). simpl. rewrite Hfind. now apply IH.
Qed.

Lemma no_fault_step (n : nat) (w : World) :
  Forall (eq None) (take (S n) (faults w)) ->
  scheduled w = None /\
  forall w', faults w' = tail (faults w) -> Forall (eq None) (take n (faults w')).
Proof.
  unfold scheduled. destruct (faults w) as [|f fs]; simpl; intros Hall.
  - split; [reflexivity|]. intros w' ->. destruct n; constructor.
  - inversion Hall; subst. split; [reflexivity|]. now intros w' ->.
Qed.

(** When the download and the hashing go through and the digest is not
    the declared one, the error names the artifact and the trace is as it
    was: the extractor has not been entered. *)
Lemma extractStagedArtifact_mismatch (a : StagedArtifact.t) (dest : string)
    (w : World) (data : Bytes) :
  Forall (eq None) (take 7 (faults w)) ->
  pick_fresh (on_disk w) (temp_name "temp-artifact-") max_tries (serial w) <> None ->
  objects w !! StagedArtifact.ObjectHandle a = Some data ->
  sha256hex data <> ArtifactMetadata.SHA256 (StagedArtifact.Metadata a) ->
  post (extractStagedArtifact a dest) w
       (fun err w' =>
          err = Some (Errorf mismatching_checksum
                             (ArtifactMetadata.Name (StagedArtifact.Metadata a))) /\
          trace w' = trace w).
Proof.
  intros Hfaults Hname Hobj Hsum. unfold extractStagedArtifact.
  destruct (no_fault_step _ _ Hfaults) as [Hs0 Hf0].
  apply post_bind, create_temp_post.
  { intros e w1 _ _ [Hwhy|Hwhy]; congruence. }
  intros f w1 Hfresh Ho1 Hd1 Ht1 Hfs1. rewrite app_nil_r in Ht1.
  destruct (no_fault_step _ _ (Hf0 _ Hfs1)) as [Hs1 Hf1].
  apply post_bind, NewReader_post.
  { intros e w2 _ _ [Hwhy|Hwhy]; congruence. }
  intros r w2 (Ho2 & Hd2 & _ & Ht2) Hfs2 Hr.
  assert (r = data) by congruence. subst r.
  destruct (no_fault_step _ _ (Hf1 _ Hfs2)) as [Hs2 Hf2].
  apply post_bind, CopyToFile_post.
  { intros e w3 _ _ Hwhy; congruence. }
  intros w3 Ho3 Hd3 Ht3 Hfs3.
  destruct (no_fault_step _ _ (Hf2 _ Hfs3)) as [Hs3 Hf3].
  apply post_bind, fault_post. intros w4 (Ho4 & Hd4 & _ & Ht4) Hfs4. rewrite Hs3.
  destruct (no_fault_step _ _ (Hf3 _ Hfs4)) as [Hs4 Hf4].
  apply post_bind, fault_post. intros w5 (Ho5 & Hd5 & _ & Ht5) Hfs5. rewrite Hs4.
  destruct (no_fault_step _ _ (Hf4 _ Hfs5)) as [Hs5 Hf5].
  assert (Hfile : lookup_disk (disk w5) f = Some (File data)).
  { rewrite Hd5, Hd4, Hd3, Hd2, Hd1. apply lookup_disk_write_fresh.
    unfold on_disk in Hfresh. now destruct (lookup_disk (disk w) f). }
  apply post_bind, sha256SumFile_post.
  { intros e w6 _ [Hwhy|[Hwhy|Hwhy]]; try congruence.
    pose proof (Hf5 (set_faults (tail (faults w5)) w5) eq_refl) as Hnext.
    simpl in Hnext. destruct (tail (faults w5)); [discriminate|].
    inversion Hnext; subst. discriminate. }
  intros data' w6 (Ho6 & Hd6 & _ & Ht6) _ Hfile'.
  assert (data' = data) by congruence. subst data'.
  destruct (String.eqb_spec (sha256hex data)
              (ArtifactMetadata.SHA256 (StagedArtifact.Metadata a)))
    as [Heq|_]; [contradiction|]. simpl.
  apply post_ret. split; [reflexivity | congruence].
Qed.

End Verification.

(** ** The stages of the pipeline *)

Section Pipeline.

Context `{Collaborators}.

Lemma in_roots_on_disk (d : list (string * Node)) (p : string) :
  In p (roots d) -> lookup_disk d p <> None.
Proof.
  induction d as [|[r n] d IH]; simpl; [tauto|].
  intros [->|Hin].
  - now rewrite find_path_root.
  - destruct (find_path r n p); [discriminate | now apply IH].
Qed.

Lemma extractStagedArtifactToTempDir_post (a : StagedArtifact.t) (w : World) :
  post (extractStagedArtifactToTempDir a) w (tempdir_extraction_effect a w).
Proof.
  unfold extractStagedArtifactToTempDir, TempDir.
  apply post_bind, create_temp_post.
  { intros e w1 (Ho & Hd & Hs & Ht) _ _. apply post_ret.
    repeat split; try assumption.
    - rewrite Hd. apply incl_refl.
    - left. simpl. split; [eauto | assumption]. }
  intros dest w1 Hfresh Ho1 Hd1 Ht1 _.
  apply post_bind.
  eapply post_mono; [apply extractStagedArtifact_post|].
  intros err w2 _ (Ho2 & Hr2 & Htrace). apply post_ret.
  assert (Hr1 : incl (roots (disk w)) (roots (disk w1))).
  { rewrite Hd1, roots_app. apply incl_appl, incl_refl. }
  repeat split; try congruence.
  - eapply incl_tran; eassumption.
  - right. simpl. repeat split.
    + intros Hin. apply in_roots_on_disk in Hin. unfold on_disk in Hfresh.
      now destruct (lookup_disk (disk w) dest).
    + apply Hr2. rewrite Hd1, roots_app. apply in_or_app. right. now left.
    + destruct Htrace as [[Herr Ht2]|(data & Ht2 & Hsum)].
      * left. split; [assumption | congruence].
      * right. exists data. split; [|assumption].
        rewrite Ht2, Ht1. now rewrite <- app_assoc.
Qed.

Lemma extractStagedArtifactToTempDir_total (a : StagedArtifact.t) (w : World) :
  exists dir err w', extractStagedArtifactToTempDir a w = Some ((dir, err), w').
Proof.
  destruct (extractStagedArtifactToTempDir_post a w) as ([dir err] & w' & Hrun & _). eauto.
Qed.

Lemma NewChart_cases (path : string) (w : World) :
  (exists c, NewChart path w = Some ((Some c, None), w)) \/
  (exists e, NewChart path w = Some ((None, Some e), w)).
Proof.
  unfold NewChart, bind, get, ret.
  destruct (lookup_disk (disk w) path) as [[data|es|e|e]|]; eauto.
  destruct (loadChart data); eauto.
Qed.

Lemma NewTar_cases (path os arch : string) (w : World) :
  (exists name,
      NewTar path os arch w = Some ((Some (images.mkTar path os arch name), None), w)) \/
  (exists e, NewTar path os arch w = Some ((None, Some e), w)).
Proof.
  unfold NewTar, bind, get, ret.
  destruct (lookup_disk (disk w) path) as [[data|es|e|e]|]; eauto.
  destruct (inspectImage data); eauto.
Qed.

Lemma range_chartPaths_complete (w : World) (paths : list string)
    (charts : list manifests.Chart) (r : list manifests.Chart * option error) :
  charts_built w paths charts r -> range_chartPaths paths charts w = Some (r, w).
Proof.
  induction 1 as [charts|path rest charts c e Hnew|path rest charts c r Hnew _ IH]; simpl.
  - reflexivity.
  - now rewrite (bind_eq _ _ _ _ _ Hnew).
  - rewrite (bind_eq _ _ _ _ _ Hnew). exact IH.
Qed.

Lemma charts_built_total (w : World) (paths : list string) :
  forall charts, exists r, charts_built w paths charts r.
Proof.
  induction paths as [|path rest IH]; intros charts.
  - eexists. constructor.
  - destruct (NewChart_cases path w) as [[c Hc]|[e He]].
    + destruct (IH (charts ++ [c])) as [r Hr]. exists r. eapply charts_next; eassumption.
    + eexists. eapply charts_stop; eassumption.
Qed.

Lemma range_yamlPaths_eq (paths : list string) (yamls : list manifests.YAML) (w : World) :
  range_yamlPaths paths yamls w = Some (yamls ++ map manifests.mkYAML paths, w).
Proof.
  revert yamls. induction paths as [|path rest IH]; intros yamls; simpl.
  - unfold ret. now rewrite app_nil_r.
  - unfold bind at 1. simpl. rewrite IH. now rewrite <- app_assoc.
Qed.

Lemma range_imageArchives_complete (a : StagedArtifact.t) (w : World)
    (archives : list string) (bundles : Bundles) (found : list (string * images.Tar))
    (r : Bundles * option error) :
  images_classified a w archives bundles found r ->
  range_imageArchives a archives bundles w = Some (r, w).
Proof.
  induction 1 as [bundles|archive rest bundles t e Hnew
                 |archive rest bundles t name found r Hnew Hname _ IH]; simpl.
  - reflexivity.
  - now rewrite (bind_eq _ _ _ _ _ Hnew).
  - rewrite (bind_eq _ _ _ _ _ Hnew). rewrite (bind_eq _ _ _ _ _ Hname).
    unfold bind at 1. simpl. exact IH.
Qed.

Lemma images_classified_total (a : StagedArtifact.t) (w : World) (archives : list string) :
  forall bundles, exists found r, images_classified a w archives bundles found r.
Proof.
  induction archives as [|archive rest IH]; intros bundles.
  - eexists _, _. constructor.
  - destruct (NewTar_cases archive
                (ArtifactMetadata.OS (StagedArtifact.Metadata a))
                (ArtifactMetadata.Architecture (StagedArtifact.Metadata a)) w)
      as [[name Ht]|[e He]].
    + destruct (componentNameOf_strips archive w) as (stem & Hstem & _).
      destruct (IH (append_to_bundle stem
                      (images.mkTar archive
                         (ArtifactMetadata.OS (StagedArtifact.Metadata a))
                         (ArtifactMetadata.Architecture (StagedArtifact.Metadata a))
                         name) bundles)) as (found & r & Hr).
      eexists _, r. eapply images_next; eassumption.
    + eexists _, _. eapply images_stop; eassumption.
Qed.

Lemma range_serverA_complete (serverA : list StagedArtifact.t) (bundles : Bundles)
    (w w' : World) (founds : list (list (string * images.Tar)))
    (r : Bundles * option error) :
  servers_unpacked serverA bundles w founds r w' ->
  range_serverA serverA bundles w = Some (r, w').
Proof.
  induction 1 as [bundles w
                 |a rest bundles w dir e w1 Hex
                 |a rest bundles w dir w1 paths e Hex Hscan
                 |a rest bundles w dir w1 archives found b e Hex Hscan Himg
                 |a rest bundles w dir w1 archives found b founds r w2 Hex Hscan Himg _ IH];
    simpl.
  - reflexivity.
  - now rewrite (bind_eq _ _ _ _ _ Hex).
  - rewrite (bind_eq _ _ _ _ _ Hex). now rewrite (bind_eq _ _ _ _ _ Hscan).
  - rewrite (bind_eq _ _ _ _ _ Hex). rewrite (bind_eq _ _ _ _ _ Hscan).
    now rewrite (bind_eq _ _ _ _ _ (range_imageArchives_complete _ _ _ _ _ _ Himg)).
  - rewrite (bind_eq _ _ _ _ _ Hex). rewrite (bind_eq _ _ _ _ _ Hscan).
    rewrite (bind_eq _ _ _ _ _ (range_imageArchives_complete _ _ _ _ _ _ Himg)).
    exact IH.
Qed.

Lemma servers_unpacked_total (serverA : list StagedArtifact.t) :
  forall bundles w, exists founds r w', servers_unpacked serverA bundles w founds r w'.
Proof.
  induction serverA as [|a rest IH]; intros bundles w.
  - eexists _, _, _. constructor.
  - destruct (extractStagedArtifactToTempDir_total a w) as (dir & err & w1 & Hex).
    destruct err as [e|].
    { eexists _, _, _. eapply servers_stop_extract; eassumption. }
    destruct (recursiveFindWithExt_total dir ".tar" w1) as (archives & err & Hscan & _).
    destruct err as [e|].
    { eexists _, _, _. eapply servers_stop_scan; eassumption. }
    destruct (images_classified_total a w1 archives bundles) as (found & [b err] & Himg).
    destruct err as [e|].
    { eexists _, _, _. eapply servers_stop_inspect; eassumption. }
    destruct (IH b w1) as (founds & r & w2 & Hrest).
    eexists _, _, _. eapply servers_next; eassumption.
Qed.

End Pipeline.

Section Whole.

Context `{Collaborators}.

Lemma manifestArtifactForStaged_none (s : Staged.t) (w : World) :
  ArtifactsOfKind s "manifests" = [] ->
  manifestArtifactForStaged s w
  = Some ((None, Some (Errorf "cannot find 'manifests' artifact in staged release %q"
                              (Staged.Name s))), w).
Proof. intros Hnone. unfold manifestArtifactForStaged. now rewrite Hnone. Qed.

Lemma manifestArtifactForStaged_one (s : Staged.t) (w : World) (a : StagedArtifact.t) :
  ArtifactsOfKind s "manifests" = [a] ->
  manifestArtifactForStaged s w = Some ((Some a, None), w).
Proof. intros Hone. unfold manifestArtifactForStaged. now rewrite Hone. Qed.

Lemma manifestArtifactForStaged_many (s : Staged.t) (w : World)
    (a b : StagedArtifact.t) (rest : list StagedArtifact.t) :
  ArtifactsOfKind s "manifests" = a :: b :: rest ->
  manifestArtifactForStaged s w
  = Some ((None, Some (Errorf "found multiple 'manifests' artifacts in staged release %q"
                              (Staged.Name s))), w).
Proof. intros Hmany. unfold manifestArtifactForStaged. now rewrite Hmany. Qed.

Lemma manifestArtifactForStaged_cases (s : Staged.t) (w : World) :
  (exists a, manifestArtifactForStaged s w = Some ((Some a, None), w)) \/
  (exists e, manifestArtifactForStaged s w = Some ((None, Some e), w)).
Proof.
  destruct (ArtifactsOfKind s "manifests") as [|a [|b rest]] eqn:Hkind.
  - right. eexists. now apply manifestArtifactForStaged_none.
  - left. eexists. eapply manifestArtifactForStaged_one. eassumption.
  - right. eexists. eapply manifestArtifactForStaged_many. eassumption.
Qed.

Lemma charts_built_all (w : World) (paths : list string) :
  Forall (fun path => exists c, NewChart path w = Some ((Some c, None), w)) paths ->
  forall charts, exists built, charts_built w paths charts (built, None).
Proof.
  induction 1 as [|path rest [c Hc] _ IH]; intros charts.
  - eexists. constructor.
  - destruct (IH (charts ++ [c])) as [built Hbuilt].
    exists built. eapply charts_next; eassumption.
Qed.

(** Each way the stages can end is what [Unpack] returns. *)
Lemma Unpack_complete (s : Staged.t) (w w' : World)
    (r : option Unpacked.t * option error) :
  unpack_run s w r w' -> Unpack s w = Some (r, w').
Proof.
  intros Hrun. unfold Unpack, unpackServerImagesFromRelease.
  destruct Hrun as [a e Hsel
                   |a dir e w1 Hsel Hex
                   |a dir w1 paths e Hsel Hex Hscan
                   |a dir w1 chartPaths cs e Hsel Hex Hscan Hcharts
                   |a dir w1 chartPaths charts paths e Hsel Hex Hscan Hcharts Hyaml
                   |a dir w1 chartPaths charts yamlPaths founds b e w2
                      Hsel Hex Hscan Hcharts Hyaml Hservers
                   |a dir w1 chartPaths charts yamlPaths founds bundles w2
                      Hsel Hex Hscan Hcharts Hyaml Hservers];
    rewrite (bind_eq _ _ _ _ _ Hsel); try reflexivity;
    unfold bind at 1; simpl;
    rewrite (bind_eq _ _ _ _ _ Hex); try reflexivity;
    rewrite (bind_eq _ _ _ _ _ Hscan); try reflexivity;
    rewrite (bind_eq _ _ _ _ _ (range_chartPaths_complete _ _ _ _ Hcharts)); try reflexivity;
    rewrite (bind_eq _ _ _ _ _ Hyaml); try reflexivity;
    rewrite (bind_eq _ _ _ _ _ (range_yamlPaths_eq _ _ _));
    rewrite (bind_eq _ _ _ _ _ (range_serverA_complete _ _ _ _ _ _ Hservers));
    reflexivity.
Qed.

(** The stages always end in one of these ways. *)
Lemma unpack_run_total (s : Staged.t) (w : World) :
  exists r w', unpack_run s w r w'.
Proof.
  destruct (manifestArtifactForStaged_cases s w) as [[a Hsel]|[e Hsel]].
  2: { eexists _, _. eapply stop_at_selection; eassumption. }
  destruct (extractStagedArtifactToTempDir_total a w) as (dir & err & w1 & Hex).
  destruct err as [e|].
  { eexists _, _. eapply stop_at_manifests; eassumption. }
  destruct (recursiveFindWithExt_total dir ".tgz" w1) as (chartPaths & err & Hscan & _).
  destruct err as [e|].
  { eexists _, _. eapply stop_at_chart_scan; eassumption. }
  destruct (charts_built_total w1 chartPaths []) as ([charts err] & Hcharts).
  destruct err as [e|].
  { eexists _, _. eapply stop_at_chart; eassumption. }
  destruct (recursiveFindWithExt_total dir ".yaml" w1) as (yamlPaths & err & Hyaml & _).
  destruct err as [e|].
  { eexists _, _. eapply stop_at_yaml_scan; eassumption. }
  destruct (servers_unpacked_total (ArtifactsOfKind s "server") ∅ w1)
    as (founds & [b err] & w2 & Hservers).
  destruct err as [e|].
  { eexists _, _. eapply stop_at_servers; eassumption. }
  eexists _, _. eapply assembled; eassumption.
Qed.

(** [Unpack] does not panic, and ends as the stages say. *)
Lemma Unpack_sound (s : Staged.t) (w : World) :
  exists r w', Unpack s w = Some (r, w') /\ unpack_run s w r w'.
Proof.
  destruct (unpack_run_total s w) as (r & w' & Hrun).
  exists r, w'. split; [now apply Unpack_complete | exact Hrun].
Qed.

Lemma Unpack_inv (s : Staged.t) (w w' : World) (r : option Unpacked.t * option error) :
  Unpack s w = Some (r, w') -> unpack_run s w r w'.
Proof.
  intros Hrun. destruct (Unpack_sound s w) as (r0 & w0 & Hrun0 & Hstages).
  rewrite Hrun in Hrun0. now inversion Hrun0; subst.
Qed.

End Whole.

(** ** Bundles of images *)

Section Bundling.

Context `{Collaborators}.

Lemma lookup_append_to_bundle (name k : string) (t : images.Tar) (bundles : Bundles) :
  append_to_bundle name t bundles !! k
  = if String.eqb name k then Some (default [] (bundles !! k) ++ [t]) else bundles !! k.
Proof.
  unfold append_to_bundle. destruct (String.eqb_spec name k) as [->|Hne].
  - apply lookup_insert_eq.
  - now apply lookup_insert_ne.
Qed.

Lemma lookup_classify (found : list (string * images.Tar)) :
  forall (bundles : Bundles) (k : string),
    classify found bundles !! k
    = match with_key k found with
      | [] => bundles !! k
      | l => Some (default [] (bundles !! k) ++ l)
      end.
Proof.
  unfold with_key.
  induction found as [|[name t] found IH]; intros bundles k; simpl; [reflexivity|].
  unfold classify in *. rewrite IH. rewrite lookup_append_to_bundle.
  destruct (String.eqb name k); simpl.
  - destruct (map snd (List.filter (fun p => String.eqb (fst p) k) found)); simpl.
    + reflexivity.
    + now rewrite <- app_assoc.
  - reflexivity.
Qed.

Lemma NewTar_tagged (path os arch : string) (w w' : World) (t : images.Tar) :
  NewTar path os arch w = Some ((Some t, None), w') ->
  images.tar_path t = path /\ images.tar_os t = os /\ images.tar_arch t = arch.
Proof.
  unfold NewTar, bind, get, ret.
  destruct (lookup_disk (disk w) path) as [[data|es|e|e]|]; try discriminate.
  destruct (inspectImage data); [discriminate|].
  intros [= <- _]. now repeat split.
Qed.

Lemma componentNameOf_any_state {St St' : Type} (archive name : string) (s : St) (s' : St') :
  componentNameOf archive s = Some (name, s) ->
  componentNameOf archive s' = Some (name, s').
Proof.
  unfold componentNameOf, slice_to.
  destruct (_ && _)%bool; [|discriminate].
  unfold ret. now intros [= <-].
Qed.

Lemma images_classified_classify (a : StagedArtifact.t) (w : World)
    (archives : list string) (bundles bundles' : Bundles)
    (found : list (string * images.Tar)) :
  images_classified a w archives bundles found (bundles', None) ->
  bundles' = classify found bundles /\ Forall (tagged a) found.
Proof.
  remember (bundles', @None error) as r eqn:Hr.
  induction 1 as [bundles|archive rest bundles t e Hnew
                 |archive rest bundles t name found r Hnew Hname _ IH].
  - inversion Hr; subst. split; [reflexivity | constructor].
  - discriminate.
  - destruct (IH Hr) as [-> Htagged]. split; [reflexivity|].
    constructor; [|exact Htagged].
    destruct (NewTar_tagged _ _ _ _ _ _ Hnew) as (Hpath & Hos & Harch).
    repeat split; simpl; try assumption.
    rewrite Hpath. eapply componentNameOf_any_state. exact Hname.
Qed.

Lemma classify_app (found1 found2 : list (string * images.Tar)) (bundles : Bundles) :
  classify (found1 ++ found2) bundles = classify found2 (classify found1 bundles).
Proof. unfold classify. apply fold_left_app. Qed.

Lemma servers_unpacked_classify (serverA : list StagedArtifact.t)
    (bundles bundles' : Bundles) (w w' : World)
    (founds : list (list (string * images.Tar))) :
  servers_unpacked serverA bundles w founds (bundles', None) w' ->
  bundles' = classify (concat founds) bundles /\
  Forall2 (fun a found => Forall (tagged a) found) serverA founds.
Proof.
  remember (bundles', @None error) as r eqn:Hr.
  induction 1 as [bundles w
                 |a rest bundles w dir e w1 Hex
                 |a rest bundles w dir w1 paths e Hex Hscan
                 |a rest bundles w dir w1 archives found b e Hex Hscan Himg
                 |a rest bundles w dir w1 archives found b founds r w2 Hex Hscan Himg _ IH];
    try discriminate.
  - inversion Hr; subst. split; [reflexivity | constructor].
  - destruct (IH Hr) as [-> Hrest].
    destruct (images_classified_classify _ _ _ _ _ _ Himg) as [-> Htagged].
    split.
    + simpl. now rewrite classify_app.
    + now constructor.
Qed.

Lemma unpackServerImagesFromRelease_inv (s : Staged.t) (w w' : World)
    (r : Bundles * option error) :
  unpackServerImagesFromRelease s w = Some (r, w') ->
  exists founds, servers_unpacked (ArtifactsOfKind s "server") ∅ w founds r w'.
Proof.
  intros Hrun.
  destruct (servers_unpacked_total (ArtifactsOfKind s "server") ∅ w)
    as (founds & r0 & w0 & Hstages).
  pose proof (range_serverA_complete _ _ _ _ _ _ Hstages) as Hrun0.
  unfold unpackServerImagesFromRelease in Hrun. rewrite Hrun in Hrun0.
  inversion Hrun0; subst. now exists founds.
Qed.

End Bundling.

(** ** One directory for each extraction *)

Section Directories.

Context `{Collaborators}.

Lemma untar_dests_app (evs1 evs2 : list Event) :
  untar_dests (evs1 ++ evs2) = untar_dests evs1 ++ untar_dests evs2.
Proof. apply flat_map_app. Qed.

Lemma extraction_log_refl (w : World) : extraction_log w [] w.
Proof.
  unfold extraction_log. simpl. rewrite app_nil_r.
  split; [reflexivity|]. split; [apply incl_refl|]. split; [constructor|].
  split; intros d [].
Qed.

(** Two runs one after the other: the directories of the second are new
    to a disk that holds those of the first. *)
Lemma extraction_log_trans (w w1 w2 : World) (evs1 evs2 : list Event) :
  extraction_log w evs1 w1 -> extraction_log w1 evs2 w2 ->
  extraction_log w (evs1 ++ evs2) w2.
Proof.
  intros (Ht1 & Hr1 & Hnd1 & Hmk1 & Hfresh1) (Ht2 & Hr2 & Hnd2 & Hmk2 & Hfresh2).
  unfold extraction_log. split; [|split; [|split; [|split]]].
  - rewrite Ht2, Ht1. now rewrite app_assoc.
  - eapply incl_tran; eassumption.
  - rewrite untar_dests_app. apply NoDup_app. split; [exact Hnd1|]. split; [|exact Hnd2].
    intros d Hd1 Hd2. apply list_elem_of_In in Hd1, Hd2.
    apply Hmk1, Hfresh1 in Hd1. apply Hmk2, Hfresh2 in Hd2. tauto.
  - intros d Hd. rewrite untar_dests_app in Hd. apply in_or_app.
    apply in_app_or in Hd. destruct Hd as [Hd|Hd]; [left; now apply Hmk1 | right; now apply Hmk2].
  - intros d Hd. apply in_app_or in Hd. destruct Hd as [Hd|Hd].
    + apply Hfresh1 in Hd. split; [tauto|]. apply Hr2. tauto.
    + apply Hfresh2 in Hd. split; [|tauto]. intros Hin. apply Hr1 in Hin. tauto.
Qed.

(** One artifact: one directory made, and the extractor entered on it or
    not at all; entered when the call reports no error. *)
Lemma extractStagedArtifactToTempDir_log (a : StagedArtifact.t) (w w' : World)
    (dir : string) (err : option error) :
  extractStagedArtifactToTempDir a w = Some ((dir, err), w') ->
  exists evs,
    extraction_log w evs w' /\
    (err = None -> untar_dests evs = [dir]).
Proof.
  intros Hrun.
  pose proof (post_elim _ _ _ _ _ (extractStagedArtifactToTempDir_post a w) Hrun)
    as (_ & Hroots & Hcases).
  simpl in Hcases.
  destruct Hcases as [[Herr Htrace]|(Hnew & Hmade & [[Herr Htrace]|(data & Htrace & _)])].
  - exists []. split.
    + unfold extraction_log. simpl. rewrite app_nil_r.
      split; [exact Htrace|]. split; [exact Hroots|]. split; [constructor|].
      split; intros d [].
    + intros ->. now destruct Herr.
  - exists [MkdirTemp dir]. split.
    + unfold extraction_log. simpl.
      split; [exact Htrace|]. split; [exact Hroots|]. split; [constructor|].
      split; [intros d []|].
      intros d [[= <-]|[]]. now split.
    + intros ->. now destruct Herr.
  - exists [MkdirTemp dir; Untar dir data]. split.
    + unfold extraction_log. simpl.
      split; [exact Htrace|]. split; [exact Hroots|].
      split; [apply NoDup_singleton|].
      split.
      * intros d [<-|[]]. now left.
      * intros d [[= <-]|[[=]|[]]]. now split.
    + reflexivity.
Qed.

(** A run that stops after one extraction has the log of that extraction. *)
Ltac log_of_one_extraction Hex :=
  let evs := fresh "evs" in
  let Hlog := fresh "Hlog" in
  destruct (extractStagedArtifactToTempDir_log _ _ _ _ _ Hex) as (evs & Hlog & _);
  exists evs; split; [exact Hlog | discriminate].

Lemma servers_unpacked_log (serverA : list StagedArtifact.t) (bundles : Bundles)
    (w w' : World) (founds : list (list (string * images.Tar)))
    (r : Bundles * option error) :
  servers_unpacked serverA bundles w founds r w' ->
  exists evs,
    extraction_log w evs w' /\
    (snd r = None -> length (untar_dests evs) = length serverA).
Proof.
  induction 1 as [bundles w
                 |a rest bundles w dir e w1 Hex
                 |a rest bundles w dir w1 paths e Hex Hscan
                 |a rest bundles w dir w1 archives found b e Hex Hscan Himg
                 |a rest bundles w dir w1 archives found b founds r w2 Hex Hscan Himg _ IH].
  - exists []. split; [apply extraction_log_refl | reflexivity].
  - log_of_one_extraction Hex.
  - log_of_one_extraction Hex.
  - log_of_one_extraction Hex.
  - destruct (extractStagedArtifactToTempDir_log _ _ _ _ _ Hex) as (evs1 & Hlog1 & Hone).
    destruct IH as (evs2 & Hlog2 & Hcount).
    exists (evs1 ++ evs2). split; [eapply extraction_log_trans; eassumption|].
    intros Hok. rewrite untar_dests_app, length_app, Hone, Hcount by auto. reflexivity.
Qed.

Lemma unpack_run_log (s : Staged.t) (w w' : World) (r : option Unpacked.t * option error) :
  unpack_run s w r w' ->
  exists evs,
    extraction_log w evs w' /\
    (snd r = None ->
     length (untar_dests evs) = S (length (ArtifactsOfKind s "server"))).
Proof.
  intros Hrun.
  destruct Hrun as [a e Hsel
                   |a dir e w1 Hsel Hex
                   |a dir w1 paths e Hsel Hex Hscan
                   |a dir w1 chartPaths cs e Hsel Hex Hscan Hcharts
                   |a dir w1 chartPaths charts paths e Hsel Hex Hscan Hcharts Hyaml
                   |a dir w1 chartPaths charts yamlPaths founds b e w2
                      Hsel Hex Hscan Hcharts Hyaml Hservers
                   |a dir w1 chartPaths charts yamlPaths founds bundles w2
                      Hsel Hex Hscan Hcharts Hyaml Hservers].
  - exists []. split; [apply extraction_log_refl | discriminate].
  - log_of_one_extraction Hex.
  - log_of_one_extraction Hex.
  - log_of_one_extraction Hex.
  - log_of_one_extraction Hex.
  - destruct (extractStagedArtifactToTempDir_log _ _ _ _ _ Hex) as (evs1 & Hlog1 & _).
    destruct (servers_unpacked_log _ _ _ _ _ _ Hservers) as (evs2 & Hlog2 & _).
    exists (evs1 ++ evs2). split; [eapply extraction_log_trans; eassumption | discriminate].
  - destruct (extractStagedArtifactToTempDir_log _ _ _ _ _ Hex) as (evs1 & Hlog1 & Hone).
    destruct (servers_unpacked_log _ _ _ _ _ _ Hservers) as (evs2 & Hlog2 & Hcount).
    exists (evs1 ++ evs2). split; [eapply extraction_log_trans; eassumption|].
    intros _. rewrite untar_dests_app, length_app, Hone, Hcount by reflexivity. reflexivity.
Qed.

End Directories.

(** ** More on the scan *)

(** On a tree with a name that cannot be examined or a directory that
    cannot be listed, the walk ends on an error. *)
Lemma walk_find_unreadable (ext : string) (n : Node) :
  forall path paths,
    readable n = false ->
    exists e paths', walk (find_walkFn ext) path n paths = Some (Some e, paths').
Proof.
  induction n as [data|entries IH|e|e] using Node_ind; intros path paths Hread.
  - discriminate.
  - rewrite walk_Dir. unfold bind at 1. rewrite find_walkFn_dir.
    simpl in Hread.
    assert (Hsorted : forallb (fun entry => readable (snd entry)) (sort_by_name entries) = false).
    { apply not_true_is_false. intros Hall. rewrite forallb_forall in Hall.
      assert (Hall' : forallb (fun entry => readable (snd entry)) entries = true).
      { apply forallb_forall. intros x Hx. apply Hall.
        apply list_elem_of_In. rewrite sort_by_name_perm. now apply list_elem_of_In. }
      congruence. }
    assert (IHs : Forall (fun entry => forall path paths,
                     readable (snd entry) = false ->
                     exists e paths',
                       walk (find_walkFn ext) path (snd entry) paths = Some (Some e, paths'))
                   (sort_by_name entries)).
    { rewrite sort_by_name_perm. exact IH. }
    clear IH Hread. revert paths.
    induction IHs as [|entry rest Hentry _ IHrest]; intros paths; simpl in *.
    + discriminate.
    + unfold bind. destruct (readable (snd entry)) eqn:Hr.
      * rewrite walk_find_readable by exact Hr. now apply IHrest.
      * destruct (Hentry (filepath.Join [path; fst entry]) paths eq_refl)
          as (e & paths' & Hrun).
        rewrite Hrun. unfold ret. eauto.
  - cbn [walk]. rewrite find_walkFn_err. eauto.
  - cbn [walk]. rewrite find_walkFn_err. eauto.
Qed.

Lemma recursiveFindWithExt_unreadable (root ext : string) (t : Node) (w : World) :
  lookup_disk (disk w) root = Some t ->
  readable t = false ->
  exists e, recursiveFindWithExt root ext w = Some (([], Some e), w).
Proof.
  intros Hroot Hread. unfold recursiveFindWithExt, bind, get, Walk. rewrite Hroot.
  destruct (walk_find_unreadable ext t root [] Hread) as (e & paths & Hrun).
  rewrite Hrun. unfold ret. eauto.
Qed.

Lemma recursiveFindWithExt_missing (root ext : string) (w : World) :
  lookup_disk (disk w) root = None ->
  recursiveFindWithExt root ext w = Some (([], Some no_such_file), w).
Proof.
  intros Hroot. unfold recursiveFindWithExt, bind, get, Walk. rewrite Hroot.
  now rewrite find_walkFn_err.
Qed.

(** A scan that reports no error has gone over a readable tree. *)
Lemma recursiveFindWithExt_ok_inv (root ext : string) (w w' : World) (paths : list string) :
  recursiveFindWithExt root ext w = Some ((paths, None), w') ->
  w' = w /\
  exists t, lookup_disk (disk w) root = Some t /\ readable t = true /\
            paths = files_with_ext ext (visited root t).
Proof.
  intros Hrun.
  destruct (lookup_disk (disk w) root) as [t|] eqn:Hroot.
  - destruct (readable t) eqn:Hread.
    + rewrite (recursiveFindWithExt_readable _ _ _ _ Hroot Hread) in Hrun.
      inversion Hrun; subst. split; [reflexivity|]. exists t. now repeat split.
    + destruct (recursiveFindWithExt_unreadable _ ext _ _ Hroot Hread) as [e He].
      rewrite He in Hrun. discriminate.
  - rewrite (recursiveFindWithExt_missing _ _ _ Hroot) in Hrun. discriminate.
Qed.

Lemma string_app_assoc (a b c : string) : (a +:+ b) +:+ c = a +:+ (b +:+ c).
Proof.
  rewrite <- (of_chars_chars ((a +:+ b) +:+ c)), <- (of_chars_chars (a +:+ b +:+ c)).
  now rewrite !chars_app, app_assoc.
Qed.

(** ** The order of a listing does not matter *)

Section Sorting.

Context {A : Type}.

Implicit Types (x y : string * A) (l : list (string * A)).

Lemma leb_trans (a b c : string) :
  String.leb a b = true -> String.leb b c = true -> String.leb a c = true.
Proof.
  intros Hab Hbc. apply Is_true_true.
  apply Is_true_true in Hab, Hbc.
  change (String.le a c). now transitivity b.
Qed.

Lemma leb_false_flip (a b : string) : String.leb a b = false -> String.leb b a = true.
Proof. intros Hab. destruct (String.leb_total a b) as [H|H]; congruence. Qed.

Lemma insert_by_name_sorted x l :
  Sorted name_le l -> Sorted name_le (insert_by_name x l).
Proof.
  induction 1 as [|y l Hl IH Hhd]; simpl.
  - repeat constructor.
  - destruct (String.leb (fst x) (fst y)) eqn:Hxy.
    + constructor; [now constructor | now constructor].
    + constructor; [exact IH|].
      destruct l as [|z l]; simpl.
      * constructor. now apply leb_false_flip.
      * destruct (String.leb (fst x) (fst z)).
        -- constructor. now apply leb_false_flip.
        -- inversion Hhd; subst. now constructor.
Qed.

Lemma sort_by_name_sorted l : Sorted name_le (sort_by_name l).
Proof. induction l as [|x l IH]; simpl; [constructor | now apply insert_by_name_sorted]. Qed.

(** Sorting leaves a sorted list as it is. *)
Lemma sort_by_name_of_sorted l : Sorted name_le l -> sort_by_name l = l.
Proof.
  induction 1 as [|x l Hl IH Hhd]; simpl; [reflexivity|].
  rewrite IH. destruct Hhd as [|y l Hxy]; simpl; [reflexivity|].
  unfold name_le in Hxy. now rewrite Hxy.
Qed.

Lemma sort_by_name_idem l : sort_by_name (sort_by_name l) = sort_by_name l.
Proof. apply sort_by_name_of_sorted, sort_by_name_sorted. Qed.

Lemma sorted_cons_all x l :
  Sorted name_le (x :: l) -> Forall (name_le x) l.
Proof.
  intros Hs. apply Sorted_StronglySorted in Hs.
  - now inversion Hs.
  - intros a b c. unfold name_le. apply leb_trans.
Qed.

(** Two entries with different names go into a sorted list in either order. *)
Lemma insert_by_name_comm x y l :
  fst x <> fst y ->
  Sorted name_le l ->
  insert_by_name x (insert_by_name y l) = insert_by_name y (insert_by_name x l).
Proof.
  intros Hne. induction 1 as [|z l Hl IH Hhd]; simpl.
  - destruct (String.leb (fst x) (fst y)) eqn:Hxy, (String.leb (fst y) (fst x)) eqn:Hyx;
      try reflexivity.
    + exfalso. apply Hne. now apply String.leb_antisym.
    + destruct (String.leb_total (fst x) (fst y)); congruence.
  - destruct (String.leb (fst y) (fst z)) eqn:Hyz, (String.leb (fst x) (fst z)) eqn:Hxz; simpl.
    + destruct (String.leb (fst x) (fst y)) eqn:Hxy, (String.leb (fst y) (fst x)) eqn:Hyx;
        rewrite ?Hxz, ?Hyz; try reflexivity.
      * exfalso. apply Hne. now apply String.leb_antisym.
      * destruct (String.leb_total (fst x) (fst y)); congruence.
    + rewrite Hyz.
      destruct (String.leb (fst x) (fst y)) eqn:Hxy.
      * rewrite (leb_trans _ _ _ Hxy Hyz) in Hxz. discriminate.
      * now rewrite Hxz.
    + rewrite Hxz.
      destruct (String.leb (fst y) (fst x)) eqn:Hyx.
      * rewrite (leb_trans _ _ _ Hyx Hxz) in Hyz. discriminate.
      * now rewrite Hyz.
    + rewrite Hxz, Hyz. now rewrite IH.
Qed.

(** Entries with pairwise different names sort to the same list from any
    order they are given in. *)
Lemma sort_by_name_permutation l l' :
  l ≡ₚ l' -> NoDup (map fst l) -> sort_by_name l = sort_by_name l'.
Proof.
  induction 1 as [|x l l' Hperm IH|x y l|l l' l'' Hperm1 IH1 Hperm2 IH2]; intros Hnd.
  - reflexivity.
  - simpl. rewrite IH; [reflexivity|]. simpl in Hnd. now inversion Hnd.
  - simpl. apply insert_by_name_comm; [|apply sort_by_name_sorted].
    simpl in Hnd. inversion Hnd as [|? ? Hnotin _]; subst.
    intros Heq. apply Hnotin. rewrite Heq. left.
  - rewrite IH1 by exact Hnd. apply IH2.
    assert (Hnames : map fst l ≡ₚ map fst l') by now apply Permutation_map.
    now rewrite <- Hnames.
Qed.

End Sorting.

Section Relisting.

Lemma canon_Dir (entries : list (string * Node)) :
  canon (Dir entries)
  = Dir (map (fun entry => (fst entry, canon (snd entry))) (sort_by_name entries)).
Proof.
  simpl. now rewrite (sort_by_name_map (fun entry => canon (snd entry))).
Qed.

(** The walk of a tree is the walk of the tree with its listings in order. *)
Lemma walk_canon {St : Type} (walkFn : WalkFunc St) (n : Node) :
  forall path, walk walkFn path (canon n) = walk walkFn path n.
Proof.
  induction n as [data|entries IH|e|e] using Node_ind; intros path; try reflexivity.
  rewrite canon_Dir, !walk_Dir.
  set (under := fun entry : string * Node => (fst entry, canon (snd entry))).
  assert (Hsorted : sort_by_name (map under (sort_by_name entries))
                    = map under (sort_by_name entries)).
  { unfold under. rewrite (sort_by_name_map (fun entry => canon (snd entry))).
    now rewrite sort_by_name_idem. }
  rewrite Hsorted, map_map. simpl.
  assert (IHs : Forall (fun entry => forall path,
                   walk walkFn path (canon (snd entry)) = walk walkFn path (snd entry))
                 (sort_by_name entries)).
  { rewrite sort_by_name_perm. exact IH. }
  assert (Hvisits :
            map (fun entry => (fst entry,
                               walk walkFn (filepath.Join [path; fst entry]) (canon (snd entry))))
                (sort_by_name entries)
            = map (fun entry => (fst entry,
                                 walk walkFn (filepath.Join [path; fst entry]) (snd entry)))
                  (sort_by_name entries)).
  { clear Hsorted. induction IHs as [|entry rest Hentry _ IHrest]; simpl; [reflexivity|].
    now rewrite Hentry, IHrest. }
  now rewrite Hvisits.
Qed.

Lemma relisted_canon (n n' : Node) : relisted n n' -> canon n = canon n'.
Proof.
  induction 1 as [n|entries entries' Hperm Hnd
                 |before name child child' after _ IH
                 |n1 n2 n3 _ IH1 _ IH2].
  - reflexivity.
  - simpl. f_equal. apply sort_by_name_permutation.
    + now apply Permutation_map.
    + now rewrite map_map.
  - simpl. rewrite !map_app. simpl. now rewrite IH.
  - congruence.
Qed.

Lemma walk_relisted {St : Type} (walkFn : WalkFunc St) (n n' : Node) (path : string) :
  relisted n n' -> walk walkFn path n = walk walkFn path n'.
Proof.
  intros Hre. rewrite <- (walk_canon walkFn n), <- (walk_canon walkFn n').
  now rewrite (relisted_canon _ _ Hre).
Qed.

End Relisting.

(** ** More on the extraction *)

Section ExtractionMore.

Context `{Collaborators}.

(** Where the extractor is entered, it is on the bytes of the object. *)
Lemma extractStagedArtifact_object (a : StagedArtifact.t) (dest : string) (w : World) :
  post (extractStagedArtifact a dest) w
       (fun err w' =>
          (is_Some err /\ trace w' = trace w) \/
          (exists data,
              objects w !! StagedArtifact.ObjectHandle a = Some data /\
              sha256hex data = ArtifactMetadata.SHA256 (StagedArtifact.Metadata a) /\
              trace w' = trace w ++ [Untar dest data] /\
              (err = None -> exists entries, readTarGz data = inr entries))).
Proof.
  unfold extractStagedArtifact.
  apply post_bind, create_temp_post.
  { intros e w1 (Ho & Hd & Hs & Ht) _ _. apply post_ret. left. split; [eauto | assumption]. }
  intros f w1 Hfresh Ho1 Hd1 Ht1 _. rewrite app_nil_r in Ht1.
  apply post_bind, NewReader_post.
  { intros e w2 (Ho & Hd & Hs & Ht) _ _. apply post_ret. left. split; [eauto | congruence]. }
  intros r w2 (Ho2 & Hd2 & Hs2 & Ht2) _ Hobj. rewrite Ho1 in Hobj.
  apply post_bind, CopyToFile_post.
  { intros e w3 (Ho & Hd & Hs & Ht) _ _. apply post_ret. left. split; [eauto | congruence]. }
  intros w3 Ho3 Hd3 Ht3 _.
  apply post_bind, fault_post. intros w4 (Ho4 & Hd4 & Hs4 & Ht4) _.
  destruct (scheduled w3) as [e|].
  { apply post_ret. left. split; [eauto | congruence]. }
  apply post_bind, fault_post. intros w5 (Ho5 & Hd5 & Hs5 & Ht5) _.
  destruct (scheduled w4) as [e|].
  { apply post_ret. left. split; [eauto | congruence]. }
  assert (Hfile : lookup_disk (disk w5) f = Some (File r)).
  { rewrite Hd5, Hd4, Hd3, Hd2, Hd1. apply lookup_disk_write_fresh.
    unfold on_disk in Hfresh. now destruct (lookup_disk (disk w) f). }
  apply post_bind, sha256SumFile_post.
  { intros e w6 (Ho & Hd & Hs & Ht) _. apply post_ret. left. split; [eauto | congruence]. }
  intros data w6 (Ho6 & Hd6 & Hs6 & Ht6) _ Hfile'.
  assert (data = r) by congruence. subst data.
  destruct (String.eqb_spec (sha256hex r)
              (ArtifactMetadata.SHA256 (StagedArtifact.Metadata a))) as [Hsum|Hsum]; simpl.
  - apply UntarGz_post. intros err w7 data' Hdata Ho7 Ht7 Hr7 Hread7.
    rewrite Hd6, Hfile in Hdata. subst data'.
    right. exists r. repeat split; try assumption. congruence.
  - apply post_ret. left. split; [eauto | congruence].
Qed.

(** The ways one extraction ends are the ways of [artifact_extracted]. *)
Lemma extractStagedArtifact_sound (a : StagedArtifact.t) (dest : string) (w w' : World)
    (err : option error) :
  extractStagedArtifact a dest w = Some (err, w') -> artifact_extracted a dest w err w'.
Proof.
  unfold extractStagedArtifact, bind.
  destruct (TempFile "temp-artifact-" w) as [[[f [e|]] w1]|] eqn:Hfile; [| |discriminate].
  { intros [= <- <-]. eapply stop_at_temp_file; eassumption. }
  destruct (NewReader (StagedArtifact.ObjectHandle a) w1) as [[[r [e|]] w2]|] eqn:Hfetch;
    [| |discriminate].
  { intros [= <- <-]. eapply stop_at_fetch; eassumption. }
  destruct (CopyToFile f r w2) as [[[e|] w3]|] eqn:Hcopy; [| |discriminate].
  { intros [= <- <-]. eapply stop_at_copy; eassumption. }
  destruct (Sync f w3) as [[[e|] w4]|] eqn:Hsync; [| |discriminate].
  { intros [= <- <-]. eapply stop_at_sync; eassumption. }
  destruct (Seek f w4) as [[[e|] w5]|] eqn:Hseek; [| |discriminate].
  { intros [= <- <-]. eapply stop_at_seek; eassumption. }
  destruct (sha256SumFile f w5) as [[[downloadedSum [e|]] w6]|] eqn:Hsum; [| |discriminate].
  { intros [= <- <-]. eapply stop_at_digest; eassumption. }
  destruct (String.eqb_spec downloadedSum
              (ArtifactMetadata.SHA256 (StagedArtifact.Metadata a))) as [Heq|Hne]; simpl.
  - intros Huntar. eapply extractor_answers; eassumption.
  - intros [= <- <-]. eapply stop_at_checksum; eassumption.
Qed.

Lemma extractStagedArtifact_complete (a : StagedArtifact.t) (dest : string) (w w' : World)
    (err : option error) :
  artifact_extracted a dest w err w' -> extractStagedArtifact a dest w = Some (err, w').
Proof.
  unfold extractStagedArtifact.
  destruct 1;
    repeat match goal with
           | Hcall : ?c ?s = Some (_, _) |- bind ?c _ ?s = _ =>
               rewrite (bind_eq _ _ _ _ _ Hcall); cbn beta iota
           end;
    try reflexivity.
  - match goal with
    | Hne : _ <> ArtifactMetadata.SHA256 _ |- _ =>
        apply String.eqb_neq in Hne; now rewrite Hne
    end.
  - match goal with
    | Heq : _ = ArtifactMetadata.SHA256 _ |- _ => apply String.eqb_eq in Heq; rewrite Heq
    end.
    simpl. assumption.
Qed.

Lemma extractStagedArtifactToTempDir_steps (a : StagedArtifact.t) (w w' : World)
    (r : string * option error) :
  extractStagedArtifactToTempDir a w = Some (r, w') <-> artifact_extracted_to_temp_dir a w r w'.
Proof.
  unfold extractStagedArtifactToTempDir. split.
  - unfold bind at 1.
    destruct (TempDir "extracted-artifact-" w) as [[[dest [e|]] w1]|] eqn:Hdir;
      [| |discriminate].
    { intros [= <- <-]. eapply stop_at_temp_dir; eassumption. }
    unfold bind.
    destruct (extractStagedArtifact a dest w1) as [[err w2]|] eqn:Hex; [|discriminate].
    intros [= <- <-]. eapply temp_dir_made; [eassumption|].
    now apply extractStagedArtifact_sound.
  - destruct 1 as [d e w1 Hdir|dest w1 err w2 Hdir Hex].
    + now rewrite (bind_eq _ _ _ _ _ Hdir).
    + rewrite (bind_eq _ _ _ _ _ Hdir). cbn beta iota.
      apply extractStagedArtifact_complete in Hex.
      now rewrite (bind_eq _ _ _ _ _ Hex).
Qed.

(** An extraction that returns no error was of an artifact that is
    accepted. *)
Lemma extractStagedArtifact_accepted (a : StagedArtifact.t) (dest : string) (w w' : World) :
  extractStagedArtifact a dest w = Some (None, w') -> archive_accepted w a.
Proof.
  intros Hrun.
  destruct (post_elim _ _ _ _ _ (extractStagedArtifact_object a dest w) Hrun)
    as [[[e He] _]|(data & Hobj & Hsum & _ & Hread)]; [discriminate|].
  destruct (Hread eq_refl) as [entries Hentries].
  now exists data, entries.
Qed.

Lemma extractStagedArtifactToTempDir_accepted (a : StagedArtifact.t) (dir : string)
    (w w' : World) :
  extractStagedArtifactToTempDir a w = Some ((dir, None), w') -> archive_accepted w a.
Proof.
  intros Hrun. apply extractStagedArtifactToTempDir_steps in Hrun.
  inversion Hrun as [|dest w1 err w2 Hdir Hex]; subst.
  apply extractStagedArtifact_complete, extractStagedArtifact_accepted in Hex.
  assert (Ho : objects w1 = objects w).
  { unfold TempDir in Hdir.
    refine (post_elim _ _ _ _ _ (create_temp_post _ _ _ w (fun _ w1 => objects w1 = objects w)
                                   _ _) Hdir).
    - now intros e w0 (Ho & _) _ _.
    - now intros name w0 _ Ho _ _ _. }
  destruct Hex as (data & entries & Hobj & Hrest). exists data, entries.
  rewrite <- Ho. now split.
Qed.

End ExtractionMore.

(** ** The shape of a digest *)

Section Digest.

Lemma be_bytes_length (n : nat) (x : Z) : length (sha256.be_bytes n x) = n.
Proof. unfold sha256.be_bytes. now rewrite length_map, length_rev, length_seq. Qed.

Lemma round_length (st : list Z) (kw : Z * Z) : length (sha256.round st kw) = length st.
Proof.
  unfold sha256.round.
  destruct st as [|a [|b [|c [|d [|e [|f [|g [|h [|i st]]]]]]]]]; reflexivity.
Qed.

Lemma rounds_length (kws : list (Z * Z)) :
  forall st, length (fold_left sha256.round kws st) = length st.
Proof.
  induction kws as [|kw kws IH]; intros st; simpl; [reflexivity|].
  now rewrite IH, round_length.
Qed.

Lemma compress_length (h block : list Z) : length (sha256.compress h block) = length h.
Proof.
  unfold sha256.compress. rewrite length_map, length_combine, rounds_length. lia.
Qed.

Lemma compress_all_length (blocks : list (list Z)) :
  forall h, length (fold_left sha256.compress blocks h) = length h.
Proof.
  induction blocks as [|b blocks IH]; intros h; simpl; [reflexivity|].
  now rewrite IH, compress_length.
Qed.

Lemma words_bytes_length (h : list Z) :
  length (concat (map (sha256.be_bytes 4) h)) = 4 * length h.
Proof.
  induction h as [|x h IH]; [reflexivity|].
  cbn [map concat]. rewrite length_app, be_bytes_length, IH. cbn [length]. lia.
Qed.

(** The digest is 32 bytes, whatever the input. *)
Lemma Sum_length (data : Bytes) : length (sha256.Sum data) = 32.
Proof.
  unfold sha256.Sum. rewrite length_map, words_bytes_length, compress_all_length.
  reflexivity.
Qed.

Lemma EncodeToString_length (src : Bytes) :
  String.length (hex.EncodeToString src) = 2 * length src.
Proof. induction src as [|b src IH]; simpl; [reflexivity | rewrite IH; lia]. Qed.

Lemma digit_lower_hex (n : N) : lower_hex (hex.digit n).
Proof.
  unfold lower_hex, hex.digit.
  destruct (nth_in_or_default (N.to_nat n) (GoString.chars "0123456789abcdef") "0"%char)
    as [Hin| ->]; [exact Hin | now left].
Qed.

Lemma EncodeToString_lower_hex (src : Bytes) :
  Forall lower_hex (GoString.chars (hex.EncodeToString src)).
Proof.
  induction src as [|b src IH]; [constructor|].
  cbn [hex.EncodeToString]. unfold GoString.chars in *. cbn [String.list_ascii_of_string].
  constructor; [apply digit_lower_hex|]. constructor; [apply digit_lower_hex | exact IH].
Qed.

Lemma sha256hex_shape (data : Bytes) :
  String.length (sha256hex data) = 64 /\
  Forall lower_hex (GoString.chars (sha256hex data)).
Proof.
  unfold sha256hex. split.
  - now rewrite EncodeToString_length, Sum_length.
  - apply EncodeToString_lower_hex.
Qed.

Lemma is_lower_hex_spec (c : ascii) : lower_hex c -> is_lower_hex c = true.
Proof.
  unfold lower_hex, is_lower_hex. intros Hin. apply existsb_exists.
  exists c. split; [exact Hin | apply Ascii.eqb_refl].
Qed.

Lemma digest_shaped_sha256hex (data : Bytes) : digest_shaped (sha256hex data) = true.
Proof.
  destruct (sha256hex_shape data) as [Hlen Hhex].
  unfold digest_shaped. rewrite Hlen. simpl. apply forallb_forall.
  intros c Hc. apply is_lower_hex_spec. rewrite List.Forall_forall in Hhex. now apply Hhex.
Qed.

End Digest.

(** ** The disk only grows *)

Section Growing.

Context `{Collaborators}.

Lemma write_root_app (root : string) (n : Node) (d0 d1 : list (string * Node)) :
  ~ In root (roots d0) ->
  write_root root n (d0 ++ d1) = d0 ++ write_root root n d1.
Proof.
  induction d0 as [|[r old] d0 IH]; simpl; intros Hnotin; [reflexivity|].
  destruct (String.eqb_spec r root) as [->|Hne]; [tauto|].
  rewrite IH; [reflexivity | tauto].
Qed.

Lemma not_on_disk_not_root (w : World) (d0 d1 : list (string * Node)) (p : string) :
  disk w = d0 ++ d1 -> on_disk w p = false -> ~ In p (roots d0).
Proof.
  intros Hd Hfresh Hin. unfold on_disk in Hfresh.
  assert (Hroot : In p (roots (disk w))).
  { rewrite Hd, roots_app. apply in_or_app. now left. }
  apply in_roots_on_disk in Hroot. now destruct (lookup_disk (disk w) p).
Qed.

(** The extractor writes under its destination or not at all. *)
Lemma UntarGz_disk (dest f : string) (w : World) :
  post (UntarGz dest f) w
       (fun err w' =>
          objects w' = objects w /\
          (disk w' = disk w \/
           exists entries, disk w' = write_root dest (Dir entries) (disk w))).
Proof.
  unfold UntarGz.
  apply post_bind, post_get.
  apply post_bind, post_modify.
  apply post_bind, fault_post. intros w1 (Ho & Hd & Hs & Ht) _.
  simpl in Ho, Hd.
  destruct (scheduled _) as [e|].
  { apply post_ret. split; [assumption | now left]. }
  destruct (readTarGz _) as [e|entries].
  { apply post_ret. split; [assumption | now left]. }
  destruct (lookup_root dest (disk w)) as [[d|old|e|e]|];
    try (apply post_ret; split; [assumption | now left]).
  apply post_bind, post_modify, post_ret.
  split; [assumption|]. right. simpl. rewrite Hd. eauto.
Qed.

(** One extraction leaves the trees that were on the disk as they were,
    when its destination is not one of them. *)
Lemma extractStagedArtifact_grows (a : StagedArtifact.t) (dest : string) (w : World)
    (d0 d1 : list (string * Node)) :
  disk w = d0 ++ d1 ->
  ~ In dest (roots d0) ->
  post (extractStagedArtifact a dest) w
       (fun err w' => objects w' = objects w /\ exists d1', disk w' = d0 ++ d1').
Proof.
  intros Hd Hdest. unfold extractStagedArtifact.
  assert (Hsame : forall w', objects w' = objects w -> disk w' = disk w ->
                             objects w' = objects w /\ exists d1', disk w' = d0 ++ d1').
  { intros w' Ho Hd'. split; [assumption|]. exists d1. congruence. }
  apply post_bind, create_temp_post.
  { intros e w1 (Ho & Hd1 & _) _ _. apply post_ret. now apply Hsame. }
  intros f w1 Hfresh Ho1 Hd1 _ _.
  assert (Hf : ~ In f (roots d0)) by (eapply not_on_disk_not_root; eassumption).
  assert (Hgrown : forall w', objects w' = objects w ->
                              disk w' = d0 ++ d1 ++ [(f, File [])] ->
                              objects w' = objects w /\ exists d1', disk w' = d0 ++ d1').
  { intros w' Ho Hd'. split; [assumption|]. eauto. }
  rewrite Hd, <- app_assoc in Hd1.
  apply post_bind, NewReader_post.
  { intros e w2 (Ho & Hd2 & _) _ _. apply post_ret. apply Hgrown; congruence. }
  intros r w2 (Ho2 & Hd2 & _) _ _.
  apply post_bind, CopyToFile_post.
  { intros e w3 (Ho & Hd3 & _) _ _. apply post_ret. apply Hgrown; congruence. }
  intros w3 Ho3 Hd3 _ _.
  rewrite Hd2, Hd1, write_root_app in Hd3 by exact Hf.
  set (d3 := write_root f (File r) (d1 ++ [(f, File [])])) in Hd3.
  assert (Hwritten : forall w', objects w' = objects w -> disk w' = d0 ++ d3 ->
                                objects w' = objects w /\ exists d1', disk w' = d0 ++ d1').
  { intros w' Ho Hd'. split; [assumption|]. eauto. }
  apply post_bind, fault_post. intros w4 (Ho4 & Hd4 & _) _.
  destruct (scheduled w3) as [e|].
  { apply post_ret. apply Hwritten; congruence. }
  apply post_bind, fault_post. intros w5 (Ho5 & Hd5 & _) _.
  destruct (scheduled w4) as [e|].
  { apply post_ret. apply Hwritten; congruence. }
  apply post_bind, sha256SumFile_post.
  { intros e w6 (Ho & Hd6 & _) _. apply post_ret. apply Hwritten; congruence. }
  intros data w6 (Ho6 & Hd6 & _) _ _.
  destruct (negb _).
  { apply post_ret. apply Hwritten; congruence. }
  eapply post_mono; [apply UntarGz_disk|].
  intros err w7 _ (Ho7 & Hd7).
  split; [congruence|].
  destruct Hd7 as [Hd7|[es Hd7]].
  - exists d3. congruence.
  - exists (write_root dest (Dir es) d3).
    rewrite Hd7, Hd6, Hd5, Hd4, Hd3. now apply write_root_app.
Qed.

(** One extraction leaves its directory, and the file it downloaded
    where the extractor was entered, among the trees after those that
    were on the disk before the directory was made. *)
Lemma extractStagedArtifact_leaves (a : StagedArtifact.t) (dest : string) (w : World)
    (d0 : list (string * Node)) (old : list (string * Node)) :
  disk w = d0 ++ [(dest, Dir old)] ->
  ~ In dest (roots d0) ->
  post (extractStagedArtifact a dest) w
       (fun err w' =>
          exists added evs,
            disk w' = d0 ++ added /\
            trace w' = trace w ++ evs /\
            (exists entries, In (dest, Dir entries) added) /\
            (forall d, ~ In (MkdirTemp d) evs) /\
            (forall dest' data, In (Untar dest' data) evs -> exists f, In (f, File data) added)).
Proof.
  intros Hd Hdest. unfold extractStagedArtifact.
  assert (Hend : forall w' added,
             disk w' = d0 ++ added -> trace w' = trace w -> In (dest, Dir old) added ->
             exists added evs,
               disk w' = d0 ++ added /\
               trace w' = trace w ++ evs /\
               (exists entries, In (dest, Dir entries) added) /\
               (forall d, ~ In (MkdirTemp d) evs) /\
               (forall dest' data, In (Untar dest' data) evs ->
                                   exists f, In (f, File data) added)).
  { intros w' added Hd' Ht' Hin. exists added, []. rewrite app_nil_r.
    repeat split; try assumption; [eauto | intros d [] | intros dest' data []]. }
  apply post_bind, create_temp_post.
  { intros e w1 (Ho & Hd1 & Hs & Ht) _ _. apply post_ret.
    apply (Hend w1 [(dest, Dir old)]); [congruence | assumption | now left]. }
  intros f w1 Hfresh Ho1 Hd1 Ht1 _. rewrite app_nil_r in Ht1.
  assert (Hf : ~ In f (roots d0)) by (eapply not_on_disk_not_root; eassumption).
  assert (Hfd : dest <> f).
  { intros <-. unfold on_disk in Hfresh.
    assert (Hroot : In dest (roots (disk w))).
    { rewrite Hd, roots_app. apply in_or_app. right. now left. }
    apply in_roots_on_disk in Hroot. now destruct (lookup_disk (disk w) dest). }
  assert (Hnone : lookup_disk (disk w) f = None).
  { unfold on_disk in Hfresh. now destruct (lookup_disk (disk w) f). }
  assert (Hd1' : disk w1 = d0 ++ [(dest, Dir old); (f, File [])]).
  { rewrite Hd1, Hd, <- app_assoc. reflexivity. }
  apply post_bind, NewReader_post.
  { intros e w2 (Ho & Hd2 & Hs & Ht) _ _. apply post_ret.
    apply (Hend w2 [(dest, Dir old); (f, File [])]); [congruence | congruence | now left]. }
  intros r w2 (Ho2 & Hd2 & Hs2 & Ht2) _ _.
  apply post_bind, CopyToFile_post.
  { intros e w3 (Ho & Hd3 & Hs & Ht) _ _. apply post_ret.
    apply (Hend w3 [(dest, Dir old); (f, File [])]); [congruence | congruence | now left]. }
  intros w3 Ho3 Hd3 Ht3 _.
  assert (Hread : lookup_disk (disk w3) f = Some (File r)).
  { rewrite Hd3, Hd2, Hd1. now apply lookup_disk_write_fresh. }
  assert (Hd3' : disk w3 = d0 ++ [(dest, Dir old); (f, File r)]).
  { rewrite Hd3, Hd2, Hd1', write_root_app by exact Hf. f_equal. simpl.
    destruct (String.eqb_spec dest f) as [|_]; [contradiction|].
    now rewrite String.eqb_refl. }
  assert (Hlast : forall w', disk w' = disk w3 -> trace w' = trace w ->
             exists added evs,
               disk w' = d0 ++ added /\
               trace w' = trace w ++ evs /\
               (exists entries, In (dest, Dir entries) added) /\
               (forall d, ~ In (MkdirTemp d) evs) /\
               (forall dest' data, In (Untar dest' data) evs ->
                                   exists f, In (f, File data) added)).
  { intros w' Hd' Ht'.
    apply (Hend w' [(dest, Dir old); (f, File r)]); [congruence | assumption | now left]. }
  apply post_bind, fault_post. intros w4 (Ho4 & Hd4 & Hs4 & Ht4) _.
  destruct (scheduled w3) as [e|].
  { apply post_ret, Hlast; congruence. }
  apply post_bind, fault_post. intros w5 (Ho5 & Hd5 & Hs5 & Ht5) _.
  destruct (scheduled w4) as [e|].
  { apply post_ret, Hlast; congruence. }
  apply post_bind, sha256SumFile_post.
  { intros e w6 (Ho & Hd6 & Hs & Ht) _. apply post_ret, Hlast; congruence. }
  intros data w6 (Ho6 & Hd6 & Hs6 & Ht6) _ _.
  destruct (negb _).
  { apply post_ret, Hlast; congruence. }
  assert (Hbytes : lookup_disk (disk w6) f = Some (File r)) by congruence.
  assert (Huntar : post (UntarGz dest f) w6
                     (fun err w7 =>
                        (objects w7 = objects w6 /\
                         (disk w7 = disk w6 \/
                          exists entries, disk w7 = write_root dest (Dir entries) (disk w6))) /\
                        trace w7 = trace w6 ++ [Untar dest r])).
  { apply (post_and _ _ _ (fun err w7 => trace w7 = trace w6 ++ [Untar dest r])
                    (UntarGz_disk dest f w6)).
    apply UntarGz_post. intros err w7 data' Hdata _ Ht7 _ _.
    rewrite Hbytes in Hdata. now subst data'. }
  eapply post_mono; [exact Huntar|]. clear Huntar.
  intros err w7 _ [[_ Hd7] Ht7].
  assert (Htrace : trace w7 = trace w ++ [Untar dest r]) by congruence.
  destruct Hd7 as [Hd7|[es Hd7]].
  - exists [(dest, Dir old); (f, File r)], [Untar dest r].
    split; [congruence|]. split; [exact Htrace|].
    split; [exists old; now left|].
    split; [intros d [[=]|[]]|].
    intros dest' data' [[= _ <-]|[]]. exists f. right. now left.
  - exists [(dest, Dir es); (f, File r)], [Untar dest r].
    split.
    { rewrite Hd7, Hd6, Hd5, Hd4, Hd3', write_root_app by exact Hdest. f_equal. simpl.
      now rewrite String.eqb_refl. }
    split; [exact Htrace|].
    split; [exists es; now left|].
    split; [intros d [[=]|[]]|].
    intros dest' data' [[= _ <-]|[]]. exists f. right. now left.
Qed.

Lemma left_on_disk_app (evs1 evs2 : list Event) (added1 added2 : list (string * Node)) :
  left_on_disk evs1 added1 -> left_on_disk evs2 added2 ->
  left_on_disk (evs1 ++ evs2) (added1 ++ added2).
Proof.
  intros [Hdirs1 Hfiles1] [Hdirs2 Hfiles2]. split.
  - intros d Hin. apply in_app_or in Hin. destruct Hin as [Hin|Hin].
    + destruct (Hdirs1 d Hin) as [es Hes]. exists es. apply in_or_app. now left.
    + destruct (Hdirs2 d Hin) as [es Hes]. exists es. apply in_or_app. now right.
  - intros dest data Hin. apply in_app_or in Hin. destruct Hin as [Hin|Hin].
    + destruct (Hfiles1 dest data Hin) as [f Hf]. exists f. apply in_or_app. now left.
    + destruct (Hfiles2 dest data Hin) as [f Hf]. exists f. apply in_or_app. now right.
Qed.

Lemma extractStagedArtifactToTempDir_leaves (a : StagedArtifact.t) (w : World) :
  post (extractStagedArtifactToTempDir a) w (fun r w' => appended w w').
Proof.
  unfold extractStagedArtifactToTempDir, TempDir.
  apply post_bind, create_temp_post.
  { intros e w1 (Ho & Hd & Hs & Ht) _ _. apply post_ret.
    exists [], []. rewrite !app_nil_r. repeat split; try assumption; intros; contradiction. }
  intros dest w1 Hfresh Ho1 Hd1 Ht1 _.
  apply post_bind.
  eapply post_mono; [apply (extractStagedArtifact_leaves a dest w1 (disk w) [] Hd1)|].
  - eapply not_on_disk_not_root; [|exact Hfresh]. symmetry. apply app_nil_r.
  - intros err w2 _ (added & evs & Hd2 & Ht2 & Hdir & Hnone & Hfiles). apply post_ret.
    exists added, (MkdirTemp dest :: evs).
    split; [exact Hd2|]. split; [rewrite Ht2, Ht1, <- app_assoc; reflexivity|]. split.
    + intros d [[= <-]|Hin]; [exact Hdir | now apply Hnone in Hin].
    + intros dest' data [[=]|Hin]. now apply (Hfiles dest').
Qed.

Lemma extractStagedArtifactToTempDir_grows (a : StagedArtifact.t) (w : World) :
  post (extractStagedArtifactToTempDir a) w
       (fun r w' => objects w' = objects w /\ exists added, disk w' = disk w ++ added).
Proof.
  unfold extractStagedArtifactToTempDir, TempDir.
  apply post_bind, create_temp_post.
  { intros e w1 (Ho & Hd & _) _ _. apply post_ret. split; [assumption|].
    exists []. now rewrite app_nil_r. }
  intros dest w1 Hfresh Ho1 Hd1 _ _.
  apply post_bind.
  eapply post_mono;
    [apply (extractStagedArtifact_grows a dest w1 (disk w) [(dest, Dir [])] Hd1)|].
  - eapply not_on_disk_not_root; [|exact Hfresh]. symmetry. apply app_nil_r.
  - intros err w2 _ (Ho2 & added & Hd2). apply post_ret.
    split; [congruence | eauto].
Qed.

Lemma servers_unpacked_grows (serverA : list StagedArtifact.t) (bundles : Bundles)
    (w w' : World) (founds : list (list (string * images.Tar)))
    (r : Bundles * option error) :
  servers_unpacked serverA bundles w founds r w' ->
  objects w' = objects w /\ exists added, disk w' = disk w ++ added.
Proof.
  assert (Hone : forall a w dir err w1,
             extractStagedArtifactToTempDir a w = Some ((dir, err), w1) ->
             objects w1 = objects w /\ exists added, disk w1 = disk w ++ added).
  { intros a w0 dir err w1 Hex.
    exact (post_elim _ _ _ _ _ (extractStagedArtifactToTempDir_grows a w0) Hex). }
  induction 1 as [bundles w
                 |a rest bundles w dir e w1 Hex
                 |a rest bundles w dir w1 paths e Hex Hscan
                 |a rest bundles w dir w1 archives found b e Hex Hscan Himg
                 |a rest bundles w dir w1 archives found b founds r w2 Hex Hscan Himg _ IH];
    try (eapply Hone; eassumption).
  - split; [reflexivity|]. exists []. now rewrite app_nil_r.
  - destruct (Hone _ _ _ _ _ Hex) as (Ho1 & added1 & Hd1).
    destruct IH as (Ho2 & added2 & Hd2).
    split; [congruence|]. exists (added1 ++ added2). rewrite Hd2, Hd1. now rewrite app_assoc.
Qed.

Lemma appended_refl (w : World) : appended w w.
Proof.
  exists [], []. rewrite !app_nil_r. repeat split; intros; contradiction.
Qed.

Lemma appended_trans (w w1 w2 : World) : appended w w1 -> appended w1 w2 -> appended w w2.
Proof.
  intros (added1 & evs1 & Hd1 & Ht1 & Hleft1) (added2 & evs2 & Hd2 & Ht2 & Hleft2).
  exists (added1 ++ added2), (evs1 ++ evs2).
  split; [rewrite Hd2, Hd1; now rewrite app_assoc|].
  split; [rewrite Ht2, Ht1; now rewrite app_assoc|].
  now apply left_on_disk_app.
Qed.

Lemma servers_unpacked_leaves (serverA : list StagedArtifact.t) (bundles : Bundles)
    (w w' : World) (founds : list (list (string * images.Tar)))
    (r : Bundles * option error) :
  servers_unpacked serverA bundles w founds r w' -> appended w w'.
Proof.
  assert (Hone : forall a w dir err w1,
             extractStagedArtifactToTempDir a w = Some ((dir, err), w1) -> appended w w1).
  { intros a w0 dir err w1 Hex.
    exact (post_elim _ _ _ _ _ (extractStagedArtifactToTempDir_leaves a w0) Hex). }
  induction 1 as [bundles w
                 |a rest bundles w dir e w1 Hex
                 |a rest bundles w dir w1 paths e Hex Hscan
                 |a rest bundles w dir w1 archives found b e Hex Hscan Himg
                 |a rest bundles w dir w1 archives found b founds r w2 Hex Hscan Himg _ IH];
    try (eapply Hone; eassumption).
  - apply appended_refl.
  - eapply appended_trans; [eapply Hone; eassumption | exact IH].
Qed.

End Growing.

Section UnpackMore.

Context `{Collaborators}.

Lemma lookup_disk_app (d added : list (string * Node)) (p : string) (n : Node) :
  lookup_disk d p = Some n -> lookup_disk (d ++ added) p = Some n.
Proof.
  induction d as [|[r t] d IH]; simpl; [discriminate|].
  destruct (find_path r t p); [tauto | exact IH].
Qed.

Lemma unpack_run_grows (s : Staged.t) (w w' : World) (r : option Unpacked.t * option error) :
  unpack_run s w r w' ->
  objects w' = objects w /\ exists added, disk w' = disk w ++ added.
Proof.
  assert (Hone : forall a w dir err w1,
             extractStagedArtifactToTempDir a w = Some ((dir, err), w1) ->
             objects w1 = objects w /\ exists added, disk w1 = disk w ++ added).
  { intros a w0 dir err w1 Hex.
    exact (post_elim _ _ _ _ _ (extractStagedArtifactToTempDir_grows a w0) Hex). }
  assert (Hboth : forall a dir err w1 serverA b founds r2 w2,
             extractStagedArtifactToTempDir a w = Some ((dir, err), w1) ->
             servers_unpacked serverA b w1 founds r2 w2 ->
             objects w2 = objects w /\ exists added, disk w2 = disk w ++ added).
  { intros a dir err w1 serverA b founds r2 w2 Hex Hservers.
    destruct (Hone _ _ _ _ _ Hex) as (Ho1 & added1 & Hd1).
    destruct (servers_unpacked_grows _ _ _ _ _ _ Hservers) as (Ho2 & added2 & Hd2).
    split; [congruence|]. exists (added1 ++ added2). rewrite Hd2, Hd1. now rewrite app_assoc. }
  destruct 1; try (eapply Hone; eassumption); try (eapply Hboth; eassumption).
  split; [reflexivity|]. exists []. now rewrite app_nil_r.
Qed.

Lemma unpack_run_leaves (s : Staged.t) (w w' : World) (r : option Unpacked.t * option error) :
  unpack_run s w r w' -> appended w w'.
Proof.
  assert (Hone : forall a w dir err w1,
             extractStagedArtifactToTempDir a w = Some ((dir, err), w1) -> appended w w1).
  { intros a w0 dir err w1 Hex.
    exact (post_elim _ _ _ _ _ (extractStagedArtifactToTempDir_leaves a w0) Hex). }
  destruct 1; try (eapply Hone; eassumption);
    try (eapply appended_trans;
         [eapply Hone; eassumption | eapply servers_unpacked_leaves; eassumption]).
  apply appended_refl.
Qed.

Lemma NewChart_ok (path : string) (w w' : World) (c : manifests.Chart) :
  NewChart path w = Some ((Some c, None), w') ->
  c = manifests.mkChart path /\
  exists data, lookup_disk (disk w) path = Some (File data) /\ loadChart data = None.
Proof.
  unfold NewChart, bind, get, ret.
  destruct (lookup_disk (disk w) path) as [[data|es|e|e]|]; try discriminate.
  destruct (loadChart data) eqn:Hload; [discriminate|].
  intros [= <- _]. split; [reflexivity|]. eauto.
Qed.

Lemma charts_built_ok (w : World) (paths : list string) (charts built : list manifests.Chart) :
  charts_built w paths charts (built, None) ->
  built = charts ++ map manifests.mkChart paths /\
  Forall (fun path => exists data,
              lookup_disk (disk w) path = Some (File data) /\ loadChart data = None) paths.
Proof.
  remember (built, @None error) as r eqn:Hr.
  induction 1 as [charts|path rest charts c e Hnew|path rest charts c r Hnew _ IH].
  - inversion Hr; subst. split; [now rewrite app_nil_r | constructor].
  - discriminate.
  - destruct (IH Hr) as [Hbuilt Hloads]. apply NewChart_ok in Hnew.
    destruct Hnew as [-> Hload]. split.
    + rewrite Hbuilt. simpl. now rewrite <- app_assoc.
    + now constructor.
Qed.

Lemma manifestArtifactForStaged_ok (s : Staged.t) (w w' : World) (a : StagedArtifact.t)
    (err : option error) :
  manifestArtifactForStaged s w = Some ((Some a, err), w') ->
  ArtifactsOfKind s "manifests" = [a].
Proof.
  destruct (ArtifactsOfKind s "manifests") as [|a0 [|b rest]] eqn:Hkind.
  - rewrite manifestArtifactForStaged_none by assumption. discriminate.
  - rewrite (manifestArtifactForStaged_one _ _ a0) by assumption. now intros [= ->].
  - rewrite (manifestArtifactForStaged_many _ _ a0 b rest) by assumption. discriminate.
Qed.

Lemma archive_accepted_objects (w w1 : World) (a : StagedArtifact.t) :
  objects w1 = objects w -> archive_accepted w1 a -> archive_accepted w a.
Proof. unfold archive_accepted. now intros ->. Qed.

(** The server artifacts that have been gone through without error are
    accepted, each of them. *)
Lemma servers_unpacked_accepted (serverA : list StagedArtifact.t) (bundles bundles' : Bundles)
    (w w' : World) (founds : list (list (string * images.Tar))) :
  servers_unpacked serverA bundles w founds (bundles', None) w' ->
  Forall (archive_accepted w) serverA.
Proof.
  remember (bundles', @None error) as r eqn:Hr.
  induction 1 as [bundles w
                 |a rest bundles w dir e w1 Hex
                 |a rest bundles w dir w1 paths e Hex Hscan
                 |a rest bundles w dir w1 archives found b e Hex Hscan Himg
                 |a rest bundles w dir w1 archives found b founds r w2 Hex Hscan Himg _ IH];
    try discriminate.
  - constructor.
  - pose proof (post_elim _ _ _ _ _ (extractStagedArtifactToTempDir_grows a w) Hex)
      as [Ho _].
    constructor; [eapply extractStagedArtifactToTempDir_accepted; eassumption|].
    eapply Forall_impl; [apply (IH Hr)|].
    intros x. now apply archive_accepted_objects.
Qed.

(** A release is assembled only from artifacts that are accepted. *)
Lemma unpack_run_accepted (s : Staged.t) (w w' : World) (u : Unpacked.t) :
  unpack_run s w (Some u, None) w' ->
  exists a,
    ArtifactsOfKind s "manifests" = [a] /\
    Forall (archive_accepted w) (a :: ArtifactsOfKind s "server").
Proof.
  inversion 1 as [| | | | | |a dir w1 chartPaths charts yamlPaths founds bundles w2
                            Hsel Hex Hscan Hcharts Hyaml Hservers]; subst.
  exists a. split; [eapply manifestArtifactForStaged_ok; eassumption|].
  pose proof (post_elim _ _ _ _ _ (extractStagedArtifactToTempDir_grows a w) Hex) as [Ho _].
  constructor; [eapply extractStagedArtifactToTempDir_accepted; eassumption|].
  eapply Forall_impl; [eapply servers_unpacked_accepted; eassumption|].
  intros x. now apply archive_accepted_objects.
Qed.

(** A chart that does not load stops the building of the charts. *)
Lemma charts_built_fail (w : World) (paths : list string) (p : string) :
  In p paths ->
  (forall c, NewChart p w <> Some ((Some c, None), w)) ->
  forall charts, exists cs e, charts_built w paths charts (cs, Some e).
Proof.
  intros Hin Hfails. induction paths as [|path rest IH]; intros charts; [destruct Hin|].
  destruct (NewChart_cases path w) as [[c Hc]|[e He]].
  - destruct Hin as [->|Hin]; [now destruct (Hfails c)|].
    destruct (IH Hin (charts ++ [c])) as (cs & e & Hbuilt).
    exists cs, e. eapply charts_next; eassumption.
  - eexists _, e. eapply charts_stop; eassumption.
Qed.

End UnpackMore.

Section BaseNames.

Import filepath GoString.

Lemma ext_loop_inv (back seen : list ascii) :
  ext_loop back seen <> [] ->
  exists l rest, back = l ++ "."%char :: rest /\ Forall plain l.
Proof.
  revert seen. induction back as [|c back IH]; intros seen; simpl; [congruence|].
  destruct (IsPathSeparator c) eqn:Hsep; [congruence|].
  destruct (Ascii.eqb_spec c ".") as [->|Hdot].
  - intros _. exists [], back. split; [reflexivity | constructor].
  - intros Hloop. destruct (IH _ Hloop) as (l & rest & -> & Hl).
    exists (c :: l), rest. split; [reflexivity|].
    constructor; [|exact Hl]. split; [exact Hsep|]. now apply Ascii.eqb_neq.
Qed.

Lemma last_element_prepends (back seen : list ascii) :
  exists m, last_element back seen = m ++ seen.
Proof.
  revert seen. induction back as [|c back IH]; intros seen; simpl.
  - now exists [].
  - destruct (IsPathSeparator c); [now exists []|].
    destruct (IH (c :: seen)) as [m Hm]. exists (m ++ [c]).
    now rewrite Hm, <- app_assoc.
Qed.

Lemma last_element_plain (l rest seen : list ascii) :
  Forall plain l ->
  last_element (l ++ rest) seen = last_element rest (rev l ++ seen).
Proof.
  intros Hl. revert seen. induction Hl as [|c l [Hsep _] _ IH]; intros seen; simpl.
  - reflexivity.
  - rewrite Hsep, IH. now rewrite <- app_assoc.
Qed.

(** A path with an extension has the extension of its base name. *)
Lemma Ext_Base (path : string) : Ext path <> "" -> Ext (Base path) = Ext path.
Proof.
  unfold Ext at 1 3. intros Hext.
  assert (Hloop : ext_loop (rev (chars path)) [] <> []).
  { intros Hnil. now rewrite Hnil in Hext. }
  destruct (ext_loop_inv _ _ Hloop) as (l & rest & Hback & Hl).
  unfold Base. destruct (String.eqb_spec path "") as [->|_]; [now destruct l|].
  rewrite Hback.
  assert (Hstrip : strip_trailing (l ++ "."%char :: rest) = l ++ "."%char :: rest).
  { destruct Hl as [|c l [Hsep _] _]; simpl; [reflexivity | now rewrite Hsep]. }
  rewrite Hstrip, last_element_plain by exact Hl. simpl.
  destruct (last_element_prepends rest ("."%char :: rev l ++ [])) as [m Hm].
  rewrite Hm.
  destruct (m ++ "."%char :: rev l ++ []) as [|c elem] eqn:Helem.
  { now destruct m. }
  rewrite <- Helem. unfold Ext. rewrite chars_of_chars.
  rewrite app_nil_r, rev_app_distr. simpl. rewrite rev_involutive, <- app_assoc. simpl.
  now rewrite !ext_loop_last_dot by exact Hl.
Qed.

End BaseNames.

Section BundleKeys.

Context `{Collaborators}.

Lemma images_classified_paths (a : StagedArtifact.t) (w : World)
    (archives : list string) (bundles bundles' : Bundles)
    (found : list (string * images.Tar)) :
  images_classified a w archives bundles found (bundles', None) ->
  map (fun p => images.tar_path (snd p)) found = archives.
Proof.
  remember (bundles', @None error) as r eqn:Hr.
  induction 1 as [bundles|archive rest bundles t e Hnew
                 |archive rest bundles t name found r Hnew Hname _ IH].
  - reflexivity.
  - discriminate.
  - simpl. rewrite (IH Hr). apply NewTar_tagged in Hnew. now destruct Hnew as [-> _].
Qed.

Lemma servers_unpacked_paths (serverA : list StagedArtifact.t)
    (bundles bundles' : Bundles) (w w' : World)
    (founds : list (list (string * images.Tar))) :
  servers_unpacked serverA bundles w founds (bundles', None) w' ->
  Forall (fun p => filepath.Ext (images.tar_path (snd p)) = ".tar") (concat founds).
Proof.
  remember (bundles', @None error) as r eqn:Hr.
  induction 1 as [bundles w
                 |a rest bundles w dir e w1 Hex
                 |a rest bundles w dir w1 paths e Hex Hscan
                 |a rest bundles w dir w1 archives found b e Hex Hscan Himg
                 |a rest bundles w dir w1 archives found b founds r w2 Hex Hscan Himg _ IH];
    try discriminate.
  - constructor.
  - simpl. apply Forall_app. split; [|now apply IH].
    apply images_classified_paths in Himg.
    apply recursiveFindWithExt_ok_inv in Hscan. destruct Hscan as (_ & t & _ & _ & Harchives).
    apply List.Forall_forall. intros p Hp.
    assert (Hin : In (images.tar_path (snd p)) archives).
    { rewrite <- Himg. now apply (in_map (fun p => images.tar_path (snd p))). }
    rewrite Harchives in Hin. now apply in_files_with_ext in Hin.
Qed.

Lemma in_with_key (k : string) (t : images.Tar) (found : list (string * images.Tar)) :
  In t (with_key k found) <-> In (k, t) found.
Proof.
  unfold with_key. rewrite in_map_iff. split.
  - intros ([k' t'] & Ht & Hin). simpl in Ht. subst t'.
    apply List.filter_In in Hin. destruct Hin as [Hin Hk]. simpl in Hk.
    apply String.eqb_eq in Hk. now subst k'.
  - intros Hin. exists (k, t). split; [reflexivity|].
    apply List.filter_In. split; [exact Hin|]. simpl. apply String.eqb_refl.
Qed.

(** Every archive the loop has gone through is filed under the key its
    path gives. *)
Lemma range_imageArchives_filed (a : StagedArtifact.t) (archives : list string)
    (bundles bundles' : Bundles) (w w' : World) :
  range_imageArchives a archives bundles w = Some ((bundles', None), w') ->
  forall archive,
    In archive archives ->
    exists name imageTar filed,
      componentNameOf archive tt = Some (name, tt) /\
      images.tar_path imageTar = archive /\
      images.tar_os imageTar = ArtifactMetadata.OS (StagedArtifact.Metadata a) /\
      images.tar_arch imageTar = ArtifactMetadata.Architecture (StagedArtifact.Metadata a) /\
      bundles' !! name = Some filed /\ In imageTar filed.
Proof.
  intros Hrun archive Hin.
  destruct (images_classified_total a w archives bundles) as (found & r & Hstages).
  pose proof (range_imageArchives_complete _ _ _ _ _ _ Hstages) as Hrun0.
  rewrite Hrun in Hrun0. injection Hrun0 as <- _.
  pose proof (images_classified_paths _ _ _ _ _ _ Hstages) as Hpaths.
  destruct (images_classified_classify _ _ _ _ _ _ Hstages) as [-> Htagged].
  rewrite <- Hpaths in Hin. apply in_map_iff in Hin.
  destruct Hin as ([name imageTar] & Hpath & Hin). simpl in Hpath.
  rewrite List.Forall_forall in Htagged.
  destruct (Htagged _ Hin) as (Hos & Harch & Hname). simpl in Hos, Harch, Hname.
  rewrite Hpath in Hname.
  assert (Hfiled : In imageTar (with_key name found)) by now apply in_with_key.
  exists name, imageTar.
  rewrite lookup_classify.
  destruct (with_key name found) as [|t l] eqn:Hkey; [destruct Hfiled|].
  eexists. repeat split; try eassumption.
  apply in_or_app. now right.
Qed.

Lemma in_concat_Forall2 {A B : Type} (P : A -> B -> Prop) (xs : list A) (ls : list (list B))
    (b : B) :
  Forall2 (fun x l => Forall (P x) l) xs ls ->
  In b (concat ls) -> exists x, In x xs /\ P x b.
Proof.
  induction 1 as [|x l xs ls Hl _ IH]; simpl; [tauto|].
  rewrite in_app_iff. intros [Hin|Hin].
  - exists x. split; [now left|]. rewrite List.Forall_forall in Hl. now apply Hl.
  - destruct (IH Hin) as (x' & Hx' & HP). exists x'. split; [now right | exact HP].
Qed.

End BundleKeys.

Section Matching.

Context `{Collaborators}.

(** When the download and the hashing go through and the digest is the
    declared one, the extractor is entered on the bytes of the object. *)
Lemma extractStagedArtifact_match (a : StagedArtifact.t) (dest : string)
    (w : World) (data : Bytes) :
  Forall (eq None) (take 7 (faults w)) ->
  pick_fresh (on_disk w) (temp_name "temp-artifact-") max_tries (serial w) <> None ->
  objects w !! StagedArtifact.ObjectHandle a = Some data ->
  sha256hex data = ArtifactMetadata.SHA256 (StagedArtifact.Metadata a) ->
  post (extractStagedArtifact a dest) w
       (fun err w' => trace w' = trace w ++ [Untar dest data]).
Proof.
  intros Hfaults Hname Hobj Hsum. unfold extractStagedArtifact.
  destruct (no_fault_step _ _ Hfaults) as [Hs0 Hf0].
  apply post_bind, create_temp_post.
  { intros e w1 _ _ [Hwhy|Hwhy]; congruence. }
  intros f w1 Hfresh Ho1 Hd1 Ht1 Hfs1. rewrite app_nil_r in Ht1.
  destruct (no_fault_step _ _ (Hf0 _ Hfs1)) as [Hs1 Hf1].
  apply post_bind, NewReader_post.
  { intros e w2 _ _ [Hwhy|Hwhy]; congruence. }
  intros r w2 (Ho2 & Hd2 & _ & Ht2) Hfs2 Hr.
  assert (r = data) by congruence. subst r.
  destruct (no_fault_step _ _ (Hf1 _ Hfs2)) as [Hs2 Hf2].
  apply post_bind, CopyToFile_post.
  { intros e w3 _ _ Hwhy; congruence. }
  intros w3 Ho3 Hd3 Ht3 Hfs3.
  destruct (no_fault_step _ _ (Hf2 _ Hfs3)) as [Hs3 Hf3].
  apply post_bind, fault_post. intros w4 (Ho4 & Hd4 & _ & Ht4) Hfs4. rewrite Hs3.
  destruct (no_fault_step _ _ (Hf3 _ Hfs4)) as [Hs4 Hf4].
  apply post_bind, fault_post. intros w5 (Ho5 & Hd5 & _ & Ht5) Hfs5. rewrite Hs4.
  destruct (no_fault_step _ _ (Hf4 _ Hfs5)) as [Hs5 Hf5].
  assert (Hfile : lookup_disk (disk w5) f = Some (File data)).
  { rewrite Hd5, Hd4, Hd3, Hd2, Hd1. apply lookup_disk_write_fresh.
    unfold on_disk in Hfresh. now destruct (lookup_disk (disk w) f). }
  apply post_bind, sha256SumFile_post.
  { intros e w6 _ [Hwhy|[Hwhy|Hwhy]]; try congruence.
    pose proof (Hf5 (set_faults (tail (faults w5)) w5) eq_refl) as Hnext.
    simpl in Hnext. destruct (tail (faults w5)); [discriminate|].
    inversion Hnext; subst. discriminate. }
  intros data' w6 (Ho6 & Hd6 & _ & Ht6) _ Hfile'.
  assert (data' = data) by congruence. subst data'.
  rewrite Hsum, String.eqb_refl. simpl.
  apply UntarGz_post. intros err w7 data0 Hdata0 _ Ht7 _.
  rewrite Hd6, Hfile in Hdata0. subst data0. congruence.
Qed.

End Matching.

(** ** Cleaning and joining paths *)

Section Cleaning.

Import filepath GoString.

Lemma IsPathSeparator_Separator : IsPathSeparator Separator = true.
Proof. reflexivity. Qed.

(** What is left after copying an element is a suffix no longer than
    what there was. *)
Lemma copy_element_length (rest : list ascii) (out : lazybuf) :
  length (fst (copy_element rest out)) <= length rest.
Proof.
  revert out. induction rest as [|c rest IH]; intros out; simpl; [lia|].
  destruct (IsPathSeparator c); simpl; [lia|]. specialize (IH (c :: out)). lia.
Qed.

Lemma copy_element_shorter (c : ascii) (rest : list ascii) (out : lazybuf) :
  IsPathSeparator c = false ->
  length (fst (copy_element (c :: rest) out)) <= length rest.
Proof. intros Hc. simpl. rewrite Hc. apply copy_element_length. Qed.

(** The loop takes no more turns than the path has bytes left. *)
Lemma clean_loop_turns (turns : nat) (rooted : bool) :
  forall (rest : list ascii) (out : lazybuf) (dotdot : nat),
    length rest <= turns ->
    clean_loop turns rooted rest out dotdot
    = clean_loop (length rest) rooted rest out dotdot.
Proof.
  induction turns as [turns IH] using lt_wf_ind. intros rest out dotdot Hlen.
  destruct rest as [|c rest1]; [now destruct turns|].
  destruct turns as [|turns]; [simpl in Hlen; lia|].
  simpl in Hlen. cbn [clean_loop length].
  assert (Hstep : forall rest' out' dotdot',
             length rest' <= length rest1 ->
             clean_loop turns rooted rest' out' dotdot'
             = clean_loop (length rest1) rooted rest' out' dotdot').
  { intros rest' out' dotdot' Hle.
    transitivity (clean_loop (length rest') rooted rest' out' dotdot').
    - apply IH; lia.
    - symmetry. apply IH; lia. }
  assert (Htail : length (tail rest1) <= length rest1) by (destruct rest1; simpl; lia).
  destruct (IsPathSeparator c) eqn:Hsep; [now apply Hstep|].
  destruct (Ascii.eqb c "." && ends_element rest1)%bool; [now apply Hstep|].
  destruct (Ascii.eqb c "." && _)%bool.
  - destruct (dotdot <? length out).
    + destruct out; now apply Hstep.
    + destruct (negb rooted); now apply Hstep.
  - pose proof (copy_element_shorter c rest1
                  (if (rooted && negb (length out =? 1)) || (negb rooted && negb (length out =? 0))
                   then Separator :: out else out) Hsep) as Hcopy.
    destruct (copy_element (c :: rest1) _) as [rest' out2]. now apply Hstep.
Qed.

Lemma ends_element_app (p q : list ascii) :
  ends_element (p ++ Separator :: q) = ends_element p.
Proof. now destruct p. Qed.

Lemma copy_element_app (p q : list ascii) (out : lazybuf) :
  copy_element (p ++ Separator :: q) out
  = (fst (copy_element p out) ++ Separator :: q, snd (copy_element p out)).
Proof.
  revert out. induction p as [|c p IH]; intros out; simpl; [reflexivity|].
  destruct (IsPathSeparator c); [reflexivity | apply IH].
Qed.

(** The loop runs through a path that goes on after a separator as it
    runs through the path up to that separator, and then goes on. *)
Lemma clean_loop_prefix (rooted : bool) (q : list ascii) (n : nat) :
  forall (p : list ascii) (out : lazybuf) (dotdot : nat),
    length p <= n ->
    clean_loop (length (p ++ Separator :: q)) rooted (p ++ Separator :: q) out dotdot
    = let '(out', dotdot') := clean_loop (length p) rooted p out dotdot in
      clean_loop (length (Separator :: q)) rooted (Separator :: q) out' dotdot'.
Proof.
  induction n as [n IH] using lt_wf_ind. intros p out dotdot Hn.
  destruct p as [|c p1]; [reflexivity|].
  assert (Hstep : forall p' out' dotdot',
             length p' <= length p1 ->
             clean_loop (length (p1 ++ Separator :: q)) rooted (p' ++ Separator :: q) out' dotdot'
             = let '(out2, dotdot2) := clean_loop (length p1) rooted p' out' dotdot' in
               clean_loop (length (Separator :: q)) rooted (Separator :: q) out2 dotdot2).
  { intros p' out' dotdot' Hle. simpl in Hn.
    rewrite clean_loop_turns by (rewrite !length_app; simpl; lia).
    rewrite (clean_loop_turns (length p1)) by exact Hle.
    apply (IH (length p1)); [lia | exact Hle]. }
  cbn [app length clean_loop].
  destruct (IsPathSeparator c) eqn:Hsep; [now apply Hstep|].
  rewrite ends_element_app.
  destruct (Ascii.eqb c "." && ends_element p1)%bool; [now apply Hstep|].
  destruct p1 as [|c1 p2].
  - (* the element is one byte *)
    cbn [app] in *.
    replace (Ascii.eqb c "." && false)%bool with false by now destruct (Ascii.eqb c ".").
    replace (Ascii.eqb c "." && (Ascii.eqb Separator "." && ends_element q))%bool with false
      by now destruct (Ascii.eqb c ".").
    cbn [app copy_element]. rewrite Hsep. cbn [copy_element].
    rewrite IsPathSeparator_Separator. apply (Hstep []). simpl. lia.
  - cbn [app tail]. rewrite ends_element_app.
    destruct (Ascii.eqb c "." && (Ascii.eqb c1 "." && ends_element p2))%bool.
    + destruct (dotdot <? length out).
      * destruct out; apply Hstep; simpl; lia.
      * destruct (negb rooted); apply Hstep; simpl; lia.
    + change (c :: c1 :: p2 ++ Separator :: q) with ((c :: c1 :: p2) ++ Separator :: q).
      rewrite copy_element_app.
      pose proof (copy_element_shorter c (c1 :: p2)
                    (if (rooted && negb (length out =? 1)) || (negb rooted && negb (length out =? 0))
                     then Separator :: out else out) Hsep) as Hcopy.
      destruct (copy_element (c :: c1 :: p2) _) as [rest' out2]. simpl fst. simpl snd.
      now apply Hstep.
Qed.

Lemma copy_element_all (l : list ascii) (out : lazybuf) :
  Forall (fun c => IsPathSeparator c = false) l ->
  copy_element l out = ([], rev l ++ out).
Proof.
  intros Hl. revert out. induction Hl as [|c l Hc _ IH]; intros out; simpl; [reflexivity|].
  rewrite Hc, IH. now rewrite <- app_assoc.
Qed.

(** An element that names an entry is copied, after a separator where
    the buffer already holds an element. *)
Lemma clean_loop_element (rooted : bool) (name : string) (out : lazybuf) (dotdot : nat) :
  names_entry name ->
  clean_loop (length (chars name)) rooted (chars name) out dotdot
  = (rev (chars name)
       ++ (if (rooted && negb (length out =? 1)) || (negb rooted && negb (length out =? 0))
           then Separator :: out else out),
     dotdot).
Proof.
  intros (Hempty & Hdot & Hdotdot & Hplain).
  destruct name as [|c name]; [congruence|].
  unfold chars in *. cbn [String.list_ascii_of_string length clean_loop] in *.
  inversion Hplain as [|c' l Hc Hrest]; subst. rewrite Hc.
  assert (Hends : forall s, Forall (fun c => IsPathSeparator c = false)
                                   (String.list_ascii_of_string s) ->
                            ends_element (String.list_ascii_of_string s) = true -> s = "").
  { intros [|c0 s]; [reflexivity|]. simpl. intros Hs Hsep.
    inversion Hs; subst. congruence. }
  destruct (Ascii.eqb_spec c ".") as [->|Hc1]; cbn [andb].
  - destruct (ends_element (String.list_ascii_of_string name)) eqn:Hone.
    { apply Hends in Hone; [|exact Hrest]. now subst name. }
    destruct name as [|c1 name]; [discriminate|].
    cbn [String.list_ascii_of_string] in *.
    inversion Hrest as [|c1' l1 Hc1 Hrest1]; subst.
    destruct (Ascii.eqb_spec c1 ".") as [->|Hc2]; cbn [andb].
    + destruct (ends_element (String.list_ascii_of_string name)) eqn:Htwo.
      { apply Hends in Htwo; [|exact Hrest1]. now subst name. }
      rewrite (copy_element_all ("."%char :: "."%char :: String.list_ascii_of_string name))
        by exact Hplain.
      now destruct (length (String.list_ascii_of_string name)).
    + rewrite (copy_element_all ("."%char :: c1 :: String.list_ascii_of_string name))
        by exact Hplain.
      now destruct (length (String.list_ascii_of_string name)).
  - rewrite (copy_element_all (c :: String.list_ascii_of_string name)) by exact Hplain.
    now destruct (length (String.list_ascii_of_string name)).
Qed.

(** One more element after a path: the buffer as the path leaves it,
    a separator where the buffer holds more than the root, the element. *)
Lemma clean_run_element (p : list ascii) (name : string) :
  p <> [] ->
  names_entry name ->
  clean_run (p ++ Separator :: chars name)
  = (rev (chars name)
       ++ (if (rooted p && negb (length (fst (clean_run p)) =? 1))
              || (negb (rooted p) && negb (length (fst (clean_run p)) =? 0))
           then Separator :: fst (clean_run p) else fst (clean_run p)),
     snd (clean_run p)).
Proof.
  intros Hp Hname. destruct p as [|c p]; [congruence|].
  assert (Hlast : forall r out dotdot,
             clean_loop (length (Separator :: chars name)) r (Separator :: chars name) out dotdot
             = (rev (chars name)
                  ++ (if (r && negb (length out =? 1)) || (negb r && negb (length out =? 0))
                      then Separator :: out else out),
                dotdot)).
  { intros r out dotdot. cbn [length clean_loop]. rewrite IsPathSeparator_Separator.
    now apply clean_loop_element. }
  unfold clean_run. cbn [app rooted tail].
  destruct (IsPathSeparator c) eqn:Hsep.
  - rewrite clean_loop_turns by (simpl; lia).
    rewrite (clean_loop_prefix true (chars name) (length p) p) by lia.
    rewrite (clean_loop_turns (length (c :: p))) by (simpl; lia).
    destruct (clean_loop (length p) true p [Separator] 1) as [out dotdot].
    now rewrite Hlast.
  - change (c :: p ++ Separator :: chars name) with ((c :: p) ++ Separator :: chars name).
    rewrite (clean_loop_prefix false (chars name) (length (c :: p)) (c :: p)) by lia.
    destruct (clean_loop (length (c :: p)) false (c :: p) [] 0) as [out dotdot].
    now rewrite Hlast.
Qed.

Lemma copy_element_onto (rest : list ascii) (out : lazybuf) :
  exists copied, snd (copy_element rest out) = copied ++ out.
Proof.
  revert out. induction rest as [|c rest IH]; intros out; simpl; [now exists []|].
  destruct (IsPathSeparator c); [now exists []|].
  destruct (IH (c :: out)) as [copied Hcopied]. exists (copied ++ [c]).
  now rewrite Hcopied, <- app_assoc.
Qed.

Lemma back_to_separator_root (c : ascii) (o : lazybuf) :
  exists o', back_to_separator 1 c (o ++ [Separator]) = o' ++ [Separator].
Proof.
  revert c. induction o as [|c' o IH]; intros c.
  - now exists [].
  - cbn [app back_to_separator]. destruct (_ && _)%bool; [apply IH|].
    now exists (c' :: o).
Qed.

(** A rooted path keeps its root: the separator written first is never
    taken back. *)
Lemma clean_loop_keeps_root (turns : nat) :
  forall (rest : list ascii) (o : lazybuf),
  exists o', clean_loop turns true rest (o ++ [Separator]) 1 = (o' ++ [Separator], 1).
Proof.
  induction turns as [|turns IH]; intros rest o.
  { exists o. now destruct rest. }
  destruct rest as [|c rest1]; [now exists o|].
  cbn [clean_loop].
  destruct (IsPathSeparator c); [apply IH|].
  destruct (Ascii.eqb c "." && ends_element rest1)%bool; [apply IH|].
  destruct (Ascii.eqb c "." && _)%bool.
  - destruct (1 <? length (o ++ [Separator])) eqn:Hlen.
    + destruct o as [|last o]; [discriminate|]. cbn [app].
      destruct (back_to_separator_root last o) as [o' ->]. apply IH.
    + cbn [negb]. apply IH.
  - set (out1 := if (_ || _)%bool then Separator :: o ++ [Separator] else o ++ [Separator]).
    assert (Hout1 : exists o1, out1 = o1 ++ [Separator]).
    { unfold out1. destruct (_ || _)%bool; [now exists (Separator :: o) | now exists o]. }
    destruct Hout1 as [o1 ->].
    destruct (copy_element_onto (c :: rest1) (o1 ++ [Separator])) as [copied Hcopied].
    destruct (copy_element (c :: rest1) _) as [rest' out2]. simpl in Hcopied. subst out2.
    rewrite app_assoc. apply IH.
Qed.

Lemma clean_run_rooted (p : list ascii) :
  rooted p = true -> exists o, fst (clean_run p) = o ++ [Separator].
Proof.
  intros Hrooted. unfold clean_run. rewrite Hrooted.
  destruct (clean_loop_keeps_root (length p) (tail p) []) as [o Ho].
  simpl in Ho. rewrite Ho. now exists o.
Qed.

Lemma of_chars_cons (c : ascii) (l : list ascii) : of_chars (c :: l) = String c (of_chars l).
Proof. reflexivity. Qed.

Lemma chars_nil (s : string) : chars s = [] -> s = "".
Proof. now destruct s. Qed.

(** [Clean] of a path with one more element, in terms of the buffer the
    path leaves. *)
Lemma Clean_element (p name : string) :
  p <> "" ->
  names_entry name ->
  Clean (p +:+ "/" +:+ name)
  = of_chars (rev (if (rooted (chars p) && negb (length (fst (clean_run (chars p))) =? 1))
                      || (negb (rooted (chars p))
                          && negb (length (fst (clean_run (chars p))) =? 0))
                   then Separator :: fst (clean_run (chars p))
                   else fst (clean_run (chars p))))
    +:+ name.
Proof.
  intros Hp Hname. unfold Clean.
  destruct (String.eqb_spec (p +:+ "/" +:+ name) "") as [Hempty|_].
  { destruct p; [congruence | discriminate]. }
  rewrite !chars_app. change (chars "/") with [Separator]. cbn [app].
  rewrite clean_run_element; [|intros Hnil; now apply chars_nil in Hnil|exact Hname].
  cbn [fst]. set (out1 := if (_ || _)%bool then _ else _).
  destruct (rev (chars name) ++ out1) as [|c out] eqn:Hout.
  { destruct Hname as (Hempty & _). apply app_eq_nil in Hout. destruct Hout as [Hrev _].
    apply (f_equal (@rev ascii)) in Hrev. rewrite rev_involutive in Hrev.
    now apply chars_nil in Hrev. }
  rewrite <- Hout, rev_app_distr, rev_involutive, of_chars_app.
  now rewrite of_chars_chars.
Qed.

(** A path that is clean stays as it is when an element is joined on. *)
Lemma Clean_stable_element (p name : string) :
  Clean p = p -> p <> "." -> p <> "/" ->
  names_entry name ->
  Clean (p +:+ "/" +:+ name) = p +:+ "/" +:+ name.
Proof.
  intros Hclean Hdot Hroot Hname.
  assert (Hp : p <> "") by (intros ->; discriminate).
  rewrite Clean_element by assumption.
  unfold Clean in Hclean. destruct (String.eqb_spec p "") as [|_]; [congruence|].
  destruct (fst (clean_run (chars p))) as [|c out] eqn:Hout; [congruence|].
  rewrite <- Hout in Hclean |- *.
  assert (Hlen : length (fst (clean_run (chars p))) = String.length p).
  { rewrite <- Hclean at 2. unfold of_chars.
    rewrite <- (length_rev (fst (clean_run (chars p)))).
    generalize (rev (fst (clean_run (chars p)))). intros l.
    induction l as [|c0 l IH]; simpl; [reflexivity | now rewrite IH]. }
  assert (Hsep : ((rooted (chars p) && negb (length (fst (clean_run (chars p))) =? 1))
                  || (negb (rooted (chars p))
                      && negb (length (fst (clean_run (chars p))) =? 0)))%bool = true).
  { rewrite Hlen. destruct p as [|c0 [|c1 p]]; [congruence| |].
    - simpl. destruct (IsPathSeparator c0) eqn:Hc0; [|reflexivity].
      apply Ascii.eqb_eq in Hc0. now subst c0.
    - simpl. now destruct (IsPathSeparator c0). }
  rewrite Hsep. cbn [rev]. rewrite of_chars_app, Hclean.
  change (of_chars [Separator]) with "/". now rewrite string_app_assoc.
Qed.

(** An element that names an entry is clean. *)
Lemma Clean_entry (name : string) : names_entry name -> Clean name = name.
Proof.
  intros Hname. pose proof Hname as (Hempty & _ & _ & Hplain).
  unfold Clean. destruct (String.eqb_spec name "") as [|_]; [congruence|].
  unfold clean_run.
  assert (Hrooted : rooted (chars name) = false).
  { destruct name as [|c name]; [congruence|]. now inversion Hplain. }
  rewrite Hrooted, (clean_loop_element false name [] 0 Hname). simpl.
  rewrite app_nil_r.
  destruct (rev (chars name)) as [|c l] eqn:Hrev.
  { apply (f_equal (@rev ascii)) in Hrev. rewrite rev_involutive in Hrev.
    now apply chars_nil in Hrev. }
  change (rev l ++ [c]) with (rev (c :: l)).
  rewrite <- Hrev, rev_involutive. apply of_chars_chars.
Qed.

(** Whatever the path, the element joined on comes last, after a
    separator or alone. *)
Lemma Clean_ends_with_element (p name : string) :
  p <> "" ->
  names_entry name ->
  exists d, Clean (p +:+ "/" +:+ name) = d +:+ name /\ (d = "" \/ exists d', d = d' +:+ "/").
Proof.
  intros Hp Hname. rewrite Clean_element by assumption.
  destruct (rooted (chars p)) eqn:Hrooted; cbn [andb orb negb].
  - destruct (clean_run_rooted _ Hrooted) as [o Ho]. rewrite Ho.
    destruct o as [|c o].
    + exists "/". split; [reflexivity|]. right. now exists "".
    + assert (Hlen : negb (length ((c :: o) ++ [Separator]) =? 1) = true).
      { cbn [app length]. rewrite length_app. simpl. now rewrite Nat.add_1_r. }
      rewrite Hlen. cbn [orb rev]. rewrite of_chars_app.
      eexists. split; [reflexivity|]. right. now eexists.
  - destruct (fst (clean_run (chars p))) as [|c out].
    + exists "". split; [reflexivity | now left].
    + cbn [length Nat.eqb negb rev]. rewrite of_chars_app.
      eexists. split; [reflexivity|]. right. now eexists.
Qed.

End Cleaning.

(** ** Names and paths of the staging command *)

Section Joining.

Import filepath GoString.

Lemma strings_Join_snoc (l : list string) (x sep : string) :
  l <> [] -> strings_Join (l ++ [x]) sep = strings_Join l sep +:+ sep +:+ x.
Proof.
  induction l as [|e l IH]; [congruence|]. intros _.
  destruct l as [|e' l]; [reflexivity|].
  change (strings_Join ((e :: e' :: l) ++ [x]) sep)
    with (e +:+ sep +:+ strings_Join ((e' :: l) ++ [x]) sep).
  rewrite IH by discriminate.
  change (strings_Join (e :: e' :: l) sep) with (e +:+ sep +:+ strings_Join (e' :: l) sep).
  now rewrite !string_app_assoc.
Qed.

Lemma strings_Join_nonempty (e : string) (l : list string) (sep : string) :
  e <> "" -> strings_Join (e :: l) sep <> "".
Proof.
  intros He. destruct e as [|c e]; [congruence|]. now destruct l.
Qed.

Lemma join_nonempty (e : string) (l : list string) :
  e <> "" -> join (e :: l) = Clean (strings_Join (e :: l) "/").
Proof.
  intros He. cbn [join]. destruct (String.eqb_spec e "") as [|_]; [congruence | reflexivity].
Qed.

(** Onto a clean path, elements that name entries are joined as they are. *)
Lemma Join_clean (p : string) (names : list string) :
  Clean p = p -> p <> "." -> p <> "/" ->
  Forall names_entry names ->
  Join (p :: names) = strings_Join (p :: names) "/".
Proof.
  intros Hclean Hdot Hroot Hnames.
  assert (Hp : p <> "") by (intros ->; discriminate).
  unfold Join. rewrite join_nonempty by exact Hp.
  enough (Hall : Clean (strings_Join (p :: names) "/") = strings_Join (p :: names) "/"
                 /\ strings_Join (p :: names) "/" <> "."
                 /\ strings_Join (p :: names) "/" <> "/") by apply Hall.
  induction names as [|name names IH] using rev_ind; [now repeat split|].
  apply Forall_app in Hnames. destruct Hnames as [Hnames Hname].
  inversion Hname as [|x l Hentry _]; subst.
  destruct (IH Hnames) as (IHclean & IHdot & IHroot).
  change (p :: names ++ [name]) with ((p :: names) ++ [name]).
  rewrite strings_Join_snoc by discriminate.
  split; [now apply Clean_stable_element|].
  pose proof (strings_Join_nonempty p names "/" Hp) as Hne.
  destruct (strings_Join (p :: names) "/") as [|c [|c' rest]]; [congruence| |];
    split; discriminate.
Qed.

(** After a separator, or alone, an element is the base name. *)
Lemma Base_ends_with_element (d name : string) :
  names_entry name ->
  d = "" \/ (exists d', d = d' +:+ "/") ->
  Base (d +:+ name) = name.
Proof.
  intros (Hempty & _ & _ & Hplain) Hd. unfold Base.
  destruct (String.eqb_spec (d +:+ name) "") as [Hnil|_].
  { exfalso. destruct d; [now apply Hempty | discriminate]. }
  rewrite chars_app, rev_app_distr.
  assert (Hrev : Forall (fun c => IsPathSeparator c = false) (rev (chars name)))
    by now apply Forall_rev.
  assert (Hstrip : forall rest, strip_trailing (rev (chars name) ++ rest)
                                = rev (chars name) ++ rest).
  { intros rest. destruct (rev (chars name)) as [|c l] eqn:Hl.
    - apply (f_equal (@rev ascii)) in Hl. rewrite rev_involutive in Hl.
      now apply chars_nil in Hl.
    - inversion Hrev as [|c0 l0 Hc _]; subst. simpl. now rewrite Hc. }
  rewrite Hstrip.
  assert (Helem : last_element (rev (chars name) ++ rev (chars d)) [] = chars name).
  { destruct Hd as [->|[d' ->]].
    - simpl. rewrite app_nil_r.
      assert (Hall : forall l seen, Forall (fun c => IsPathSeparator c = false) l ->
                                    last_element l seen = rev l ++ seen).
      { intros l seen Hl. revert seen. induction Hl as [|c l Hc _ IH]; intros seen; simpl.
        - reflexivity.
        - rewrite Hc, IH. now rewrite <- app_assoc. }
      rewrite Hall by exact Hrev. now rewrite rev_involutive, app_nil_r.
    - rewrite chars_app, rev_app_distr. change (rev (chars "/")) with [Separator].
      cbn [app]. rewrite last_element_after_separator by exact Hrev.
      now rewrite rev_involutive, app_nil_r. }
  rewrite Helem. destruct (chars name) as [|c l] eqn:Hl.
  - now apply chars_nil in Hl.
  - rewrite <- Hl. apply of_chars_chars.
Qed.

Lemma join_Base (e : string) (l : list string) (name : string) :
  e <> "" ->
  names_entry name ->
  Base (join ((e :: l) ++ [name])) = name.
Proof.
  intros He Hname.
  change ((e :: l) ++ [name]) with (e :: (l ++ [name])).
  rewrite join_nonempty by exact He.
  change (e :: (l ++ [name])) with ((e :: l) ++ [name]).
  rewrite strings_Join_snoc by discriminate.
  destruct (Clean_ends_with_element (strings_Join (e :: l) "/") name
              (strings_Join_nonempty e l "/" He) Hname) as (d & -> & Hd).
  now apply Base_ends_with_element.
Qed.

(** The base name of an entry of a directory is the entry's name, however
    the directory is spelled. *)
Lemma Base_Join (dir name : string) :
  names_entry name -> Base (Join [dir; name]) = name.
Proof.
  intros Hname. unfold Join. destruct (String.eqb_spec dir "") as [->|Hdir].
  - cbn [join String.eqb negb]. pose proof Hname as (Hempty & _).
    destruct (String.eqb_spec name "") as [|_]; [contradiction|].
    cbn [negb strings_Join]. rewrite Clean_entry by exact Hname.
    apply (Base_ends_with_element "" name Hname). now left.
  - apply (join_Base dir [] name Hdir Hname).
Qed.

Lemma is_entry_name_spec (name : string) : is_entry_name name = true -> names_entry name.
Proof.
  unfold is_entry_name. rewrite !andb_true_iff, !negb_true_iff.
  intros [[[Hempty Hdot] Hdotdot] Hplain].
  repeat split; try (intros ->; discriminate).
  rewrite forallb_forall in Hplain. apply List.Forall_forall. intros c Hc.
  specialize (Hplain c Hc). now apply negb_true_iff in Hplain.
Qed.

(** Below a clean path, a file of a tree whose listings hold names of
    entries lies at the tree's own path or below it. *)
Lemma file_at_under (path p : string) (n : Node) :
  file_at path n p ->
  entries_named n = true ->
  Clean path = path -> path <> "." -> path <> "/" ->
  p = path \/ exists rest, p = path +:+ "/" +:+ rest.
Proof.
  induction 1 as [path data|path entries name child p Hin _ IH];
    intros Hnamed Hclean Hdot Hroot.
  - now left.
  - right. cbn [entries_named] in Hnamed. rewrite forallb_forall in Hnamed.
    specialize (Hnamed _ Hin). apply andb_true_iff in Hnamed.
    destruct Hnamed as [Hname Hchild]. apply is_entry_name_spec in Hname.
    assert (Hjoin : Join [path; name] = path +:+ "/" +:+ name).
    { apply (Join_clean path [name]); try assumption. now constructor. }
    rewrite Hjoin in IH.
    assert (Hp : path <> "") by (intros ->; discriminate).
    destruct IH as [->|[rest ->]].
    + exact Hchild.
    + now apply Clean_stable_element.
    + destruct path as [|c [|c' path]]; [congruence | |]; intros Heq; simpl in Heq;
        discriminate Heq.
    + destruct path as [|c [|c' path]]; [congruence | |]; intros Heq; simpl in Heq;
        discriminate Heq.
    + now exists name.
    + exists (name +:+ "/" +:+ rest). now rewrite !string_app_assoc.
Qed.

(** Artifacts whose names name entries have different archives. *)
Lemma buildArtifactPath_inj (repoRoot : string) (dirs : list string) (n1 n2 : string) :
  names_entry n1 -> names_entry n2 ->
  cmd.buildArtifactPath repoRoot (dirs ++ [n1]) = cmd.buildArtifactPath repoRoot (dirs ++ [n2]) ->
  n1 = n2.
Proof.
  intros H1 H2 Heq. apply (f_equal Base) in Heq. revert Heq.
  unfold cmd.buildArtifactPath, Join.
  destruct (String.eqb_spec repoRoot "") as [->|Hroot].
  - change (Base (join (("bazel-bin" :: dirs) ++ [n1]))
            = Base (join (("bazel-bin" :: dirs) ++ [n2])) -> n1 = n2).
    rewrite (join_Base "bazel-bin" dirs n1), (join_Base "bazel-bin" dirs n2);
      try assumption; try discriminate. trivial.
  - change ([repoRoot; "bazel-bin"] ++ dirs ++ [n1])
      with ((repoRoot :: "bazel-bin" :: dirs) ++ [n1]).
    change ([repoRoot; "bazel-bin"] ++ dirs ++ [n2])
      with ((repoRoot :: "bazel-bin" :: dirs) ++ [n2]).
    rewrite !join_Base by assumption. trivial.
Qed.

Lemma option_map_env_key (prefix value : string) :
  Forall (fun c => Ascii.eqb c "=" = false) (chars prefix) ->
  env_key (prefix +:+ "=" +:+ value) = Some prefix.
Proof.
  unfold chars. induction prefix as [|c prefix IH]; simpl; intros Hprefix; [reflexivity|].
  inversion Hprefix as [|c0 l Hc Hrest]; subst. rewrite Hc, IH by exact Hrest. reflexivity.
Qed.

Lemma last_snoc_Some {A : Type} (l : list A) (x : A) : last (l ++ [x]) = Some x.
Proof. induction l as [|y [|z l] IH]; try reflexivity. exact IH. Qed.

End Joining.

Section Staging.

Lemma cmd_sha256SumFile_post (filename : string) (w : World)
    (Q : string * option error -> World -> Prop) :
  (forall e w',
      quiet w w' ->
      scheduled w = Some e \/
      (forall data, lookup_disk (disk w) filename <> Some (File data)) \/
      default None (head (tail (faults w))) = Some e ->
      Q ("", Some e) w') ->
  (forall data w',
      quiet w w' ->
      faults w' = tail (tail (faults w)) ->
      lookup_disk (disk w) filename = Some (File data) ->
      Q (sha256hex data, None) w') ->
  post (cmd.sha256SumFile filename) w Q.
Proof. exact (sha256SumFile_post filename w Q). Qed.

(** The step of [appendArtifactWithPostprocess] that runs the
    post-processing, if there is any. *)
Lemma appendArtifactWithPostprocess_post (artifacts : list ArtifactMetadata.t)
    (repoPath name os arch : string) (postprocess : option cmd.postprocessFunc)
    (w : World) (Q : list ArtifactMetadata.t * option error -> World -> Prop) :
  post (match postprocess with
        | Some postprocess =>
            postprocess (cmd.buildArtifactPath repoPath ["build"; "release-tars"; name])
        | None => ret None
        end) w
       (fun err w1 =>
          match err with
          | Some e =>
              Q (artifacts,
                 Some (Wrapf cmd.failed_to_postprocess
                             (cmd.buildArtifactPath repoPath ["build"; "release-tars"; name]) e))
                w1
          | None =>
              (forall e w',
                  quiet w1 w' ->
                  scheduled w1 = Some e \/
                  (forall data,
                      lookup_disk (disk w1)
                        (cmd.buildArtifactPath repoPath ["build"; "release-tars"; name])
                      <> Some (File data)) \/
                  default None (head (tail (faults w1))) = Some e ->
                  Q (artifacts,
                     Some (Wrapf cmd.failed_to_compute_sha256sum
                                 (cmd.buildArtifactPath repoPath ["build"; "release-tars"; name])
                                 e))
                    w') /\
              (forall data w',
                  quiet w1 w' ->
                  faults w' = tail (tail (faults w1)) ->
                  lookup_disk (disk w1)
                    (cmd.buildArtifactPath repoPath ["build"; "release-tars"; name])
                  = Some (File data) ->
                  Q (artifacts ++ [ArtifactMetadata.mk name (sha256hex data) os arch], None) w')
          end) ->
  post (cmd.appendArtifactWithPostprocess artifacts repoPath name os arch postprocess) w Q.
Proof.
  intros Hpost. unfold cmd.appendArtifactWithPostprocess.
  apply post_bind. eapply post_mono; [exact Hpost|].
  intros [e|] w1 _ Hnext; [now apply post_ret|].
  destruct Hnext as [Hfail Hok].
  apply post_bind, cmd_sha256SumFile_post.
  - intros e w' Hquiet Hwhy. apply post_ret. now apply Hfail.
  - intros data w' Hquiet Hfaults Hfile. apply post_ret. now apply Hok.
Qed.

(** A record appended by [appendArtifact] has the digest of the file that
    was at the artifact's path. *)
Lemma appendArtifact_inv (artifacts artifacts' : list ArtifactMetadata.t)
    (repoPath name os arch : string) (w w' : World) :
  cmd.appendArtifact artifacts repoPath name os arch w = Some ((artifacts', None), w') ->
  exists data,
    lookup_disk (disk w) (cmd.buildArtifactPath repoPath ["build"; "release-tars"; name])
    = Some (File data) /\
    artifacts' = artifacts ++ [ArtifactMetadata.mk name (sha256hex data) os arch].
Proof.
  intros Hrun.
  refine (post_elim _ _ _ _
            (fun r w' =>
               snd r = None ->
               exists data,
                 lookup_disk (disk w)
                   (cmd.buildArtifactPath repoPath ["build"; "release-tars"; name])
                 = Some (File data) /\
                 fst r = artifacts ++ [ArtifactMetadata.mk name (sha256hex data) os arch])
            _ Hrun eq_refl).
  apply appendArtifactWithPostprocess_post, post_ret. split.
  - intros e w1 _ _. discriminate.
  - intros data w1 _ _ Hfile _. now exists data.
Qed.

End Staging.

(** ** The staging command, call by call *)

Section Run.

Context `{cmd.Stager}.

(** A subprocess returns and leaves the bucket alone; so does the
    signing. *)
Hypothesis Run_keeps_bucket :
  forall wd env name args w,
    post (cmd.Run wd env name args) w (fun _ w' => objects w' = objects w).
Hypothesis sign_keeps_bucket :
  forall key path version w,
    post (cmd.CertManagerManifests key path version) w (fun _ w' => objects w' = objects w).

Lemma files_same_refl (except : list string) (w : World) : files_same except w w.
Proof. now intros p data _ Hfile. Qed.

Lemma files_same_quiet (except : list string) (w w' : World) :
  quiet w w' -> files_same except w w'.
Proof. intros (_ & Hdisk & _) p data _ Hfile. now rewrite Hdisk. Qed.

Lemma files_same_trans (e1 e2 : list string) (w1 w2 w3 : World) :
  files_same e1 w1 w2 -> files_same e2 w2 w3 -> files_same (e1 ++ e2) w1 w3.
Proof.
  intros H12 H23 p data Hp Hfile. apply H23, H12; try assumption.
  - intros Hin. apply Hp, in_or_app. now right.
  - intros Hin. apply Hp, in_or_app. now left.
Qed.

Lemma kept_refl (w : World) : kept [] w w.
Proof. split; [reflexivity|]. intros _. apply files_same_refl. Qed.

Lemma kept_quiet (w w' : World) : quiet w w' -> kept [] w w'.
Proof.
  intros Hquiet. split; [apply Hquiet|]. intros _. now apply files_same_quiet.
Qed.

Lemma kept_trans (e1 e2 : list string) (w1 w2 w3 : World) :
  kept e1 w1 w2 -> kept e2 w2 w3 -> kept (e1 ++ e2) w1 w3.
Proof.
  intros [Ho12 Hf12] [Ho23 Hf23]. split; [congruence|].
  intros Hkept. eapply files_same_trans; eauto.
Qed.

Lemma Run_post (wd : string) (env : option (list string)) (name : string)
    (args : list string) (w : World) (Q : string * option error -> World -> Prop) :
  (forall r w', kept [] w w' -> Q r w') ->
  post (cmd.Run wd env name args) w Q.
Proof.
  intros HQ. eapply post_mono; [apply Run_keeps_bucket|].
  intros r w' Hrun Hbucket. apply HQ. split; [exact Hbucket|].
  intros [Hfiles _]. eapply Hfiles. exact Hrun.
Qed.

Lemma runCmdWithEnv_post (wd : string) (env : option (list string)) (name : string)
    (args : list string) (w : World) (Q : option error -> World -> Prop) :
  (forall err w', kept [] w w' -> Q err w') ->
  post (cmd.runCmdWithEnv wd env name args) w Q.
Proof.
  intros HQ. unfold cmd.runCmdWithEnv.
  apply post_bind, Run_post. intros [out err] w' Hkept. apply post_ret. now apply HQ.
Qed.

Lemma readGitRef_post (wd : string) (w : World) (Q : string * option error -> World -> Prop) :
  (forall r w', kept [] w w' -> Q r w') ->
  post (cmd.readGitRef wd) w Q.
Proof.
  intros HQ. unfold cmd.readGitRef.
  apply post_bind, Run_post. intros [out [e|]] w' Hkept; apply post_ret; now apply HQ.
Qed.

Lemma readBazelVersion_post (wd : string) (w : World)
    (Q : string * option error -> World -> Prop) :
  (forall r w', kept [] w w' -> Q r w') ->
  post (cmd.readBazelVersion wd) w Q.
Proof.
  intros HQ. unfold cmd.readBazelVersion, cmd.runBazel.
  apply post_bind, runCmdWithEnv_post. intros [e|] w1 Hkept1; [now apply post_ret, HQ|].
  unfold cmd.ReadFile. apply post_bind, Open_post.
  - intros e w2 Hquiet _ _. apply post_ret, HQ.
    apply (kept_trans [] [] _ _ _ Hkept1). now apply kept_quiet.
  - intros data w2 Hquiet _ _. apply post_ret, HQ.
    apply (kept_trans [] [] _ _ _ Hkept1). now apply kept_quiet.
Qed.

Lemma appendArtifact_post (artifacts : list ArtifactMetadata.t)
    (repoPath name os arch : string) (w : World)
    (Q : list ArtifactMetadata.t * option error -> World -> Prop) :
  (forall e w', quiet w w' -> Q (artifacts, Some e) w') ->
  (forall data w',
      quiet w w' ->
      lookup_disk (disk w) (cmd.buildArtifactPath repoPath ["build"; "release-tars"; name])
      = Some (File data) ->
      Q (artifacts ++ [ArtifactMetadata.mk name (sha256hex data) os arch], None) w') ->
  post (cmd.appendArtifact artifacts repoPath name os arch) w Q.
Proof.
  intros Hfail Hok. unfold cmd.appendArtifact.
  apply appendArtifactWithPostprocess_post, post_ret. split.
  - intros e w' Hquiet _. now apply Hfail.
  - intros data w' Hquiet _ Hfile. now apply Hok.
Qed.

Lemma recorded_files_same (repoPath : string) (w w' : World) (a : ArtifactMetadata.t) :
  files_same [] w w' -> recorded repoPath w a -> recorded repoPath w' a.
Proof.
  intros Hsame (data & Hfile & Hsum). exists data. split; [|exact Hsum].
  apply Hsame; [now intros [] | exact Hfile].
Qed.

Lemma built_so_far_kept (o : gcbStageOptions.t) (targetOSes : cmd.OSList)
    (targetArches : cmd.ArchList) (releaseVersion : string) (w w' : World)
    (artifacts : list ArtifactMetadata.t) :
  kept [] w w' ->
  built_so_far o targetOSes targetArches releaseVersion w artifacts ->
  built_so_far o targetOSes targetArches releaseVersion w' artifacts.
Proof.
  intros [_ Hfiles] [Htargets Hrecorded]. split; [exact Htargets|].
  intros Hkept. eapply List.Forall_impl; [|apply Hrecorded, Hkept].
  intros a. apply recorded_files_same. now apply Hfiles.
Qed.

Lemma built_so_far_snoc (o : gcbStageOptions.t) (targetOSes : cmd.OSList)
    (targetArches : cmd.ArchList) (releaseVersion : string) (w w' : World)
    (artifacts : list ArtifactMetadata.t) (name os arch : string) (data : Bytes) :
  quiet w w' ->
  lookup_disk (disk w)
    (cmd.buildArtifactPath (gcbStageOptions.RepoPath o) ["build"; "release-tars"; name])
  = Some (File data) ->
  from_target targetOSes targetArches releaseVersion
              (ArtifactMetadata.mk name (sha256hex data) os arch) ->
  built_so_far o targetOSes targetArches releaseVersion w artifacts ->
  built_so_far o targetOSes targetArches releaseVersion w'
               (artifacts ++ [ArtifactMetadata.mk name (sha256hex data) os arch]).
Proof.
  intros Hquiet Hfile Htarget Hbuilt.
  apply (built_so_far_kept _ _ _ _ _ _ _ (kept_quiet _ _ Hquiet)) in Hbuilt.
  destruct Hbuilt as [Htargets Hrecorded]. split.
  - apply Forall_app. split; [exact Htargets | now constructor].
  - intros Hkept. apply Forall_app. split; [now apply Hrecorded|].
    constructor; [|constructor]. exists data. split; [|reflexivity].
    destruct Hquiet as (_ & Hdisk & _). unfold artifact_file. simpl. now rewrite Hdisk.
Qed.

Section Targets.

Variables (o : gcbStageOptions.t) (targetOSes : cmd.OSList) (targetArches : cmd.ArchList)
          (releaseVersion : string).

Lemma range_kinds_post (osVariant arch : string) (kinds : list string) :
  In osVariant (cmd.OSList_List targetOSes) ->
  In arch (default [] (cmd.ArchitecturesPerOS !! osVariant)) ->
  cmd.ArchList_Has targetArches arch = true ->
  cmd.IsClientOS osVariant = true ->
  cmd.CmctlIsShipped releaseVersion = true ->
  incl kinds ["kubectl-cert_manager"; "cmctl"] ->
  forall (artifacts : list ArtifactMetadata.t) (w : World),
    built_so_far o targetOSes targetArches releaseVersion w artifacts ->
    post (cmd.range_kinds o osVariant arch kinds artifacts) w
         (fun r w' =>
            quiet w w' /\
            (snd r = None ->
             built_so_far o targetOSes targetArches releaseVersion w' (fst r))).
Proof.
  intros Hos Harch Hhas Hclient Hshipped.
  induction kinds as [|kind kinds IH]; intros Hkinds artifacts w Hbuilt.
  - apply post_ret. split; [apply quiet_refl | now intros _].
  - cbn [cmd.range_kinds]. apply post_bind, appendArtifact_post.
    + intros e w1 Hquiet. apply post_ret. split; [exact Hquiet | discriminate].
    + intros data w1 Hquiet Hfile.
      eapply post_mono; [apply IH|].
      * intros k Hk. apply Hkinds. now right.
      * eapply built_so_far_snoc; try eassumption.
        repeat split; try assumption. right. repeat split; try assumption.
        exists kind. split; [apply Hkinds; now left | reflexivity].
      * intros r w2 _ [Hquiet2 Hnext]. split; [|exact Hnext].
        eapply quiet_trans; eassumption.
Qed.

Lemma build_target_post (osVariant arch : string) :
  In osVariant (cmd.OSList_List targetOSes) ->
  In arch (default [] (cmd.ArchitecturesPerOS !! osVariant)) ->
  cmd.ArchList_Has targetArches arch = true ->
  forall (artifacts : list ArtifactMetadata.t) (w : World),
    built_so_far o targetOSes targetArches releaseVersion w artifacts ->
    post (cmd.build_target o releaseVersion osVariant arch artifacts) w
         (fun r w' =>
            kept [] w w' /\
            (snd r = None ->
             built_so_far o targetOSes targetArches releaseVersion w' (fst r))).
Proof.
  intros Hos Harch Hhas artifacts w Hbuilt. unfold cmd.build_target, cmd.runBazel.
  apply post_bind, runCmdWithEnv_post. intros [e|] w1 Hkept1.
  { apply post_ret. split; [exact Hkept1 | discriminate]. }
  apply (built_so_far_kept _ _ _ _ _ _ _ Hkept1) in Hbuilt.
  assert (Hclients : forall artifacts1 w2,
             kept [] w w2 ->
             built_so_far o targetOSes targetArches releaseVersion w2 artifacts1 ->
             post (if cmd.IsClientOS osVariant && cmd.CmctlIsShipped releaseVersion
                   then cmd.range_kinds o osVariant arch ["kubectl-cert_manager"; "cmctl"]
                                        artifacts1
                   else ret (artifacts1, None)) w2
                  (fun r w' =>
                     kept [] w w' /\
                     (snd r = None ->
                      built_so_far o targetOSes targetArches releaseVersion w' (fst r)))).
  { intros artifacts1 w2 Hkept2 Hbuilt2.
    destruct (cmd.IsClientOS osVariant) eqn:Hclient;
      [destruct (cmd.CmctlIsShipped releaseVersion) eqn:Hshipped|]; cbn [andb];
      try (apply post_ret; split; [exact Hkept2 | now intros _]).
    eapply post_mono; [apply range_kinds_post; try eassumption; apply incl_refl|].
    intros r w3 _ [Hquiet3 Hnext]. split; [|exact Hnext].
    apply (kept_trans [] [] _ _ _ Hkept2). now apply kept_quiet. }
  apply post_bind.
  destruct (cmd.IsServerOS osVariant) eqn:Hserver.
  - apply appendArtifact_post.
    + intros e w2 Hquiet. apply post_ret. split; [|discriminate].
      apply (kept_trans [] [] _ _ _ Hkept1). now apply kept_quiet.
    + intros data w2 Hquiet Hfile. apply Hclients.
      * apply (kept_trans [] [] _ _ _ Hkept1). now apply kept_quiet.
      * eapply built_so_far_snoc; try eassumption.
        repeat split; try assumption. left. now split.
  - apply post_ret. now apply Hclients.
Qed.

Lemma range_arches_post (osVariant : string) (arches : list string) :
  In osVariant (cmd.OSList_List targetOSes) ->
  incl arches (default [] (cmd.ArchitecturesPerOS !! osVariant)) ->
  forall (artifacts : list ArtifactMetadata.t) (w : World),
    built_so_far o targetOSes targetArches releaseVersion w artifacts ->
    post (cmd.range_arches o releaseVersion targetArches osVariant arches artifacts) w
         (fun r w' =>
            kept [] w w' /\
            (snd r = None ->
             built_so_far o targetOSes targetArches releaseVersion w' (fst r))).
Proof.
  intros Hos. induction arches as [|arch arches IH]; intros Harches artifacts w Hbuilt.
  - apply post_ret. split; [apply kept_refl | now intros _].
  - cbn [cmd.range_arches].
    assert (Hrest : incl arches (default [] (cmd.ArchitecturesPerOS !! osVariant))).
    { intros a Ha. apply Harches. now right. }
    destruct (cmd.ArchList_Has targetArches arch) eqn:Hhas; cbn [negb]; [|now apply IH].
    apply post_bind.
    eapply post_mono; [apply build_target_post; try eassumption; apply Harches; now left|].
    intros [artifacts1 [e|]] w1 _ [Hkept1 Hnext1].
    + apply post_ret. split; [exact Hkept1 | discriminate].
    + eapply post_mono; [apply IH; [exact Hrest | now apply Hnext1]|].
      intros r w2 _ [Hkept2 Hnext2]. split; [|exact Hnext2].
      now apply (kept_trans [] [] _ _ _ Hkept1).
Qed.

Lemma range_targetOSes_post (oses : list string) :
  incl oses (cmd.OSList_List targetOSes) ->
  forall (artifacts : list ArtifactMetadata.t) (w : World),
    built_so_far o targetOSes targetArches releaseVersion w artifacts ->
    post (cmd.range_targetOSes o releaseVersion targetArches oses artifacts) w
         (fun r w' =>
            kept [] w w' /\
            (snd r = None ->
             built_so_far o targetOSes targetArches releaseVersion w' (fst r))).
Proof.
  induction oses as [|osVariant oses IH]; intros Hoses artifacts w Hbuilt.
  - apply post_ret. split; [apply kept_refl | now intros _].
  - cbn [cmd.range_targetOSes]. apply post_bind.
    eapply post_mono;
      [apply range_arches_post; [apply Hoses; now left | apply incl_refl | exact Hbuilt]|].
    intros [artifacts1 [e|]] w1 _ [Hkept1 Hnext1].
    + apply post_ret. split; [exact Hkept1 | discriminate].
    + eapply post_mono; [apply IH; [|now apply Hnext1]|].
      * intros a Ha. apply Hoses. now right.
      * intros r w2 _ [Hkept2 Hnext2]. split; [|exact Hnext2].
        now apply (kept_trans [] [] _ _ _ Hkept1).
Qed.

(** The records a loop adds, by name, OS and architecture. *)
Lemma range_kinds_adds (osVariant arch : string) (kinds : list string) :
  forall (artifacts artifacts' : list ArtifactMetadata.t) (w w' : World),
    cmd.range_kinds o osVariant arch kinds artifacts w = Some ((artifacts', None), w') ->
    map target_of artifacts'
    = map target_of artifacts
      ++ map (fun kind => (cmd.clientArtifactName kind osVariant arch, osVariant, arch)) kinds.
Proof.
  induction kinds as [|kind kinds IH]; intros artifacts artifacts' w w'.
  - intros [= <- _]. now rewrite app_nil_r.
  - cbn [cmd.range_kinds]. unfold bind at 1.
    destruct (cmd.appendArtifact _ _ _ _ _ w) as [[[artifacts1 [e|]] w1]|] eqn:Hone;
      try discriminate.
    intros Hrest. apply IH in Hrest. apply appendArtifact_inv in Hone.
    destruct Hone as (data & _ & ->).
    rewrite Hrest, map_app, <- app_assoc. reflexivity.
Qed.

Lemma build_target_adds (osVariant arch : string) (artifacts artifacts' : list ArtifactMetadata.t)
    (w w' : World) :
  cmd.build_target o releaseVersion osVariant arch artifacts w = Some ((artifacts', None), w') ->
  map target_of artifacts'
  = map target_of artifacts ++ artifacts_of_target releaseVersion osVariant arch.
Proof.
  unfold cmd.build_target, artifacts_of_target, bind at 1.
  destruct (cmd.runBazel _ _ _ w) as [[[e|] w1]|]; try discriminate.
  unfold bind at 1.
  assert (Hclients : forall artifacts1 w2,
             (if cmd.IsClientOS osVariant && cmd.CmctlIsShipped releaseVersion
              then cmd.range_kinds o osVariant arch ["kubectl-cert_manager"; "cmctl"] artifacts1
              else ret (artifacts1, None)) w2 = Some ((artifacts', None), w') ->
             map target_of artifacts'
             = map target_of artifacts1
               ++ (if cmd.IsClientOS osVariant && cmd.CmctlIsShipped releaseVersion
                   then [(cmd.clientArtifactName "kubectl-cert_manager" osVariant arch,
                          osVariant, arch);
                         (cmd.clientArtifactName "cmctl" osVariant arch, osVariant, arch)]
                   else [])).
  { intros artifacts1 w2. destruct (_ && _)%bool.
    - apply range_kinds_adds.
    - intros [= <- _]. now rewrite app_nil_r. }
  destruct (cmd.IsServerOS osVariant).
  - destruct (cmd.appendArtifact _ _ _ _ _ w1) as [[[artifacts1 [e|]] w2]|] eqn:Hone;
      try discriminate.
    intros Hrest. apply Hclients in Hrest. apply appendArtifact_inv in Hone.
    destruct Hone as (data & _ & ->).
    rewrite Hrest, map_app, <- app_assoc. reflexivity.
  - unfold ret at 1. cbn [app]. apply Hclients.
Qed.

Lemma range_arches_adds (osVariant : string) (arches : list string) :
  forall (artifacts artifacts' : list ArtifactMetadata.t) (w w' : World),
    cmd.range_arches o releaseVersion targetArches osVariant arches artifacts w
    = Some ((artifacts', None), w') ->
    map target_of artifacts'
    = map target_of artifacts
      ++ flat_map (artifacts_of_target releaseVersion osVariant)
                  (List.filter (cmd.ArchList_Has targetArches) arches).
Proof.
  induction arches as [|arch arches IH]; intros artifacts artifacts' w w'.
  - intros [= <- _]. now rewrite app_nil_r.
  - cbn [cmd.range_arches List.filter].
    destruct (cmd.ArchList_Has targetArches arch); cbn [negb]; [|apply IH].
    unfold bind at 1.
    destruct (cmd.build_target _ _ _ _ _ w) as [[[artifacts1 [e|]] w1]|] eqn:Hone;
      try discriminate.
    intros Hrest. apply IH in Hrest. apply build_target_adds in Hone.
    rewrite Hrest, Hone, <- app_assoc. reflexivity.
Qed.

Lemma range_targetOSes_adds (oses : list string) :
  forall (artifacts artifacts' : list ArtifactMetadata.t) (w w' : World),
    cmd.range_targetOSes o releaseVersion targetArches oses artifacts w
    = Some ((artifacts', None), w') ->
    map target_of artifacts'
    = map target_of artifacts
      ++ flat_map (fun osVariant =>
                     flat_map (artifacts_of_target releaseVersion osVariant)
                              (List.filter (cmd.ArchList_Has targetArches)
                                           (default [] (cmd.ArchitecturesPerOS !! osVariant))))
                  oses.
Proof.
  induction oses as [|osVariant oses IH]; intros artifacts artifacts' w w'.
  - intros [= <- _]. now rewrite app_nil_r.
  - cbn [cmd.range_targetOSes]. unfold bind at 1.
    destruct (cmd.range_arches _ _ _ _ _ _ w) as [[[artifacts1 [e|]] w1]|] eqn:Hone;
      try discriminate.
    intros Hrest. apply IH in Hrest. apply range_arches_adds in Hone.
    rewrite Hrest, Hone, <- app_assoc. reflexivity.
Qed.

End Targets.

Lemma manifestPostProcessor_post (o : gcbStageOptions.t) (path : string) (w : World)
    (Q : option error -> World -> Prop) :
  (forall err w', kept [path] w w' -> Q err w') ->
  post (cmd.manifestPostProcessor o path) w Q.
Proof.
  intros HQ. unfold cmd.manifestPostProcessor.
  assert (Hsame : kept [path] w w).
  { split; [reflexivity|]. intros _. apply files_same_refl. }
  destruct (gcbStageOptions.SkipSigning o); [now apply post_ret, HQ|].
  destruct (cmd.NewGCPKMSKey (gcbStageOptions.SigningKMSKey o)) as [e|parsedKey];
    [now apply post_ret, HQ|].
  eapply post_mono; [apply sign_keeps_bucket|].
  intros err w' Hrun Hbucket. apply HQ. split; [exact Hbucket|].
  intros [_ Hfiles]. eapply Hfiles. exact Hrun.
Qed.

Lemma CloseObject_post (h : string) (written : Bytes) (w : World)
    (Q : option error -> World -> Prop) :
  (forall e w', quiet w w' -> Q (Some e) w') ->
  (forall w', disk w' = disk w -> objects w' = <[h := written]> (objects w) -> Q None w') ->
  post (cmd.CloseObject h written) w Q.
Proof.
  intros Hfail Hok. unfold cmd.CloseObject.
  apply post_bind, fault_post. intros w1 Hquiet _.
  destruct (scheduled w) as [e|]; [now apply post_ret, Hfail|].
  apply post_bind, post_modify, post_ret. destruct Hquiet as (Hobjects & Hdisk & _).
  apply Hok; simpl; congruence.
Qed.

Lemma upload_post (o : gcbStageOptions.t) (filePath gcsPath : string) (w : World) :
  post (cmd.upload o filePath gcsPath) w
       (fun err w' =>
          disk w' = disk w /\
          ((is_Some err /\ objects w' = objects w) \/
           (err = None /\
            objects w'
            = <[cmd.ObjectHandle (gcbStageOptions.Bucket o) gcsPath
                := file_bytes (disk w) filePath]> (objects w)))).
Proof.
  unfold cmd.upload.
  assert (Hfail : forall (e : error) w', quiet w w' ->
             disk w' = disk w /\
             ((is_Some (Some e) /\ objects w' = objects w) \/
              (Some e = None /\
               objects w'
               = <[cmd.ObjectHandle (gcbStageOptions.Bucket o) gcsPath
                   := file_bytes (disk w) filePath]> (objects w)))).
  { intros e w' (Hobjects & Hdisk & _). split; [exact Hdisk|]. left. split; [eauto | exact Hobjects]. }
  apply post_bind, Open_post.
  { intros e w1 Hquiet _ _. now apply post_ret, Hfail. }
  intros data w1 Hquiet1 _ Hfile.
  unfold cmd.WriteToObject. apply post_bind, fault_post. intros w2 Hquiet2 _.
  assert (Hquiet : quiet w w2) by (eapply quiet_trans; eassumption).
  destruct (scheduled w1) as [e|]; [now apply post_ret, Hfail|].
  apply post_bind, CloseObject_post.
  - intros e w3 Hquiet3. apply post_ret, Hfail. eapply quiet_trans; eassumption.
  - intros w3 Hdisk3 Hobjects3. apply post_ret.
    destruct Hquiet as (Hobjects & Hdisk & _). split; [congruence|]. right.
    split; [reflexivity|]. unfold file_bytes. rewrite Hfile, Hobjects3. congruence.
Qed.

Lemma range_artifacts_post (o : gcbStageOptions.t) (outputDir : string)
    (artifacts : list ArtifactMetadata.t) :
  forall w,
    post (cmd.range_artifacts o outputDir artifacts) w
         (fun err w' =>
            disk w' = disk w /\
            ((is_Some err /\
              exists k, objects w' = pushed o outputDir (disk w) (take k artifacts) (objects w)) \/
             (err = None /\
              objects w' = pushed o outputDir (disk w) artifacts (objects w)))).
Proof.
  induction artifacts as [|a artifacts IH]; intros w.
  - apply post_ret. split; [reflexivity|]. right. now split.
  - cbn [cmd.range_artifacts]. apply post_bind.
    eapply post_mono; [apply upload_post|].
    intros err w1 _ [Hdisk1 [[[e ->] Hobjects1]|[-> Hobjects1]]].
    + apply post_ret. split; [exact Hdisk1|]. left. split; [eauto|]. now exists 0.
    + eapply post_mono; [apply IH|].
      intros err w2 _ [Hdisk2 Hcases]. split; [congruence|].
      destruct Hcases as [[Herr [k Hobjects2]]|[-> Hobjects2]].
      * left. split; [exact Herr|]. exists (S k).
        rewrite Hobjects2, Hdisk1, Hobjects1. reflexivity.
      * right. split; [reflexivity|]. rewrite Hobjects2, Hdisk1, Hobjects1. reflexivity.
Qed.

Lemma sepfree_app (s1 s2 : string) :
  Forall (fun c => filepath.IsPathSeparator c = false) (GoString.chars s1) ->
  Forall (fun c => filepath.IsPathSeparator c = false) (GoString.chars s2) ->
  Forall (fun c => filepath.IsPathSeparator c = false) (GoString.chars (s1 +:+ s2)).
Proof. intros H1 H2. rewrite chars_app. apply Forall_app. now split. Qed.

(** The name of a record that comes from a target names an entry, where
    the targets are plain, and is not the name of the manifests. *)
Lemma from_target_named (o : gcbStageOptions.t) (targetOSes : cmd.OSList)
    (targetArches : cmd.ArchList) (releaseVersion : string) (a : ArtifactMetadata.t) :
  targets_plain o ->
  cmd.OSListFromString (gcbStageOptions.TargetOSes o) = inr targetOSes ->
  from_target targetOSes targetArches releaseVersion a ->
  names_entry (ArtifactMetadata.Name a) /\
  ArtifactMetadata.Name a <> "cert-manager-manifests.tar.gz".
Proof.
  intros [Hoses Harches] Hlist (Hos & Harch & _ & Hname).
  assert (Hos' : Forall (fun c => filepath.IsPathSeparator c = false)
                        (GoString.chars (ArtifactMetadata.OS a))).
  { specialize (Hoses targetOSes Hlist). rewrite List.Forall_forall in Hoses.
    now apply Hoses. }
  assert (Harch' : Forall (fun c => filepath.IsPathSeparator c = false)
                          (GoString.chars (ArtifactMetadata.Architecture a))).
  { destruct (cmd.ArchitecturesPerOS !! ArtifactMetadata.OS a) as [arches|] eqn:Hlookup;
      [|destruct Harch].
    specialize (Harches _ _ Hlookup). rewrite List.Forall_forall in Harches.
    now apply Harches. }
  destruct Hname as [[_ ->]|(_ & _ & kind & Hkind & ->)].
  - unfold cmd.serverArtifactName. split; [|intros Heq; discriminate Heq].
    repeat split; try (intros Heq; discriminate Heq).
    apply sepfree_app; [repeat constructor|]. apply sepfree_app; [exact Harch'|].
    repeat constructor.
  - unfold cmd.clientArtifactName.
    assert (Hkind' : Forall (fun c => filepath.IsPathSeparator c = false)
                            (GoString.chars kind)).
    { destruct Hkind as [<-|[<-|[]]]; repeat constructor. }
    split; [|destruct Hkind as [<-|[<-|[]]]; intros Heq; discriminate Heq].
    repeat split; try (intros Heq; discriminate Heq).
    repeat (apply sepfree_app; [try assumption; repeat constructor|]).
    repeat constructor.
Qed.

(** The name of a record that comes from a target begins as the names of
    all artifacts do. *)
Lemma from_target_prefix (targetOSes : cmd.OSList) (targetArches : cmd.ArchList)
    (releaseVersion : string) (a : ArtifactMetadata.t) :
  from_target targetOSes targetArches releaseVersion a ->
  exists rest, ArtifactMetadata.Name a = "cert-manager-" +:+ rest.
Proof.
  intros (_ & _ & _ & [[_ ->]|(_ & _ & kind & _ & ->)]).
  - now exists ("server-linux-" +:+ ArtifactMetadata.Architecture a +:+ ".tar.gz").
  - now exists (kind +:+ "-" +:+ ArtifactMetadata.OS a +:+ "-"
                +:+ ArtifactMetadata.Architecture a +:+ ".tar.gz").
Qed.

Lemma manifests_entry : names_entry "cert-manager-manifests.tar.gz".
Proof. repeat split; try discriminate. repeat constructor. Qed.

(** The last record: the manifests, signed before they are hashed. *)
Lemma manifests_step_post (o : gcbStageOptions.t) (targetOSes : cmd.OSList)
    (targetArches : cmd.ArchList) (releaseVersion : string)
    (artifacts : list ArtifactMetadata.t) (w : World) :
  cmd.OSListFromString (gcbStageOptions.TargetOSes o) = inr targetOSes ->
  built_so_far o targetOSes targetArches releaseVersion w artifacts ->
  post (cmd.appendArtifactWithPostprocess artifacts (gcbStageOptions.RepoPath o)
          "cert-manager-manifests.tar.gz" "" "" (Some (cmd.manifestPostProcessor o))) w
       (fun r w' =>
          objects w' = objects w /\
          (snd r = None ->
           exists sum,
             fst r = artifacts ++ [ArtifactMetadata.mk "cert-manager-manifests.tar.gz" sum "" ""] /\
             (files_kept -> targets_plain o ->
              Forall (recorded (gcbStageOptions.RepoPath o) w') (fst r)))).
Proof.
  intros Hlist [Htargets Hrecorded].
  apply appendArtifactWithPostprocess_post, manifestPostProcessor_post.
  intros [e|] w1 [Hbucket1 Hfiles1].
  { split; [exact Hbucket1 | discriminate]. }
  split.
  - intros e w2 (Hbucket2 & _) _. split; [congruence | discriminate].
  - intros data w2 (Hbucket2 & Hdisk2 & _) _ Hfile. split; [congruence|].
    intros _. exists (sha256hex data). split; [reflexivity|].
    intros Hkept Hplain. cbn [fst]. apply Forall_app. split.
    + specialize (Hrecorded Hkept). specialize (Hfiles1 Hkept).
      rewrite List.Forall_forall in Hrecorded, Htargets. apply List.Forall_forall.
      intros a Ha. destruct (Hrecorded a Ha) as (bytes & Hbytes & Hsum).
      exists bytes. split; [|exact Hsum]. rewrite Hdisk2. apply Hfiles1; [|exact Hbytes].
      intros [Hsame|[]].
      destruct (from_target_named _ _ _ _ _ Hplain Hlist (Htargets a Ha)) as [Hentry Hother].
      apply Hother. symmetry.
      apply (buildArtifactPath_inj (gcbStageOptions.RepoPath o) ["build"; "release-tars"]);
        [exact manifests_entry | exact Hentry | exact Hsame].
    + constructor; [|constructor]. exists data. split; [|reflexivity].
      unfold artifact_file. simpl. now rewrite Hdisk2.
Qed.

Lemma recorded_same_disk (repoPath : string) (w w' : World) (a : ArtifactMetadata.t) :
  disk w' = disk w -> recorded repoPath w a -> recorded repoPath w' a.
Proof. intros Hdisk (data & Hfile & Hsum). exists data. now rewrite Hdisk. Qed.

(** [runGCBStage] returns, in one of the ways of [staging_outcome]. *)
Lemma runGCBStage_outcome (o : gcbStageOptions.t) (w : World) :
  post (cmd.runGCBStage o) w (staging_outcome o w).
Proof.
  unfold cmd.runGCBStage.
  assert (Hearly : forall (e : error) w',
             objects w' = objects w -> post (ret (Some e)) w' (staging_outcome o w)).
  { intros e w' Hbucket. apply post_ret. left. split; [exact Hbucket | left; eauto]. }
  apply post_bind.
  eapply post_mono; [apply readGitRef_post; intros r w1 Hkept; exact Hkept|].
  intros [gitRef [e|]] w1 HgitRef [Hb1 _]; [now apply Hearly|].
  destruct (if negb (String.eqb (gcbStageOptions.SigningKMSKey o) "") then _ else _)
    as [e|]; [now apply Hearly|].
  apply post_bind.
  assert (Htag : post (if negb (String.eqb (gcbStageOptions.ReleaseVersion o) "")
                       then cmd.runGit (gcbStageOptions.RepoPath o)
                                       ["tag"; "-f"; gcbStageOptions.ReleaseVersion o]
                       else ret None) w1
                      (fun _ w2 => objects w2 = objects w1)).
  { destruct (negb _); [|now apply post_ret].
    unfold cmd.runGit, cmd.runCmd. apply runCmdWithEnv_post. now intros err w2 [Hb2 _]. }
  eapply post_mono; [exact Htag|]. clear Htag.
  intros [e|] w2 Htag Hb2; [apply Hearly; congruence|].
  apply post_bind.
  eapply post_mono; [apply readBazelVersion_post; intros r w3 Hkept; exact Hkept|].
  intros [releaseVersion [e|]] w3 Hversion [Hb3 _]; [apply Hearly; congruence|].
  fold (outputDir_of o releaseVersion gitRef).
  destruct (cmd.OSListFromString (gcbStageOptions.TargetOSes o)) as [e|targetOSes] eqn:Hoses;
    [apply Hearly; congruence|].
  destruct (cmd.ArchListFromString (gcbStageOptions.TargetArches o) targetOSes)
    as [e|targetArches] eqn:Harches; [apply Hearly; congruence|].
  apply post_bind.
  eapply post_mono;
    [apply (range_targetOSes_post o targetOSes targetArches releaseVersion
              (cmd.OSList_List targetOSes) (incl_refl _) [] w3);
     split; [constructor | intros _; constructor]|].
  intros [artifacts [e|]] w4 Htargets [[Hb4 _] Hbuilt]; [apply Hearly; congruence|].
  specialize (Hbuilt eq_refl). cbn [fst] in Hbuilt.
  apply range_targetOSes_adds in Htargets. cbn [map app] in Htargets.
  fold (requested releaseVersion targetOSes targetArches) in Htargets.
  apply post_bind.
  eapply post_mono; [apply (manifests_step_post _ _ _ _ _ _ Hoses Hbuilt)|].
  intros [all [e|]] w5 _ [Hb5 Hall]; [apply Hearly; congruence|].
  destruct (Hall eq_refl) as (sum & Hlist & Hrecorded). cbn [fst] in Hlist, Hrecorded.
  subst all. clear Hall.
  destruct (cmd.MarshalIndent _) as [e|meta] eqn:Hmeta; [apply Hearly; congruence|].
  destruct (gcbStageOptions.SkipPush o) eqn:Hskip.
  { apply post_ret. left. split; [congruence | right; exact Hskip]. }
  assert (Hbucket : objects w5 = objects w) by congruence.
  assert (Hpush : forall err w',
             disk w' = disk w5 ->
             (is_Some err /\
              exists k,
                objects w'
                = pushed o (outputDir_of o releaseVersion gitRef) (disk w')
                    (take k (artifacts
                             ++ [ArtifactMetadata.mk "cert-manager-manifests.tar.gz" sum "" ""]))
                    (objects w)) \/
             (err = None /\
              objects w'
              = <[metadata_object o (outputDir_of o releaseVersion gitRef) := meta]>
                  (pushed o (outputDir_of o releaseVersion gitRef) (disk w')
                     (artifacts
                      ++ [ArtifactMetadata.mk "cert-manager-manifests.tar.gz" sum "" ""])
                     (objects w))) ->
             staging_outcome o w err w').
  { intros err w' Hdisk Hcases. right. split; [exact Hskip|].
    exists gitRef, releaseVersion, targetOSes, targetArches, artifacts, sum, meta.
    split; [now exists w1, w2, w3|]. split; [exact Hoses|]. split; [exact Harches|].
    split; [apply Hbuilt|]. split; [exact Htargets|].
    split; [exact Hmeta|]. split; [|exact Hcases].
    intros Hkept Hplain. eapply List.Forall_impl; [|apply Hrecorded; assumption].
    intros a. now apply recorded_same_disk. }
  unfold cmd.NewClient. apply post_bind, fault_post. intros w6 (Hb6 & Hd6 & _) _.
  destruct (scheduled w5) as [e|].
  { apply post_ret, Hpush; [exact Hd6|]. left. split; [eauto|]. exists 0. simpl. congruence. }
  apply post_bind.
  eapply post_mono; [apply range_artifacts_post|].
  intros err w7 _ [Hd7 Hcases].
  assert (Hstart : objects w6 = objects w) by congruence.
  destruct Hcases as [[[e ->] [k Hb7]]|[-> Hb7]].
  { apply post_ret, Hpush; [congruence|]. left. split; [eauto|]. exists k.
    rewrite Hb7, Hd7, Hstart. reflexivity. }
  unfold cmd.WriteToObject. apply post_bind, fault_post. intros w8 (Hb8 & Hd8 & _) _.
  assert (Hall : objects w8
                 = pushed o (outputDir_of o releaseVersion gitRef) (disk w8)
                     (artifacts
                      ++ [ArtifactMetadata.mk "cert-manager-manifests.tar.gz" sum "" ""])
                     (objects w)).
  { rewrite Hb8, Hb7, Hd8, Hd7, Hstart. reflexivity. }
  assert (Hfailed : forall (e : error) w',
             quiet w8 w' ->
             post (ret (Some e)) w' (staging_outcome o w)).
  { intros e w' (Hb & Hd & _). apply post_ret, Hpush; [congruence|]. left. split; [eauto|].
    exists (length (artifacts
                    ++ [ArtifactMetadata.mk "cert-manager-manifests.tar.gz" sum "" ""])).
    rewrite firstn_all, Hb, Hd. exact Hall. }
  destruct (scheduled w7) as [e|]; [apply Hfailed, quiet_refl|].
  apply post_bind, CloseObject_post.
  - intros e w9 Hquiet. now apply Hfailed.
  - intros w9 Hd9 Hb9. apply post_ret, Hpush; [congruence|]. right.
    split; [reflexivity|]. rewrite Hb9, Hd9, Hall. reflexivity.
Qed.

End Run.

(** ** What the push leaves in the bucket *)

Section Pushed.

Context `{cmd.Stager}.

Lemma append_cancel_l (s x y : string) : s +:+ x = s +:+ y -> x = y.
Proof. induction s as [|c s IH]; simpl; [trivial | intros [= Heq]; now apply IH]. Qed.

Lemma buildObjectName_inj (outputDir n1 n2 : string) :
  cmd.buildObjectName outputDir n1 = cmd.buildObjectName outputDir n2 -> n1 = n2.
Proof.
  unfold cmd.buildObjectName. intros Heq.
  apply append_cancel_l in Heq. now apply (append_cancel_l "/") in Heq.
Qed.

Lemma ObjectHandle_inj (bucket n1 n2 : string) :
  cmd.ObjectHandle bucket n1 = cmd.ObjectHandle bucket n2 -> n1 = n2.
Proof.
  unfold cmd.ObjectHandle. intros Heq.
  apply (append_cancel_l "gs://") in Heq. apply append_cancel_l in Heq.
  now apply (append_cancel_l "/") in Heq.
Qed.

Lemma artifact_object_inj (o : gcbStageOptions.t) (outputDir : string)
    (a b : ArtifactMetadata.t) :
  artifact_object o outputDir a = artifact_object o outputDir b ->
  ArtifactMetadata.Name a = ArtifactMetadata.Name b.
Proof.
  unfold artifact_object. intros Heq.
  now apply ObjectHandle_inj, buildObjectName_inj in Heq.
Qed.

Lemma pushed_snoc (o : gcbStageOptions.t) (outputDir : string) (d : list (string * Node))
    (artifacts : list ArtifactMetadata.t) (a : ArtifactMetadata.t) (m : gmap string Bytes) :
  pushed o outputDir d (artifacts ++ [a]) m
  = <[artifact_object o outputDir a
      := file_bytes d (artifact_file (gcbStageOptions.RepoPath o) a)]>
      (pushed o outputDir d artifacts m).
Proof. unfold pushed. now rewrite fold_left_app. Qed.

(** An object the push has changed is the object of an artifact, and
    holds that artifact's archive. *)
Lemma pushed_changed (o : gcbStageOptions.t) (outputDir : string) (d : list (string * Node))
    (artifacts : list ArtifactMetadata.t) (m : gmap string Bytes) (h : string) :
  pushed o outputDir d artifacts m !! h <> m !! h ->
  exists a,
    In a artifacts /\
    h = artifact_object o outputDir a /\
    pushed o outputDir d artifacts m !! h
    = Some (file_bytes d (artifact_file (gcbStageOptions.RepoPath o) a)).
Proof.
  induction artifacts as [|a artifacts IH] using rev_ind; [now intros []|].
  rewrite pushed_snoc.
  destruct (decide (artifact_object o outputDir a = h)) as [<-|Hother].
  - intros _. exists a. split; [apply in_or_app; right; now left|].
    split; [reflexivity | apply lookup_insert_eq].
  - rewrite lookup_insert_ne by exact Hother. intros Hchanged.
    destruct (IH Hchanged) as (b & Hb & Hh & Hvalue).
    exists b. split; [apply in_or_app; now left | now split].
Qed.

(** After the push the object of each artifact holds its archive. *)
Lemma pushed_lookup (o : gcbStageOptions.t) (outputDir : string) (d : list (string * Node))
    (artifacts : list ArtifactMetadata.t) (m : gmap string Bytes) (a : ArtifactMetadata.t) :
  In a artifacts ->
  pushed o outputDir d artifacts m !! artifact_object o outputDir a
  = Some (file_bytes d (artifact_file (gcbStageOptions.RepoPath o) a)).
Proof.
  induction artifacts as [|b artifacts IH] using rev_ind; [intros []|].
  rewrite pushed_snoc. intros Hin.
  destruct (decide (artifact_object o outputDir b = artifact_object o outputDir a))
    as [Hsame|Hother].
  - rewrite Hsame, lookup_insert_eq. apply artifact_object_inj in Hsame.
    unfold artifact_file. now rewrite Hsame.
  - rewrite lookup_insert_ne by exact Hother. apply IH.
    apply in_app_or in Hin. destruct Hin as [Hin|[->|[]]]; [exact Hin | congruence].
Qed.

Lemma take_In {A : Type} (k : nat) (l : list A) (x : A) : In x (take k l) -> In x l.
Proof.
  revert k. induction l as [|y l IH]; intros [|k]; simpl; try tauto.
  intros [->|Hin]; [now left | right; eauto].
Qed.

End Pushed.

(** * The claims *)

Section Claims.

Context `{Collaborators}.

(** C1: when the bytes downloaded for an artifact hash (SHA-256, lowercase
    hex) to something else than the declared sha256, extraction fails with
    the error that names the artifact and the extractor is not entered; in
    every run the extractor is entered at most once, and only on bytes
    whose digest equals the declared one.  The download goes through when
    none of the seven fallible calls before the comparison (TempFile,
    NewReader, Copy, Sync, Seek, Open, Copy) has a fault scheduled, a name
    is free for the temporary file, and the object is in the bucket. *)
Theorem checksum_gates_extraction (a : StagedArtifact.t) (dest : string) (w : World) :
  (exists err w',
      extractStagedArtifact a dest w = Some (err, w') /\
      ((is_Some err /\ trace w' = trace w) \/
       (exists data,
           trace w' = trace w ++ [Untar dest data] /\
           sha256hex data = ArtifactMetadata.SHA256 (StagedArtifact.Metadata a)))) /\
  (forall data,
      Forall (eq None) (take 7 (faults w)) ->
      pick_fresh (on_disk w) (temp_name "temp-artifact-") max_tries (serial w) <> None ->
      objects w !! StagedArtifact.ObjectHandle a = Some data ->
      sha256hex data <> ArtifactMetadata.SHA256 (StagedArtifact.Metadata a) ->
      exists w',
        extractStagedArtifact a dest w
        = Some (Some (Errorf "artifact %q has a mismatching checksum - refusing to extract"
                             (ArtifactMetadata.Name (StagedArtifact.Metadata a))), w') /\
        trace w' = trace w).
Proof.
  split.
  - destruct (extractStagedArtifact_post a dest w) as (err & w' & Hrun & _ & _ & Htrace).
    exists err, w'. split; assumption.
  - intros data Hfaults Hname Hobj Hsum.
    destruct (extractStagedArtifact_mismatch a dest w data Hfaults Hname Hobj Hsum)
      as (err & w' & Hrun & -> & Htrace).
    exists w'. split; assumption.
Qed.

(** C2: [Unpack] never panics and returns either an assembled release and
    no error, or no release and an error; its run ends in one of the ways
    of [unpack_run], each of which, but the last, is the first call that
    fails with that call's error and the world as that call left it; and
    every such way is what [Unpack] returns.  Fetching, verifying and
    extracting an artifact end in the ways of
    [artifact_extracted_to_temp_dir], which are the first failing call of
    the download with its error, the digests that differ, and what the
    extractor answers.  So a release comes back only when the one manifests
    artifact and every server artifact has its object in the bucket, of the
    declared digest, and read by the extractor as an archive; where that
    fails for one of them, [Unpack] returns an error and no release. *)
Theorem Unpack_all_or_nothing (s : Staged.t) (w : World) :
  (exists r w',
      Unpack s w = Some (r, w') /\
      unpack_run s w r w' /\
      ((exists u, r = (Some u, None)) \/ (exists e, r = (None, Some e)))) /\
  (forall r w', unpack_run s w r w' -> Unpack s w = Some (r, w')) /\
  (forall a w0 r w1,
      extractStagedArtifactToTempDir a w0 = Some (r, w1) <->
      artifact_extracted_to_temp_dir a w0 r w1) /\
  (forall u err w',
      Unpack s w = Some ((Some u, err), w') ->
      err = None /\
      exists a,
        ArtifactsOfKind s "manifests" = [a] /\
        Forall (archive_accepted w) (a :: ArtifactsOfKind s "server")) /\
  (forall a,
      In a (ArtifactsOfKind s "manifests" ++ ArtifactsOfKind s "server") ->
      ~ archive_accepted w a ->
      exists e w', Unpack s w = Some ((None, Some e), w')).
Proof.
  assert (Haccepted : forall u err w',
             Unpack s w = Some ((Some u, err), w') ->
             err = None /\
             exists a,
               ArtifactsOfKind s "manifests" = [a] /\
               Forall (archive_accepted w) (a :: ArtifactsOfKind s "server")).
  { intros u err w' Hrun. apply Unpack_inv in Hrun.
    assert (Herr : err = None) by (inversion Hrun; reflexivity).
    subst err. split; [reflexivity|].
    eapply unpack_run_accepted. exact Hrun. }
  split; [|split; [|split; [|split; [exact Haccepted|]]]].
  - destruct (Unpack_sound s w) as (r & w' & Hrun & Hstages).
    exists r, w'. repeat split; try assumption.
    destruct Hstages; eauto.
  - intros r w'. apply Unpack_complete.
  - intros a w0 r w1. apply extractStagedArtifactToTempDir_steps.
  - intros a Hin Hrefused.
    destruct (Unpack_sound s w) as ([[u|] err] & w' & Hrun & Hstages).
    + exfalso. apply Hrefused.
      destruct (Haccepted u err w' Hrun) as (_ & a0 & Hone & Hall).
      rewrite Hone in Hin. rewrite List.Forall_forall in Hall. now apply Hall.
    + destruct err as [e|]; [now exists e, w' | inversion Hstages].
Qed.

(** C3: resolving the manifests artifact gives the "cannot find" error
    naming the release when no artifact is of kind manifests, the "found
    multiple" error naming the release when more than one is, and the one
    matching record when there is exactly one. *)
Theorem manifests_artifact_cardinality (s : Staged.t) (w : World) :
  (length (ArtifactsOfKind s "manifests") = 0 ->
   manifestArtifactForStaged s w
   = Some ((None, Some (Errorf "cannot find 'manifests' artifact in staged release %q"
                               (Staged.Name s))), w)) /\
  (1 < length (ArtifactsOfKind s "manifests") ->
   manifestArtifactForStaged s w
   = Some ((None, Some (Errorf "found multiple 'manifests' artifacts in staged release %q"
                               (Staged.Name s))), w)) /\
  (forall a,
      ArtifactsOfKind s "manifests" = [a] ->
      manifestArtifactForStaged s w = Some ((Some a, None), w) /\
      In a (Staged.artifacts s) /\
      kindOf (StagedArtifact.Metadata a) = "manifests").
Proof.
  split; [|split].
  - intros Hlen. apply manifestArtifactForStaged_none.
    now destruct (ArtifactsOfKind s "manifests").
  - intros Hlen.
    destruct (ArtifactsOfKind s "manifests") as [|a [|b rest]] eqn:Hkind;
      simpl in Hlen; try lia.
    eapply manifestArtifactForStaged_many. eassumption.
  - intros a Hone. split; [now apply manifestArtifactForStaged_one|].
    assert (Hin : a ∈ ArtifactsOfKind s "manifests") by (rewrite Hone; left).
    unfold ArtifactsOfKind in Hin. apply list_elem_of_filter in Hin.
    destruct Hin as [Hkind Hin]. split; [now apply list_elem_of_In | exact Hkind].
Qed.

(** C4: the bundle of a component holds the descriptors of the image
    archives with that stem from all server artifacts, in the order the
    artifacts are declared and, within one artifact, the order the archives
    are discovered, each tagged with its artifact's declared OS and
    architecture.  On the sample release, whose two server artifacts, for
    linux/amd64 and linux/arm64 in that order, each hold a cainjector.tar,
    the bundle of "cainjector" has exactly these two entries in that order. *)
Theorem server_images_accumulate_in_order :
  (forall (s : Staged.t) (w w' : World) (bundles : Bundles),
      unpackServerImagesFromRelease s w = Some ((bundles, None), w') ->
      exists founds,
        servers_unpacked (ArtifactsOfKind s "server") ∅ w founds (bundles, None) w' /\
        Forall2 (fun a found => Forall (tagged a) found)
                (ArtifactsOfKind s "server") founds /\
        forall k, bundles !! k = match with_key k (concat founds) with
                                 | [] => None
                                 | l => Some l
                                 end) /\
  (exists bundles w',
      @unpackServerImagesFromRelease Sample.collaborators
        (Sample.staged [Sample.amd64A; Sample.arm64A]) Sample.world
      = Some ((bundles, None), w') /\
      bundles !! "cainjector"
      = Some [images.mkTar "/tmp/extracted-artifact-0/images/cainjector.tar"
                           "linux" "amd64" "cainjector-amd64";
              images.mkTar "/tmp/extracted-artifact-2/images/cainjector.tar"
                           "linux" "arm64" "cainjector-arm64"]).
Proof.
  split.
  - intros s w w' bundles Hrun.
    destruct (unpackServerImagesFromRelease_inv _ _ _ _ Hrun) as [founds Hstages].
    exists founds. split; [exact Hstages|].
    destruct (servers_unpacked_classify _ _ _ _ _ _ Hstages) as [-> Htagged].
    split; [exact Htagged|].
    intros k. rewrite lookup_classify, lookup_empty. simpl.
    now destruct (with_key k (concat founds)).
  - eexists _, _. split; vm_compute; reflexivity.
Qed.

(** C5: on a tree that can be read, the scan returns, without error and
    in the order of the walk, exactly the files of the tree, directories
    apart, whose extension equals the requested one byte for byte; so
    nothing at all when no file matches. *)
Theorem recursiveFindWithExt_exact (w : World) (root ext : string) (t : Node) :
  lookup_disk (disk w) root = Some t ->
  readable t = true ->
  exists paths,
    recursiveFindWithExt root ext w = Some ((paths, None), w) /\
    paths = files_with_ext ext (visited root t) /\
    (forall p, In p paths <-> file_at root t p /\ filepath.Ext p = ext) /\
    ((forall p, file_at root t p -> filepath.Ext p <> ext) -> paths = []).
Proof.
  intros Hroot Hread. exists (files_with_ext ext (visited root t)).
  assert (Hin : forall p, In p (files_with_ext ext (visited root t))
                          <-> file_at root t p /\ filepath.Ext p = ext).
  { intros p. rewrite in_files_with_ext. now rewrite visited_file_at. }
  split; [now apply recursiveFindWithExt_readable|].
  split; [reflexivity|].
  split; [exact Hin|].
  intros Hnone.
  destruct (files_with_ext ext (visited root t)) as [|p rest] eqn:Hpaths; [reflexivity|].
  destruct (proj1 (Hin p) ltac:(now left)) as [Hfile Hext]. now apply Hnone in Hfile.
Qed.

(** C6: the component name is a function of the base name of the archive's
    path alone, and is that base name with its extension taken off the end
    and nothing else changed; every archive the loop over the discovered
    image archives has gone through is found, as a descriptor with that
    path and the artifact's OS and architecture, in the list under that
    key.  An archive named cainjector-amd64.tar, in whatever directory,
    has the key "cainjector-amd64": its descriptor comes last in the list
    under that key, after what the list held, and the lists under the
    other keys are as they were. *)
Theorem component_name_is_base_name_without_extension :
  (exists stem : string -> string,
      (forall (St : Type) (archive : string) (s : St),
          componentNameOf archive s = Some (stem (filepath.Base archive), s) /\
          filepath.Base archive
          = stem (filepath.Base archive) +:+ filepath.Ext (filepath.Base archive)) /\
      (forall (a : StagedArtifact.t) (imageArchives : list string)
              (tarBundles tarBundles' : Bundles) (w w' : World),
          range_imageArchives a imageArchives tarBundles w = Some ((tarBundles', None), w') ->
          forall archive,
            In archive imageArchives ->
            exists imageTar filed,
              tarBundles' !! stem (filepath.Base archive) = Some filed /\
              In imageTar filed /\
              images.tar_path imageTar = archive /\
              images.tar_os imageTar = ArtifactMetadata.OS (StagedArtifact.Metadata a) /\
              images.tar_arch imageTar
              = ArtifactMetadata.Architecture (StagedArtifact.Metadata a))) /\
  (forall (St : Type) (dir : string) (s : St),
      componentNameOf (filepath.Join [dir; "cainjector-amd64.tar"]) s
      = Some ("cainjector-amd64", s)) /\
  (forall (a : StagedArtifact.t) (dir : string) (w : World) (imageTar : images.Tar)
          (tarBundles : Bundles),
      NewTar (filepath.Join [dir; "cainjector-amd64.tar"])
             (ArtifactMetadata.OS (StagedArtifact.Metadata a))
             (ArtifactMetadata.Architecture (StagedArtifact.Metadata a)) w
      = Some ((Some imageTar, None), w) ->
      exists tarBundles',
        range_imageArchives a [filepath.Join [dir; "cainjector-amd64.tar"]] tarBundles w
        = Some ((tarBundles', None), w) /\
        tarBundles' !! "cainjector-amd64"
        = Some (default [] (tarBundles !! "cainjector-amd64") ++ [imageTar]) /\
        forall k, k <> "cainjector-amd64" -> tarBundles' !! k = tarBundles !! k).
Proof.
  assert (Hexample : forall (St : Type) (dir : string) (s : St),
             componentNameOf (filepath.Join [dir; "cainjector-amd64.tar"]) s
             = Some ("cainjector-amd64", s)).
  { intros St dir s. apply (componentNameOf_last_dot _ _ "tar").
    - apply Base_Join. repeat split; try discriminate. repeat constructor.
    - repeat constructor. }
  set (stem := fun b => GoString.slice b 0
                          (GoString.len b - GoString.len (filepath.Ext b))).
  assert (Hstem : forall (St : Type) (archive : string) (s : St),
             componentNameOf archive s = Some (stem (filepath.Base archive), s) /\
             filepath.Base archive
             = stem (filepath.Base archive) +:+ filepath.Ext (filepath.Base archive)).
  { intros St archive s.
    destruct (componentNameOf_strips archive s) as (name & Hrun & Hbase).
    assert (Hname : stem (filepath.Base archive) = name).
    { unfold stem. rewrite Hbase at 1 2. rewrite len_app, Nat.add_sub. apply slice_prefix. }
    rewrite Hname. split; assumption. }
  split; [|split].
  - exists stem. split; [exact Hstem|].
    intros a imageArchives tarBundles tarBundles' w w' Hrun archive Hin.
    destruct (range_imageArchives_filed _ _ _ _ _ _ Hrun archive Hin)
      as (name & imageTar & filed & Hname & Hpath & Hos & Harch & Hfiled & Hlast).
    destruct (Hstem unit archive tt) as [Hkey _].
    rewrite Hkey in Hname. injection Hname as <-.
    exists imageTar, filed. now repeat split.
  - exact Hexample.
  - intros a dir w imageTar tarBundles Hnew.
    exists (append_to_bundle "cainjector-amd64" imageTar tarBundles).
    split; [|split].
    + eapply range_imageArchives_complete.
      eapply images_next; [exact Hnew | apply Hexample | constructor].
    + rewrite lookup_append_to_bundle. now rewrite String.eqb_refl.
    + intros k Hk. rewrite lookup_append_to_bundle.
      destruct (String.eqb_spec "cainjector-amd64" k) as [<-|_]; [contradiction | reflexivity].
Qed.

(** C7: the release that [Unpack] returns has the release version and the
    git commit reference of the staged release's metadata, as they are. *)
Theorem Unpack_copies_version_and_commit (s : Staged.t) (w w' : World)
    (u : Unpacked.t) (err : option error) :
  Unpack s w = Some ((Some u, err), w') ->
  Unpacked.ReleaseVersion u = Metadata.ReleaseVersion (Staged.Metadata s) /\
  Unpacked.GitCommitRef u = Metadata.GitCommitRef (Staged.Metadata s).
Proof.
  intros Hrun. apply Unpack_inv in Hrun. inversion Hrun; subst. now split.
Qed.

(** C8: in one run of [Unpack] the directories the extractor is entered
    on are pairwise distinct, each was made by [TempDir] in that run and
    was not among the trees on the disk before it; a run that succeeds has
    entered the extractor once for the manifests artifact and once for each
    server artifact. *)
Theorem one_directory_per_extraction (s : Staged.t) (w w' : World)
    (r : option Unpacked.t * option error) :
  Unpack s w = Some (r, w') ->
  exists evs,
    trace w' = trace w ++ evs /\
    NoDup (untar_dests evs) /\
    (forall d, In d (untar_dests evs) ->
               In (MkdirTemp d) evs /\ ~ In d (roots (disk w))) /\
    (snd r = None ->
     length (untar_dests evs) = S (length (ArtifactsOfKind s "server"))).
Proof.
  intros Hrun. apply Unpack_inv in Hrun.
  destruct (unpack_run_log _ _ _ _ Hrun) as (evs & Hlog & Hcount).
  destruct Hlog as (Htrace & _ & Hnodup & Hmade & Hfresh).
  exists evs. split; [exact Htrace|]. split; [exact Hnodup|]. split; [|exact Hcount].
  intros d Hd. apply Hmade in Hd. split; [exact Hd|]. now apply Hfresh in Hd.
Qed.

(** C9, as amended: with exactly one manifests artifact, which fetches,
    verifies and extracts, an extracted tree that can be read and in which
    every chart package loads, and no server artifact, [Unpack] succeeds
    and the release it returns has no component bundle. *)
Theorem Unpack_without_servers (s : Staged.t) (w w1 : World) (a : StagedArtifact.t)
    (dir : string) (t : Node) :
  ArtifactsOfKind s "manifests" = [a] ->
  ArtifactsOfKind s "server" = [] ->
  extractStagedArtifactToTempDir a w = Some ((dir, None), w1) ->
  lookup_disk (disk w1) dir = Some t ->
  readable t = true ->
  Forall (fun path => exists c, NewChart path w1 = Some ((Some c, None), w1))
         (files_with_ext ".tgz" (visited dir t)) ->
  exists u,
    Unpack s w = Some ((Some u, None), w1) /\
    Unpacked.ComponentImageBundles u = ∅.
Proof.
  intros Hone Hnone Hex Hroot Hread Hcharts.
  destruct (charts_built_all _ _ Hcharts []) as [charts Hbuilt].
  eexists. split.
  - apply Unpack_complete.
    eapply assembled.
    + apply manifestArtifactForStaged_one. exact Hone.
    + exact Hex.
    + apply recursiveFindWithExt_readable; eassumption.
    + exact Hbuilt.
    + apply recursiveFindWithExt_readable; eassumption.
    + rewrite Hnone. constructor.
  - reflexivity.
Qed.

(** C10: only the last extension of the base name is taken off: a base
    name [stem.suffix] whose suffix has no dot gives the key [stem], so
    foo.bar.tar gives "foo.bar" and a base name that is exactly .tar gives
    the empty key. *)
Theorem component_name_drops_last_extension_only :
  (forall (St : Type) (archive stem suffix : string) (s : St),
      filepath.Base archive = stem +:+ "." +:+ suffix ->
      Forall plain (GoString.chars suffix) ->
      componentNameOf archive s = Some (stem, s)) /\
  (forall (St : Type) (archive : string) (s : St),
      filepath.Base archive = "foo.bar.tar" ->
      componentNameOf archive s = Some ("foo.bar", s)) /\
  (forall (St : Type) (archive : string) (s : St),
      filepath.Base archive = ".tar" ->
      componentNameOf archive s = Some ("", s)).
Proof.
  split; [|split].
  - intros St archive stem suffix s. apply componentNameOf_last_dot.
  - intros St archive s Hbase.
    apply (componentNameOf_last_dot archive "foo.bar" "tar"); [exact Hbase|].
    repeat constructor.
  - intros St archive s Hbase.
    apply (componentNameOf_last_dot archive "" "tar"); [exact Hbase|].
    repeat constructor.
Qed.

End Claims.

(** * The claims on the sample release *)

Lemma checksum_gates_extraction_witness :
  exists w',
    @extractStagedArtifact Sample.collaborators Sample.tamperedA
      "/tmp/extracted-artifact-0" Sample.world
    = Some (Some (Errorf "artifact %q has a mismatching checksum - refusing to extract"
                         "cert-manager-manifests.tar.gz"), w') /\
    trace w' = trace Sample.world.
Proof.
  apply (proj2 (@checksum_gates_extraction Sample.collaborators Sample.tamperedA
                  "/tmp/extracted-artifact-0" Sample.world) Sample.manifests_bytes).
  - constructor.
  - vm_compute. discriminate.
  - vm_compute. reflexivity.
  - vm_compute. discriminate.
Defined.

Lemma Unpack_all_or_nothing_witness :
  (exists w',
      @Unpack Sample.collaborators (Sample.staged [Sample.damagedA]) Sample.damaged_world
      = Some ((None, Some (External "chart metadata missing")), w')) /\
  (exists w',
      @Unpack Sample.collaborators (Sample.staged [Sample.tamperedA; Sample.amd64A])
        Sample.world
      = Some ((None,
               Some (Errorf "artifact %q has a mismatching checksum - refusing to extract"
                            "cert-manager-manifests.tar.gz")), w')) /\
  (exists w',
      @Unpack Sample.collaborators (Sample.staged [Sample.garbledA; Sample.amd64A])
        Sample.garbled_world
      = Some ((None, Some (External "gzip: invalid header")), w')) /\
  Forall (@archive_accepted Sample.collaborators Sample.world)
         [Sample.manifestsA; Sample.amd64A; Sample.arm64A] /\
  (exists e w',
      @Unpack Sample.collaborators (Sample.staged [Sample.manifestsA; Sample.amd64A])
        Cases.used_world
      = Some ((None, Some e), w')).
Proof.
  split; [|split; [|split; [|split]]].
  - eexists.
    apply (proj1 (proj2 (@Unpack_all_or_nothing Sample.collaborators
                           (Sample.staged [Sample.damagedA]) Sample.damaged_world))).
    eapply (@stop_at_chart Sample.collaborators).
    + vm_compute. reflexivity.
    + vm_compute. reflexivity.
    + vm_compute. reflexivity.
    + eapply (@charts_stop Sample.collaborators). vm_compute. reflexivity.
  - eexists.
    apply (proj1 (proj2 (@Unpack_all_or_nothing Sample.collaborators
                           (Sample.staged [Sample.tamperedA; Sample.amd64A]) Sample.world))).
    eapply (@stop_at_manifests Sample.collaborators).
    + vm_compute. reflexivity.
    + apply (proj1 (proj2 (proj2 (@Unpack_all_or_nothing Sample.collaborators
                                    (Sample.staged [Sample.tamperedA; Sample.amd64A])
                                    Sample.world)))).
      eapply (@temp_dir_made Sample.collaborators); [vm_compute; reflexivity|].
      eapply (@stop_at_checksum Sample.collaborators);
        [vm_compute; reflexivity ..|vm_compute; discriminate].
  - eexists.
    apply (proj1 (proj2 (@Unpack_all_or_nothing Sample.collaborators
                           (Sample.staged [Sample.garbledA; Sample.amd64A])
                           Sample.garbled_world))).
    eapply (@stop_at_manifests Sample.collaborators).
    + vm_compute. reflexivity.
    + apply (proj1 (proj2 (proj2 (@Unpack_all_or_nothing Sample.collaborators
                                    (Sample.staged [Sample.garbledA; Sample.amd64A])
                                    Sample.garbled_world)))).
      eapply (@temp_dir_made Sample.collaborators); [vm_compute; reflexivity|].
      eapply (@extractor_answers Sample.collaborators); [vm_compute; reflexivity ..].
  - assert (Hrun : exists u w',
               @Unpack Sample.collaborators
                 (Sample.staged [Sample.amd64A; Sample.arm64A; Sample.manifestsA]) Sample.world
               = Some ((Some u, None), w')) by (eexists _, _; vm_compute; reflexivity).
    destruct Hrun as (u & w' & Hrun).
    destruct (proj1 (proj2 (proj2 (proj2 (@Unpack_all_or_nothing Sample.collaborators
                                            (Sample.staged [Sample.amd64A; Sample.arm64A;
                                                            Sample.manifestsA])
                                            Sample.world)))) u None w' Hrun)
      as (_ & a & Hone & Hall).
    change ([Sample.manifestsA] = [a]) in Hone. injection Hone as <-. exact Hall.
  - apply (proj2 (proj2 (proj2 (proj2 (@Unpack_all_or_nothing Sample.collaborators
                                         (Sample.staged [Sample.manifestsA; Sample.amd64A])
                                         Cases.used_world))))
                 Sample.amd64A).
    + right. now left.
    + intros (data & entries & Hobject & _). vm_compute in Hobject. discriminate Hobject.
Defined.

Lemma manifests_artifact_cardinality_witness :
  @manifestArtifactForStaged Sample.collaborators (Sample.staged [Sample.amd64A]) Sample.world
  = Some ((None, Some (Errorf "cannot find 'manifests' artifact in staged release %q"
                              "v1.2.3")), Sample.world) /\
  @manifestArtifactForStaged Sample.collaborators
    (Sample.staged [Sample.manifestsA; Sample.amd64A; Sample.manifestsB]) Sample.world
  = Some ((None, Some (Errorf "found multiple 'manifests' artifacts in staged release %q"
                              "v1.2.3")), Sample.world) /\
  @manifestArtifactForStaged Sample.collaborators
    (Sample.staged [Sample.amd64A; Sample.manifestsA]) Sample.world
  = Some ((Some Sample.manifestsA, None), Sample.world).
Proof.
  split; [|split].
  - apply (proj1 (@manifests_artifact_cardinality Sample.collaborators
                    (Sample.staged [Sample.amd64A]) Sample.world)).
    reflexivity.
  - apply (proj1 (proj2 (@manifests_artifact_cardinality Sample.collaborators
                           (Sample.staged [Sample.manifestsA; Sample.amd64A; Sample.manifestsB])
                           Sample.world))).
    vm_compute. lia.
  - apply (proj2 (proj2 (@manifests_artifact_cardinality Sample.collaborators
                           (Sample.staged [Sample.amd64A; Sample.manifestsA])
                           Sample.world))).
    reflexivity.
Defined.

Lemma server_images_accumulate_in_order_witness :
  exists bundles w' founds,
    @servers_unpacked Sample.collaborators
      (@ArtifactsOfKind Sample.collaborators
         (Sample.staged [Sample.amd64A; Sample.arm64A; Sample.manifestsA]) "server")
      ∅ Sample.world founds (bundles, None) w' /\
    Forall2 (fun a found => Forall (tagged a) found)
            (@ArtifactsOfKind Sample.collaborators
               (Sample.staged [Sample.amd64A; Sample.arm64A; Sample.manifestsA]) "server")
            founds /\
    forall k, bundles !! k = match with_key k (concat founds) with
                             | [] => None
                             | l => Some l
                             end.
Proof.
  eexists _, _.
  apply (proj1 (@server_images_accumulate_in_order Sample.collaborators)
               (Sample.staged [Sample.amd64A; Sample.arm64A; Sample.manifestsA])
               Sample.world).
  vm_compute. reflexivity.
Defined.

Lemma recursiveFindWithExt_exact_witness :
  recursiveFindWithExt "/tmp/extracted-artifact-0" ".yaml" Sample.scan_world
  = Some ((["/tmp/extracted-artifact-0/a.yaml"; "/tmp/extracted-artifact-0/c/d.yaml"], None),
          Sample.scan_world).
Proof.
  destruct (recursiveFindWithExt_exact Sample.scan_world "/tmp/extracted-artifact-0" ".yaml"
              Sample.tree eq_refl eq_refl) as (paths & Hrun & Hpaths & _).
  rewrite Hrun, Hpaths. reflexivity.
Defined.

Lemma component_name_is_base_name_without_extension_witness :
  exists tarBundles',
    @range_imageArchives Sample.collaborators Sample.amd64A
      ["/tmp/extracted-artifact-0/cainjector-amd64.tar"] ∅ Sample.image_world
    = Some ((tarBundles', None), Sample.image_world) /\
    tarBundles' !! "cainjector-amd64"
    = Some [images.mkTar "/tmp/extracted-artifact-0/cainjector-amd64.tar"
                         "linux" "amd64" "cainjector"] /\
    (forall k, k <> "cainjector-amd64" -> tarBundles' !! k = None) /\
    exists imageTar filed,
      tarBundles' !! "cainjector-amd64" = Some filed /\
      In imageTar filed /\
      images.tar_path imageTar = "/tmp/extracted-artifact-0/cainjector-amd64.tar" /\
      images.tar_os imageTar = "linux" /\
      images.tar_arch imageTar = "amd64".
Proof.
  destruct (proj2 (proj2 (@component_name_is_base_name_without_extension Sample.collaborators))
              Sample.amd64A "/tmp/extracted-artifact-0" Sample.image_world
              (images.mkTar "/tmp/extracted-artifact-0/cainjector-amd64.tar"
                            "linux" "amd64" "cainjector")
              ∅ ltac:(vm_compute; reflexivity))
    as (tarBundles' & Hrun & Hkey & Hothers).
  change (filepath.Join ["/tmp/extracted-artifact-0"; "cainjector-amd64.tar"])
    with "/tmp/extracted-artifact-0/cainjector-amd64.tar" in Hrun.
  exists tarBundles'. split; [exact Hrun|]. split; [exact Hkey|].
  split; [intros k Hk; rewrite (Hothers k Hk); apply lookup_empty|].
  destruct (proj1 (@component_name_is_base_name_without_extension Sample.collaborators))
    as (stem & Hstem & Hfiled).
  destruct (Hfiled Sample.amd64A ["/tmp/extracted-artifact-0/cainjector-amd64.tar"]
              ∅ tarBundles' Sample.image_world Sample.image_world Hrun
              "/tmp/extracted-artifact-0/cainjector-amd64.tar" ltac:(now left))
    as (imageTar & filed & Hlookup & Hin & Hpath & Hos & Harch).
  destruct (Hstem unit "/tmp/extracted-artifact-0/cainjector-amd64.tar" tt) as [Hname _].
  remember (stem (filepath.Base "/tmp/extracted-artifact-0/cainjector-amd64.tar")) as key.
  vm_compute in Hname. injection Hname as <-.
  exists imageTar, filed. now repeat split.
Defined.

Lemma Unpack_copies_version_and_commit_witness :
  exists u w',
    @Unpack Sample.collaborators
      (Sample.staged [Sample.amd64A; Sample.arm64A; Sample.manifestsA]) Sample.world
    = Some ((Some u, None), w') /\
    Unpacked.ReleaseVersion u = "v1.2.3" /\
    Unpacked.GitCommitRef u = "0a1b2c3d".
Proof.
  eexists _, _. split.
  - vm_compute. reflexivity.
  - eapply (@Unpack_copies_version_and_commit Sample.collaborators
              (Sample.staged [Sample.amd64A; Sample.arm64A; Sample.manifestsA]) Sample.world).
    vm_compute. reflexivity.
Defined.

Lemma one_directory_per_extraction_witness :
  exists evs,
    NoDup (untar_dests evs) /\
    (forall d, In d (untar_dests evs) ->
               In (MkdirTemp d) evs /\ ~ In d (roots (disk Sample.world))) /\
    length (untar_dests evs) = 3.
Proof.
  destruct (@one_directory_per_extraction Sample.collaborators
              (Sample.staged [Sample.amd64A; Sample.arm64A; Sample.manifestsA]) Sample.world
              _ _ ltac:(vm_compute; reflexivity))
    as (evs & _ & Hnodup & Hmade & Hcount).
  exists evs. split; [exact Hnodup|]. split; [exact Hmade|].
  apply Hcount. reflexivity.
Defined.

Lemma Unpack_without_servers_witness :
  exists w1 u,
    @Unpack Sample.collaborators (Sample.staged [Sample.manifestsA]) Sample.world
    = Some ((Some u, None), w1) /\
    Unpacked.ComponentImageBundles u = ∅.
Proof.
  eexists.
  eapply (@Unpack_without_servers Sample.collaborators
            (Sample.staged [Sample.manifestsA]) Sample.world _ Sample.manifestsA).
  - reflexivity.
  - reflexivity.
  - vm_compute. reflexivity.
  - vm_compute. reflexivity.
  - reflexivity.
  - vm_compute. repeat constructor. eexists. vm_compute. reflexivity.
Defined.

Lemma component_name_drops_last_extension_only_witness :
  componentNameOf "/tmp/extracted-artifact-0/foo.bar.tar" tt = Some ("foo.bar", tt) /\
  componentNameOf "/tmp/extracted-artifact-0/.tar" tt = Some ("", tt) /\
  componentNameOf "/tmp/extracted-artifact-0/images/cainjector.tar.gz" tt
  = Some ("cainjector.tar", tt).
Proof.
  split; [|split].
  - apply (proj1 (proj2 component_name_drops_last_extension_only)). reflexivity.
  - apply (proj2 (proj2 component_name_drops_last_extension_only)). reflexivity.
  - apply (proj1 component_name_drops_last_extension_only _ _ "cainjector.tar" "gz").
    + reflexivity.
    + repeat constructor.
Defined.

(** The claim C9 as written does not hold: here the one manifests artifact
    fetches, verifies and extracts, there is no server artifact, and
    [Unpack] fails, on the chart package that does not load. *)
Lemma Unpack_without_servers_can_fail :
  @ArtifactsOfKind Sample.collaborators (Sample.staged [Sample.damagedA]) "manifests"
  = [Sample.damagedA] /\
  @ArtifactsOfKind Sample.collaborators (Sample.staged [Sample.damagedA]) "server" = [] /\
  (exists dir w1,
      @extractStagedArtifactToTempDir Sample.collaborators Sample.damagedA Sample.damaged_world
      = Some ((dir, None), w1)) /\
  ~ (exists u w',
        @Unpack Sample.collaborators (Sample.staged [Sample.damagedA]) Sample.damaged_world
        = Some ((Some u, None), w')).
Proof.
  split; [reflexivity|]. split; [reflexivity|]. split.
  - eexists _, _. vm_compute. reflexivity.
  - intros (u & w' & Hrun). vm_compute in Hrun. discriminate Hrun.
Qed.

(** * Further properties of the code *)

(** ** The properties, one by one *)

(** X1: the scan reports an error exactly when its root is missing or the
    tree under it has a name that cannot be examined or a directory that
    cannot be listed; it then returns no path at all, whatever it had
    collected before the error. *)
Theorem scan_error_is_fatal (w : World) (root ext : string) :
  exists paths err,
    recursiveFindWithExt root ext w = Some ((paths, err), w) /\
    (err = None <-> exists t, lookup_disk (disk w) root = Some t /\ readable t = true) /\
    (err <> None -> paths = []).
Proof.
  destruct (lookup_disk (disk w) root) as [t|] eqn:Hroot.
  - destruct (readable t) eqn:Hread.
    + eexists _, _. split; [apply recursiveFindWithExt_readable; eassumption|].
      split; [|congruence]. split; [eauto | reflexivity].
    + destruct (recursiveFindWithExt_unreadable _ ext _ _ Hroot Hread) as [e He].
      eexists _, _. split; [exact He|]. split; [|reflexivity].
      split; [discriminate|]. intros (t' & [= <-] & Hread'). congruence.
  - eexists _, _. split; [apply recursiveFindWithExt_missing; eassumption|].
    split; [|reflexivity]. split; [discriminate|]. now intros (t & [=] & _).
Qed.

(** X2: the scan changes nothing; and where its root is a clean path,
    neither [.] nor the separator alone, and the listings of the tree hold
    names of entries, every path it returns is its root or lies below its
    root.  [Walk] names what it visits by [Join], which cleans: a root
    that is not clean is not a prefix of what is found below it. *)
Theorem scan_stays_under_root (w w' : World) (root ext : string)
    (paths : list string) (err : option error) :
  recursiveFindWithExt root ext w = Some ((paths, err), w') ->
  w' = w /\
  (filepath.Clean root = root -> root <> "." -> root <> "/" ->
   (forall t, lookup_disk (disk w) root = Some t -> entries_named t = true) ->
   forall p, In p paths -> p = root \/ exists rest, p = root +:+ "/" +:+ rest).
Proof.
  intros Hrun. destruct err as [e|].
  - destruct (recursiveFindWithExt_total root ext w) as (paths0 & err0 & Hrun0 & Hshape).
    rewrite Hrun in Hrun0. inversion Hrun0; subst.
    split; [reflexivity|]. destruct Hshape as [Hnone| ->]; [discriminate|].
    intros _ _ _ _ p [].
  - apply recursiveFindWithExt_ok_inv in Hrun.
    destruct Hrun as (-> & t & Hroot & Hread & ->).
    split; [reflexivity|]. intros Hclean Hdot Hsep Hnamed p Hin.
    apply in_files_with_ext in Hin. destruct Hin as [Hin _].
    apply visited_file_at in Hin.
    apply (file_at_under _ _ _ Hin); auto.
Qed.

(** X3: what the scan returns does not depend on the order in which the
    directories of the tree are listed. *)
Theorem scan_ignores_listing_order (w w' : World) (root ext : string) (t t' : Node) :
  lookup_disk (disk w) root = Some t ->
  lookup_disk (disk w') root = Some t' ->
  relisted t t' ->
  forall paths err,
    recursiveFindWithExt root ext w = Some ((paths, err), w) ->
    recursiveFindWithExt root ext w' = Some ((paths, err), w').
Proof.
  intros Hroot Hroot' Hre paths err.
  unfold recursiveFindWithExt, bind, get, Walk. rewrite Hroot, Hroot'.
  rewrite (walk_relisted _ _ _ _ Hre).
  destruct (walk (find_walkFn ext) root t' []) as [[[e|] found]|]; unfold ret;
    intros [= <- <-]; reflexivity.
Qed.

Section FurtherUnpacking.

Context `{Collaborators}.

(** X4: [Unpack] leaves the bucket as it is and takes nothing off the
    disk, however it ends.  What it makes comes after the trees that were
    there, which are found as before; and it is not cleaned up: when
    [Unpack] returns, with a release or with an error, the directory of
    every extraction it began is among the trees it added, and so is, for
    every archive that reached the extractor, a file holding the bytes of
    that archive. *)
Theorem Unpack_only_adds (s : Staged.t) (w w' : World)
    (r : option Unpacked.t * option error) :
  Unpack s w = Some (r, w') ->
  objects w' = objects w /\
  (exists added evs,
      disk w' = disk w ++ added /\
      trace w' = trace w ++ evs /\
      (forall d, In (MkdirTemp d) evs -> exists entries, In (d, Dir entries) added) /\
      (forall dest data, In (Untar dest data) evs -> exists f, In (f, File data) added)) /\
  (forall p n, lookup_disk (disk w) p = Some n -> lookup_disk (disk w') p = Some n).
Proof.
  intros Hrun. apply Unpack_inv in Hrun.
  destruct (unpack_run_grows _ _ _ _ Hrun) as (Hobjects & _).
  destruct (unpack_run_leaves _ _ _ _ Hrun) as (added & evs & Hdisk & Htrace & Hdirs & Hfiles).
  split; [exact Hobjects|]. split.
  - exists added, evs. now repeat split.
  - intros p n Hp. rewrite Hdisk. now apply lookup_disk_app.
Qed.

(** X5: the charts and the manifests of a release that [Unpack] returns
    are the files with the extensions .tgz and .yaml of one tree, the one
    the release's only manifests artifact was extracted to, each list in
    the order of the walk. *)
Theorem Unpack_lists_the_manifests_tree (s : Staged.t) (w w' : World)
    (u : Unpacked.t) (err : option error) :
  Unpack s w = Some ((Some u, err), w') ->
  exists a dir w1 t,
    ArtifactsOfKind s "manifests" = [a] /\
    extractStagedArtifactToTempDir a w = Some ((dir, None), w1) /\
    lookup_disk (disk w1) dir = Some t /\
    readable t = true /\
    Unpacked.Charts u = map manifests.mkChart (files_with_ext ".tgz" (visited dir t)) /\
    Unpacked.YAMLs u = map manifests.mkYAML (files_with_ext ".yaml" (visited dir t)).
Proof.
  intros Hrun. apply Unpack_inv in Hrun.
  inversion Hrun as [| | | | | |a dir w1 chartPaths charts yamlPaths founds bundles w2
                                Hsel Hex Hscan Hcharts Hyaml Hservers]; subst.
  apply manifestArtifactForStaged_ok in Hsel.
  apply recursiveFindWithExt_ok_inv in Hscan. destruct Hscan as (_ & t & Hroot & Hread & ->).
  apply recursiveFindWithExt_ok_inv in Hyaml. destruct Hyaml as (_ & t' & Hroot' & _ & ->).
  assert (t' = t) by congruence. subst t'.
  apply charts_built_ok in Hcharts. destruct Hcharts as [-> _].
  exists a, dir, w1, t. now repeat split.
Qed.

(** X6: an extraction that returns no error has read the object the
    record points to, found its digest to be the declared one, and entered
    the extractor on the bytes of that object and on nothing else. *)
Theorem extracted_bytes_are_the_object (a : StagedArtifact.t) (dest : string)
    (w w' : World) :
  extractStagedArtifact a dest w = Some (None, w') ->
  exists data,
    objects w !! StagedArtifact.ObjectHandle a = Some data /\
    sha256hex data = ArtifactMetadata.SHA256 (StagedArtifact.Metadata a) /\
    trace w' = trace w ++ [Untar dest data].
Proof.
  intros Hrun.
  destruct (post_elim _ _ _ _ _ (extractStagedArtifact_object a dest w) Hrun)
    as [[[e He] _]|(data & Hobj & Hsum & Htrace & _)]; [discriminate|].
  now exists data.
Qed.

(** X7: [sha256SumFile] never panics and changes nothing; with an error
    it returns the empty string, and without one the SHA-256 of the file's
    content as 64 lowercase hexadecimal digits. *)
Theorem sha256SumFile_digest (filename : string) (w : World) :
  exists sum err w',
    sha256SumFile filename w = Some ((sum, err), w') /\
    quiet w w' /\
    match err with
    | Some _ => sum = ""
    | None =>
        digest_shaped sum = true /\
        exists data, lookup_disk (disk w) filename = Some (File data) /\ sum = sha256hex data
    end.
Proof.
  destruct (sha256SumFile_post filename w
              (fun r w' =>
                 quiet w w' /\
                 match snd r with
                 | Some _ => fst r = ""
                 | None =>
                     digest_shaped (fst r) = true /\
                     exists data, lookup_disk (disk w) filename = Some (File data) /\
                                  fst r = sha256hex data
                 end))
    as ([sum err] & w' & Hrun & Hquiet & Hshape).
  - intros e w' Hquiet _. now split.
  - intros data w' Hquiet _ Hfile. split; [exact Hquiet|]. simpl.
    split; [apply digest_shaped_sha256hex | eauto].
  - exists sum, err, w'. split; [exact Hrun|]. split; [exact Hquiet | exact Hshape].
Qed.

(** X8: a record whose declared digest is not 64 lowercase hexadecimal
    digits, one written in capitals for instance, is never extracted:
    the extraction returns an error and the extractor is not entered. *)
Theorem malformed_digest_never_extracts (a : StagedArtifact.t) (dest : string) (w : World) :
  digest_shaped (ArtifactMetadata.SHA256 (StagedArtifact.Metadata a)) = false ->
  exists e w',
    extractStagedArtifact a dest w = Some (Some e, w') /\ trace w' = trace w.
Proof.
  intros Hshape.
  destruct (extractStagedArtifact_object a dest w) as (err & w' & Hrun & Hcases).
  destruct Hcases as [[[e ->] Htrace]|(data & _ & Hsum & _)].
  - now exists e, w'.
  - rewrite <- Hsum, digest_shaped_sha256hex in Hshape. discriminate.
Qed.

(** X9: in the bundles that [unpackServerImagesFromRelease] returns no
    key has an empty list, and every descriptor under a key is of a file
    whose base name is the key followed by .tar, with the OS and
    architecture of one of the release's server artifacts. *)
Theorem bundle_key_names_its_archives (s : Staged.t) (w w' : World) (bundles : Bundles) :
  unpackServerImagesFromRelease s w = Some ((bundles, None), w') ->
  forall k ts,
    bundles !! k = Some ts ->
    ts <> [] /\
    forall t, In t ts ->
      filepath.Base (images.tar_path t) = k +:+ ".tar" /\
      exists a,
        In a (ArtifactsOfKind s "server") /\
        images.tar_os t = ArtifactMetadata.OS (StagedArtifact.Metadata a) /\
        images.tar_arch t = ArtifactMetadata.Architecture (StagedArtifact.Metadata a).
Proof.
  intros Hrun k ts Hk.
  apply unpackServerImagesFromRelease_inv in Hrun. destruct Hrun as [founds Hservers].
  pose proof (servers_unpacked_paths _ _ _ _ _ _ Hservers) as Hexts.
  apply servers_unpacked_classify in Hservers. destruct Hservers as [-> Htagged].
  rewrite lookup_classify, lookup_empty in Hk.
  destruct (with_key k (concat founds)) as [|t0 l] eqn:Hkey; [discriminate|].
  simpl in Hk. injection Hk as <-. split; [discriminate|].
  intros t Hin. rewrite <- Hkey in Hin. apply in_with_key in Hin.
  rewrite List.Forall_forall in Hexts. pose proof (Hexts _ Hin) as Hext. simpl in Hext.
  destruct (in_concat_Forall2 _ _ _ _ Htagged Hin) as (a & Ha & Hos & Harch & Hname).
  simpl in Hos, Harch, Hname. split; [|now exists a].
  destruct (componentNameOf_strips (images.tar_path t) tt) as (name & Hrun & Hbase).
  rewrite Hrun in Hname. injection Hname as ->.
  rewrite Hbase at 1. rewrite Ext_Base by (rewrite Hext; discriminate). now rewrite Hext.
Qed.

(** X10: without exactly one manifests artifact [Unpack] returns an
    error before it has fetched or written anything: the world is as it
    was. *)
Theorem Unpack_needs_one_manifests_artifact (s : Staged.t) (w : World) :
  length (ArtifactsOfKind s "manifests") <> 1 ->
  exists e, Unpack s w = Some ((None, Some e), w).
Proof.
  intros Hcount.
  destruct (ArtifactsOfKind s "manifests") as [|a [|b rest]] eqn:Hkind;
    [|simpl in Hcount; congruence|].
  - eexists. apply Unpack_complete. eapply stop_at_selection.
    now apply manifestArtifactForStaged_none.
  - eexists. apply Unpack_complete. eapply stop_at_selection.
    eapply manifestArtifactForStaged_many. eassumption.
Qed.

(** X21: the manifests are dealt with before any server artifact is
    fetched.  When the tree the manifests were extracted to cannot be read
    to its end, or holds a chart package that does not load, [Unpack]
    returns an error with the world as the extraction of the manifests
    left it: no server artifact has been downloaded or extracted. *)
Theorem Unpack_stops_before_the_servers (s : Staged.t) (w w1 : World)
    (a : StagedArtifact.t) (dir : string) (t : Node) :
  ArtifactsOfKind s "manifests" = [a] ->
  extractStagedArtifactToTempDir a w = Some ((dir, None), w1) ->
  lookup_disk (disk w1) dir = Some t ->
  readable t = false \/
  (exists p, In p (files_with_ext ".tgz" (visited dir t)) /\
             forall c, NewChart p w1 <> Some ((Some c, None), w1)) ->
  exists e, Unpack s w = Some ((None, Some e), w1).
Proof.
  intros Hone Hex Hroot Hbad.
  pose proof (manifestArtifactForStaged_one s w a Hone) as Hsel.
  destruct (readable t) eqn:Hread.
  - destruct Hbad as [|(p & Hin & Hfails)]; [discriminate|].
    pose proof (recursiveFindWithExt_readable dir ".tgz" t w1 Hroot Hread) as Hscan.
    destruct (charts_built_fail w1 _ p Hin Hfails []) as (cs & e & Hbuilt).
    exists e. apply Unpack_complete. eapply stop_at_chart; eassumption.
  - destruct (recursiveFindWithExt_unreadable dir ".tgz" t w1 Hroot Hread) as [e Hscan].
    exists e. apply Unpack_complete. eapply stop_at_chart_scan; eassumption.
Qed.

End FurtherUnpacking.

Section FurtherStaging.

(** X11: [appendArtifactWithPostprocess] appends one record or none.
    Without an error the list has one more record, with the name, OS and
    architecture given and the digest of the file at the artifact's path
    as the call leaves it, so after the post-processing; with an error the
    list is as it was, and the error wraps, with that path, the error of
    the post-processing or of the hashing. *)
Theorem appendArtifactWithPostprocess_cases (artifacts artifacts' : list ArtifactMetadata.t)
    (repoPath name os arch : string) (postprocess : option cmd.postprocessFunc)
    (w w' : World) (err : option error) :
  cmd.appendArtifactWithPostprocess artifacts repoPath name os arch postprocess w
  = Some ((artifacts', err), w') ->
  match err with
  | None =>
      exists data,
        lookup_disk (disk w') (cmd.buildArtifactPath repoPath ["build"; "release-tars"; name])
        = Some (File data) /\
        artifacts' = artifacts ++ [ArtifactMetadata.mk name (sha256hex data) os arch]
  | Some e =>
      artifacts' = artifacts /\
      exists cause,
        e = Wrapf cmd.failed_to_postprocess
                  (cmd.buildArtifactPath repoPath ["build"; "release-tars"; name]) cause \/
        e = Wrapf cmd.failed_to_compute_sha256sum
                  (cmd.buildArtifactPath repoPath ["build"; "release-tars"; name]) cause
  end.
Proof.
  intros Hrun.
  set (path := cmd.buildArtifactPath repoPath ["build"; "release-tars"; name]) in *.
  set (step := match postprocess with
               | Some postprocess => postprocess path
               | None => ret None
               end).
  destruct (step w) as [[err1 w1]|] eqn:Hstep.
  2: { unfold cmd.appendArtifactWithPostprocess, bind in Hrun. fold path step in Hrun.
       now rewrite Hstep in Hrun. }
  refine (post_elim _ _ _ _
            (fun r w' =>
               match snd r with
               | None =>
                   exists data,
                     lookup_disk (disk w') path = Some (File data) /\
                     fst r = artifacts ++ [ArtifactMetadata.mk name (sha256hex data) os arch]
               | Some e =>
                   fst r = artifacts /\
                   exists cause,
                     e = Wrapf cmd.failed_to_postprocess path cause \/
                     e = Wrapf cmd.failed_to_compute_sha256sum path cause
               end) _ Hrun).
  apply appendArtifactWithPostprocess_post. fold path step.
  exists err1, w1. split; [exact Hstep|].
  destruct err1 as [e|]; simpl.
  - split; [reflexivity|]. eauto.
  - split.
    + intros e w2 _ _. split; [reflexivity|]. eauto.
    + intros data w2 (_ & Hdisk & _) _ Hfile. exists data. split; [congruence | reflexivity].
Qed.

(** X12: [appendArtifact] never panics and leaves the disk and the bucket
    as they are.  When the archive is where the build leaves it and
    neither opening nor reading it fails, the record appended has the
    digest of that archive; when there is no such file, the list is as it
    was and the error says so with the path. *)
Theorem appendArtifact_hashes_the_built_file (artifacts : list ArtifactMetadata.t)
    (repoPath name os arch : string) (w : World) :
  exists r w',
    cmd.appendArtifact artifacts repoPath name os arch w = Some (r, w') /\
    quiet w w' /\
    (forall data,
        lookup_disk (disk w) (cmd.buildArtifactPath repoPath ["build"; "release-tars"; name])
        = Some (File data) ->
        Forall (eq None) (take 2 (faults w)) ->
        r = (artifacts ++ [ArtifactMetadata.mk name (sha256hex data) os arch], None)) /\
    ((forall data,
         lookup_disk (disk w) (cmd.buildArtifactPath repoPath ["build"; "release-tars"; name])
         <> Some (File data)) ->
     exists e,
       r = (artifacts,
            Some (Wrapf cmd.failed_to_compute_sha256sum
                        (cmd.buildArtifactPath repoPath ["build"; "release-tars"; name]) e))).
Proof.
  set (path := cmd.buildArtifactPath repoPath ["build"; "release-tars"; name]).
  unfold cmd.appendArtifact.
  apply appendArtifactWithPostprocess_post. fold path.
  apply post_ret. split.
  - intros e w' Hquiet Hwhy. split; [exact Hquiet|]. split.
    + intros data Hfile Hfaults. exfalso.
      destruct (no_fault_step _ _ Hfaults) as [Hfirst Hnext].
      destruct Hwhy as [Hwhy|[Hwhy|Hwhy]]; [congruence | now apply (Hwhy data) |].
      specialize (Hnext (set_faults (tail (faults w)) w) eq_refl). simpl in Hnext.
      destruct (tail (faults w)); [discriminate|].
      inversion Hnext; subst. discriminate.
    + intros _. now exists e.
  - intros data w' Hquiet _ Hfile. split; [exact Hquiet|]. split.
    + intros data' Hfile' _. repeat f_equal. congruence.
    + intros Hnofile. now destruct (Hnofile data).
Qed.

(** X13: what the staging command records, the unpacker accepts.  When
    [appendArtifact] has appended a record for an archive, and the object a
    staged artifact with that record points to holds the bytes of that
    archive, then an extraction that nothing else stops (no fault in its
    seven calls before the comparison, a name free for the temporary file)
    passes the comparison of digests and enters the extractor on those
    bytes. *)
Theorem staged_record_verifies `{Collaborators}
    (artifacts artifacts' : list ArtifactMetadata.t) (repoPath name os arch : string)
    (built built' : World) (data : Bytes)
    (a : StagedArtifact.t) (dest : string) (w : World) :
  cmd.appendArtifact artifacts repoPath name os arch built = Some ((artifacts', None), built') ->
  lookup_disk (disk built) (cmd.buildArtifactPath repoPath ["build"; "release-tars"; name])
  = Some (File data) ->
  last artifacts' = Some (StagedArtifact.Metadata a) ->
  objects w !! StagedArtifact.ObjectHandle a = Some data ->
  Forall (eq None) (take 7 (faults w)) ->
  pick_fresh (on_disk w) (temp_name "temp-artifact-") max_tries (serial w) <> None ->
  exists err w',
    extractStagedArtifact a dest w = Some (err, w') /\
    trace w' = trace w ++ [Untar dest data].
Proof.
  intros Hstaged Hfile Hlast Hobject Hfaults Hname.
  apply extractStagedArtifact_match; try assumption.
  apply appendArtifact_inv in Hstaged. destruct Hstaged as (data' & Hfile' & ->).
  rewrite last_snoc_Some in Hlast. injection Hlast as <-. simpl. congruence.
Qed.

(** X14: the build is started with the image repository of the options
    as its DOCKER_REGISTRY, whatever the environment of the staging command
    says: of the entries for one key the last is in effect, and the entry
    made from the options comes last.  Every other variable is passed on as
    it is in effect in that environment. *)
Theorem bazelBuildEnv_sets_the_registry (environ : list string) (opts : gcbStageOptions.t) :
  in_effect (cmd.bazelBuildEnv environ opts) "DOCKER_REGISTRY"
  = Some ("DOCKER_REGISTRY=" +:+ gcbStageOptions.PublishedImageRepository opts) /\
  forall key,
    key <> "DOCKER_REGISTRY" ->
    in_effect (cmd.bazelBuildEnv environ opts) key = in_effect environ key.
Proof.
  unfold in_effect, cmd.bazelBuildEnv. split.
  - rewrite List.filter_app. cbn [List.filter]. unfold defines at 2.
    change ("DOCKER_REGISTRY=" +:+ gcbStageOptions.PublishedImageRepository opts)
      with ("DOCKER_REGISTRY" +:+ "=" +:+ gcbStageOptions.PublishedImageRepository opts).
    rewrite option_map_env_key by (repeat constructor).
    rewrite String.eqb_refl. apply last_snoc_Some.
  - intros key Hkey. rewrite List.filter_app. cbn [List.filter]. unfold defines at 2.
    change ("DOCKER_REGISTRY=" +:+ gcbStageOptions.PublishedImageRepository opts)
      with ("DOCKER_REGISTRY" +:+ "=" +:+ gcbStageOptions.PublishedImageRepository opts).
    rewrite option_map_env_key by (repeat constructor).
    destruct (String.eqb_spec "DOCKER_REGISTRY" key) as [Heq|_]; [congruence|].
    now rewrite app_nil_r.
Qed.

(** X15: with a repository path that is clean, and neither [.] nor the
    root, the path of an artifact is that path, [bazel-bin] and the
    elements given, one after the other with a separator between; with no
    repository path it is the same without it, a path relative to the
    working directory. *)
Theorem buildArtifactPath_joins (repoRoot : string) (artifactPaths : list string) :
  Forall names_entry artifactPaths ->
  (filepath.Clean repoRoot = repoRoot -> repoRoot <> "." -> repoRoot <> "/" ->
   cmd.buildArtifactPath repoRoot artifactPaths
   = filepath.strings_Join (repoRoot :: "bazel-bin" :: artifactPaths) "/") /\
  cmd.buildArtifactPath "" artifactPaths
  = filepath.strings_Join ("bazel-bin" :: artifactPaths) "/".
Proof.
  intros Hnames.
  assert (Hbin : names_entry "bazel-bin").
  { repeat split; try discriminate. repeat constructor. }
  split.
  - intros Hclean Hdot Hroot. unfold cmd.buildArtifactPath. cbn [app].
    apply Join_clean; try assumption. now constructor.
  - unfold cmd.buildArtifactPath. cbn [app]. unfold filepath.Join. cbn [filepath.join String.eqb negb].
    apply (Join_clean "bazel-bin" artifactPaths); try discriminate; try assumption.
    now apply Clean_entry.
Qed.

(** X16: whatever the repository path and the directories between, the
    base name of the path of an artifact is the name of the artifact,
    provided that names an entry. *)
Theorem buildArtifactPath_ends_with_the_name (repoRoot : string) (dirs : list string)
    (name : string) :
  names_entry name ->
  filepath.Base (cmd.buildArtifactPath repoRoot (dirs ++ [name])) = name.
Proof.
  intros Hname. unfold cmd.buildArtifactPath, filepath.Join.
  destruct (String.eqb_spec repoRoot "") as [->|Hroot].
  - change (filepath.Base (filepath.join (("bazel-bin" :: dirs) ++ [name])) = name).
    apply join_Base; [discriminate | exact Hname].
  - change ([repoRoot; "bazel-bin"] ++ dirs ++ [name])
      with ((repoRoot :: "bazel-bin" :: dirs) ++ [name]).
    now apply join_Base.
Qed.

End FurtherStaging.

Section FurtherCommand.

Context `{cmd.Stager}.

(** A subprocess returns and leaves the bucket alone; so does the
    signing. *)
Hypothesis Run_keeps_bucket :
  forall wd env name args w,
    post (cmd.Run wd env name args) w (fun _ w' => objects w' = objects w).
Hypothesis sign_keeps_bucket :
  forall key path version w,
    post (cmd.CertManagerManifests key path version) w (fun _ w' => objects w' = objects w).

(** X17: told to skip the push, [runGCBStage] returns, with or without an
    error, and the bucket is as it was: the records are made and the
    metadata encoded, and nothing is uploaded. *)
Theorem runGCBStage_skip_push (o : gcbStageOptions.t) (w : World) :
  gcbStageOptions.SkipPush o = true ->
  exists err w',
    cmd.runGCBStage o w = Some (err, w') /\ objects w' = objects w.
Proof.
  intros Hskip.
  destruct (runGCBStage_outcome Run_keeps_bucket sign_keeps_bucket o w)
    as (err & w' & Hrun & Houtcome).
  exists err, w'. split; [exact Hrun|].
  destruct Houtcome as [[Hbucket _]|[Hpush _]]; [exact Hbucket | congruence].
Qed.

(** X18: the metadata is written last, and only by a run that succeeds.
    Whatever object of the bucket a run has changed is in the directory
    the run stages to, made from the commit and the version the run read,
    and is the object of an artifact, named as artifacts are and holding
    the archive that is on the disk, or else is the metadata; and the
    metadata is among them only when the run returned no error. *)
Theorem runGCBStage_writes_metadata_last (o : gcbStageOptions.t) (w : World) :
  exists err w',
    cmd.runGCBStage o w = Some (err, w') /\
    forall h,
      objects w' !! h <> objects w !! h ->
      exists gitRef releaseVersion,
        read_at_start o w gitRef releaseVersion /\
        ((err = None /\ h = metadata_object o (outputDir_of o releaseVersion gitRef)) \/
         (exists a rest,
             h = artifact_object o (outputDir_of o releaseVersion gitRef) a /\
             ArtifactMetadata.Name a = "cert-manager-" +:+ rest /\
             objects w' !! h
             = Some (file_bytes (disk w') (artifact_file (gcbStageOptions.RepoPath o) a)))).
Proof.
  destruct (runGCBStage_outcome Run_keeps_bucket sign_keeps_bucket o w)
    as (err & w' & Hrun & Houtcome).
  exists err, w'. split; [exact Hrun|]. intros h Hchanged.
  destruct Houtcome as [[Hbucket _]|[_ Hpush]].
  { now rewrite Hbucket in Hchanged. }
  destruct Hpush as (gitRef & releaseVersion & targetOSes & targetArches & artifacts & sum
                     & meta & Hread & _ & _ & Htargets & _ & _ & _ & Hcases).
  exists gitRef, releaseVersion. split; [exact Hread|].
  assert (Hnamed : forall a k,
             In a (take k (artifacts
                           ++ [ArtifactMetadata.mk "cert-manager-manifests.tar.gz" sum "" ""])) ->
             exists rest, ArtifactMetadata.Name a = "cert-manager-" +:+ rest).
  { intros a k Hin. apply take_In, in_app_or in Hin. destruct Hin as [Hin|[<-|[]]].
    - rewrite List.Forall_forall in Htargets. eapply from_target_prefix. now apply Htargets.
    - now exists "manifests.tar.gz". }
  assert (Harchive : forall k,
             objects w'
             = pushed o (outputDir_of o releaseVersion gitRef) (disk w')
                 (take k (artifacts
                          ++ [ArtifactMetadata.mk "cert-manager-manifests.tar.gz" sum "" ""]))
                 (objects w) ->
             exists a rest,
               h = artifact_object o (outputDir_of o releaseVersion gitRef) a /\
               ArtifactMetadata.Name a = "cert-manager-" +:+ rest /\
               objects w' !! h
               = Some (file_bytes (disk w') (artifact_file (gcbStageOptions.RepoPath o) a))).
  { intros k Hobjects. rewrite Hobjects in Hchanged.
    destruct (pushed_changed _ _ _ _ _ _ Hchanged) as (a & Hin & Hh & Hvalue).
    destruct (Hnamed a k Hin) as [rest Hrest].
    exists a, rest. split; [exact Hh|]. split; [exact Hrest|]. now rewrite Hobjects. }
  destruct Hcases as [[_ [k Hobjects]]|[-> Hobjects]].
  - right. now apply (Harchive k).
  - destruct (decide (metadata_object o (outputDir_of o releaseVersion gitRef) = h))
      as [<-|Hother]; [left; now split|].
    right.
    set (all := artifacts ++ [ArtifactMetadata.mk "cert-manager-manifests.tar.gz" sum "" ""])
      in *.
    assert (Hlookup : objects w' !! h
                      = pushed o (outputDir_of o releaseVersion gitRef) (disk w') all
                          (objects w) !! h).
    { rewrite Hobjects. now apply lookup_insert_ne. }
    rewrite Hlookup in Hchanged.
    destruct (pushed_changed _ _ _ _ _ _ Hchanged) as (a & Hin & Hh & Hvalue).
    destruct (Hnamed a (length all)) as [rest Hrest]; [now rewrite firstn_all|].
    exists a, rest. split; [exact Hh|]. split; [exact Hrest|]. now rewrite Hlookup.
Qed.

(** X19: what a run has staged, the unpacker accepts.  Where subprocesses
    and signing keep the files that are there (but the file signed), no
    target has a separator in its name, and the metadata is not named as
    artifacts are, a run that pushes and returns no error leaves in the
    bucket the metadata it encoded, which lists the release version given
    as an option, the commit read, and records with the manifests last;
    and for every record the object of its artifact holds bytes with the
    digest recorded, so that an extraction of that artifact which
    nothing else stops passes the comparison of digests and enters the
    extractor on those bytes. *)
Theorem staged_release_unpacks `{Collaborators} (o : gcbStageOptions.t) (w : World) :
  files_kept ->
  targets_plain o ->
  (forall rest, cmd.MetadataFileName <> "cert-manager-" +:+ rest) ->
  gcbStageOptions.SkipPush o = false ->
  exists err w',
    cmd.runGCBStage o w = Some (err, w') /\
    (err = None ->
     exists gitRef releaseVersion artifacts sum meta,
       cmd.MarshalIndent
         (Metadata.mk (gcbStageOptions.ReleaseVersion o) gitRef
            (artifacts ++ [ArtifactMetadata.mk "cert-manager-manifests.tar.gz" sum "" ""]))
       = inr meta /\
       objects w' !! metadata_object o (outputDir_of o releaseVersion gitRef) = Some meta /\
       forall a,
         In a (artifacts ++ [ArtifactMetadata.mk "cert-manager-manifests.tar.gz" sum "" ""]) ->
         exists data,
           objects w' !! artifact_object o (outputDir_of o releaseVersion gitRef) a = Some data /\
           ArtifactMetadata.SHA256 a = sha256hex data /\
           forall dest u,
             objects u = objects w' ->
             Forall (eq None) (take 7 (faults u)) ->
             pick_fresh (on_disk u) (temp_name "temp-artifact-") max_tries (serial u) <> None ->
             exists e u',
               extractStagedArtifact
                 (StagedArtifact.mk a
                    (artifact_object o (outputDir_of o releaseVersion gitRef) a)) dest u
               = Some (e, u') /\
               trace u' = trace u ++ [Untar dest data]).
Proof.
  intros Hkept Hplain Hmetadata Hpush.
  destruct (runGCBStage_outcome Run_keeps_bucket sign_keeps_bucket o w)
    as (err & w' & Hrun & Houtcome).
  exists err, w'. split; [exact Hrun|]. intros ->.
  destruct Houtcome as [[_ [[e [=]]|Hskip]]|[_ Hpushed]]; [congruence|].
  destruct Hpushed as (gitRef & releaseVersion & targetOSes & targetArches & artifacts & sum
                       & meta & _ & _ & _ & Htargets & _ & Hmeta & Hrecorded & Hcases).
  destruct Hcases as [[[e [=]] _]|[_ Hobjects]].
  exists gitRef, releaseVersion, artifacts, sum, meta.
  set (all := artifacts ++ [ArtifactMetadata.mk "cert-manager-manifests.tar.gz" sum "" ""]) in *.
  set (outputDir := outputDir_of o releaseVersion gitRef) in *.
  split; [exact Hmeta|]. split; [rewrite Hobjects; apply lookup_insert_eq|].
  intros a Hin.
  assert (Hnamed : exists rest, ArtifactMetadata.Name a = "cert-manager-" +:+ rest).
  { apply in_app_or in Hin. destruct Hin as [Hin|[<-|[]]].
    - rewrite List.Forall_forall in Htargets. eapply from_target_prefix. now apply Htargets.
    - now exists "manifests.tar.gz". }
  assert (Hother : metadata_object o outputDir <> artifact_object o outputDir a).
  { unfold metadata_object, artifact_object. intros Heq.
    apply ObjectHandle_inj, buildObjectName_inj in Heq.
    destruct Hnamed as [rest Hrest]. apply (Hmetadata rest). congruence. }
  specialize (Hrecorded Hkept Hplain). rewrite List.Forall_forall in Hrecorded.
  destruct (Hrecorded a Hin) as (data & Hfile & Hsum).
  assert (Hobject : objects w' !! artifact_object o outputDir a = Some data).
  { rewrite Hobjects, lookup_insert_ne by exact Hother.
    rewrite pushed_lookup by exact Hin. unfold file_bytes. now rewrite Hfile. }
  exists data. split; [exact Hobject|]. split; [exact Hsum|].
  intros dest u Hbucket Hfaults Hname.
  apply extractStagedArtifact_match; try assumption.
  - simpl. now rewrite Hbucket.
  - simpl. now symmetry.
Qed.

(** X20: the metadata that a run which pushes and succeeds has uploaded is
    the encoding of the release version as the option gives it (empty for
    a development build, whatever version the build reports), of the commit
    read at the start, and of the records.  These are, by name, OS and
    architecture and in this order, exactly the artifacts asked for: for
    each OS in the list of the option, in its order, and each architecture
    of that OS that is asked for too, the server archive where the OS is
    one for servers and then the two client archives where it is one for
    clients and the version ships cmctl; and after them, last, the record
    of the manifests, with neither OS nor architecture. *)
Theorem runGCBStage_metadata (o : gcbStageOptions.t) (w : World) :
  gcbStageOptions.SkipPush o = false ->
  exists err w',
    cmd.runGCBStage o w = Some (err, w') /\
    (err = None ->
     exists gitRef releaseVersion targetOSes targetArches artifacts sum meta,
       read_at_start o w gitRef releaseVersion /\
       cmd.OSListFromString (gcbStageOptions.TargetOSes o) = inr targetOSes /\
       cmd.ArchListFromString (gcbStageOptions.TargetArches o) targetOSes = inr targetArches /\
       Forall (from_target targetOSes targetArches releaseVersion) artifacts /\
       map target_of (artifacts ++ [ArtifactMetadata.mk "cert-manager-manifests.tar.gz" sum "" ""])
       = requested releaseVersion targetOSes targetArches
         ++ [("cert-manager-manifests.tar.gz", "", "")] /\
       cmd.MarshalIndent
         (Metadata.mk (gcbStageOptions.ReleaseVersion o) gitRef
            (artifacts ++ [ArtifactMetadata.mk "cert-manager-manifests.tar.gz" sum "" ""]))
       = inr meta /\
       objects w' !! metadata_object o (outputDir_of o releaseVersion gitRef) = Some meta).
Proof.
  intros Hpush.
  destruct (runGCBStage_outcome Run_keeps_bucket sign_keeps_bucket o w)
    as (err & w' & Hrun & Houtcome).
  exists err, w'. split; [exact Hrun|]. intros ->.
  destruct Houtcome as [[_ [[e [=]]|Hskip]]|[_ Hpushed]]; [congruence|].
  destruct Hpushed as (gitRef & releaseVersion & targetOSes & targetArches & artifacts & sum
                       & meta & Hread & Hoses & Harches & Htargets & Hlist & Hmeta & _ & Hcases).
  destruct Hcases as [[[e [=]] _]|[_ Hobjects]].
  exists gitRef, releaseVersion, targetOSes, targetArches, artifacts, sum, meta.
  repeat (split; [assumption|]).
  split; [rewrite map_app, Hlist; reflexivity|].
  split; [exact Hmeta|]. rewrite Hobjects. apply lookup_insert_eq.
Qed.

End FurtherCommand.

(** * The further properties on the sample release *)

Lemma scan_error_is_fatal_witness :
  exists paths err,
    recursiveFindWithExt "/tmp/extracted-artifact-7" ".yaml" Sample.scan_world
    = Some ((paths, err), Sample.scan_world) /\
    err <> None /\ paths = [].
Proof.
  destruct (scan_error_is_fatal Sample.scan_world "/tmp/extracted-artifact-7" ".yaml")
    as (paths & err & Hrun & Herr & Hpaths).
  exists paths, err. split; [exact Hrun|].
  assert (Hfailed : err <> None).
  { intros Hnone. apply Herr in Hnone. destruct Hnone as (t & Hroot & _). discriminate. }
  split; [exact Hfailed | exact (Hpaths Hfailed)].
Defined.

Lemma scan_stays_under_root_witness :
  "/tmp/extracted-artifact-0/c/d.yaml" = "/tmp/extracted-artifact-0" \/
  exists rest, "/tmp/extracted-artifact-0/c/d.yaml" = "/tmp/extracted-artifact-0" +:+ "/" +:+ rest.
Proof.
  apply (proj2 (scan_stays_under_root Sample.scan_world Sample.scan_world
                  "/tmp/extracted-artifact-0" ".yaml"
                  ["/tmp/extracted-artifact-0/a.yaml"; "/tmp/extracted-artifact-0/c/d.yaml"]
                  None eq_refl)).
  - reflexivity.
  - discriminate.
  - discriminate.
  - intros t Ht. vm_compute in Ht. injection Ht as <-. reflexivity.
  - right. now left.
Defined.

(** A root that is not clean: what is found below it is named after the
    cleaned root, as [filepath.Walk] names it. *)
Example scan_of_a_root_that_is_not_clean :
  recursiveFindWithExt "./charts/" ".yaml"
    (mkWorld ∅ [("./charts/", Sample.tree)] 0 [] [])
  = Some ((["charts/a.yaml"; "charts/c/d.yaml"], None),
          mkWorld ∅ [("./charts/", Sample.tree)] 0 [] []).
Proof. vm_compute. reflexivity. Qed.

Lemma scan_ignores_listing_order_witness :
  recursiveFindWithExt "/tmp/extracted-artifact-0" ".yaml" Cases.relisted_world
  = Some ((["/tmp/extracted-artifact-0/a.yaml"; "/tmp/extracted-artifact-0/c/d.yaml"], None),
          Cases.relisted_world).
Proof.
  apply (scan_ignores_listing_order Sample.scan_world Cases.relisted_world
           "/tmp/extracted-artifact-0" ".yaml" Sample.tree Cases.relisted_tree
           eq_refl eq_refl).
  - apply relisted_order.
    + unfold Sample.tree, Cases.relisted_tree.
      etransitivity; [apply Permutation_cons_append|]. simpl.
      apply Permutation_cons_append.
    + simpl. repeat (apply NoDup_cons_2; [rewrite ?elem_of_cons, elem_of_nil; intuition discriminate|]).
      apply NoDup_nil_2.
  - reflexivity.
Defined.

Lemma Unpack_only_adds_witness :
  exists w' added,
    @Unpack Sample.collaborators (Sample.staged [Sample.manifestsA; Sample.amd64A])
      Cases.used_world
    = Some ((None, Some (External "storage: object doesn't exist")), w') /\
    disk w' = disk Cases.used_world ++ added /\
    lookup_disk (disk w') "/tmp/extracted-artifact-0/c/d.yaml" = Some (File []) /\
    lookup_disk (disk w') "/tmp/temp-artifact-1"
    = Some (File (bytes_of "left by an earlier run")) /\
    (exists entries, In ("/tmp/extracted-artifact-1", Dir entries) added) /\
    (exists entries, In ("/tmp/extracted-artifact-3", Dir entries) added) /\
    (exists f, In (f, File Sample.manifests_bytes) added).
Proof.
  destruct (@Unpack Sample.collaborators (Sample.staged [Sample.manifestsA; Sample.amd64A])
              Cases.used_world) as [[r w']|] eqn:Hrun.
  2: { vm_compute in Hrun. discriminate Hrun. }
  assert (Hr : r = (None, Some (External "storage: object doesn't exist"))).
  { assert (Hfst : option_map fst
                     (@Unpack Sample.collaborators
                        (Sample.staged [Sample.manifestsA; Sample.amd64A]) Cases.used_world)
                   = Some r) by now rewrite Hrun.
    vm_compute in Hfst. now injection Hfst. }
  assert (Hevs : trace w'
                 = [MkdirTemp "/tmp/extracted-artifact-1";
                    Untar "/tmp/extracted-artifact-1" Sample.manifests_bytes;
                    MkdirTemp "/tmp/extracted-artifact-3"]).
  { assert (Htr : option_map (fun x => trace (snd x))
                    (@Unpack Sample.collaborators
                       (Sample.staged [Sample.manifestsA; Sample.amd64A]) Cases.used_world)
                  = Some (trace w')) by now rewrite Hrun.
    revert Htr. generalize (trace w'). intros tr Htr.
    vm_compute in Htr. now injection Htr. }
  destruct (@Unpack_only_adds Sample.collaborators
              (Sample.staged [Sample.manifestsA; Sample.amd64A]) Cases.used_world w' r Hrun)
    as (_ & (added & evs & Hdisk & Htrace & Hdirs & Hfiles) & Hkept).
  change (trace Cases.used_world ++ evs) with evs in Htrace.
  rewrite Hevs in Htrace. subst evs r.
  exists w', added. split; [reflexivity|]. split; [exact Hdisk|].
  split; [apply Hkept; reflexivity|]. split; [apply Hkept; reflexivity|].
  split; [apply Hdirs; now left|].
  split; [apply Hdirs; right; right; now left|].
  apply (Hfiles "/tmp/extracted-artifact-1"). right. now left.
Defined.

Lemma Unpack_lists_the_manifests_tree_witness :
  exists u w' dir t,
    @Unpack Sample.collaborators (Sample.staged [Sample.manifestsA; Sample.amd64A]) Sample.world
    = Some ((Some u, None), w') /\
    Unpacked.Charts u = map manifests.mkChart (files_with_ext ".tgz" (visited dir t)) /\
    Unpacked.YAMLs u = map manifests.mkYAML (files_with_ext ".yaml" (visited dir t)).
Proof.
  eexists _, _.
  destruct (@Unpack_lists_the_manifests_tree Sample.collaborators
              (Sample.staged [Sample.manifestsA; Sample.amd64A]) Sample.world _ _ None
              ltac:(vm_compute; reflexivity))
    as (a & dir & w1 & t & _ & _ & _ & _ & Hcharts & Hyamls).
  exists dir, t. split; [vm_compute; reflexivity|]. split; [exact Hcharts | exact Hyamls].
Defined.

Lemma extracted_bytes_are_the_object_witness :
  exists data,
    Sample.bucket !! "cert-manager-manifests.tar.gz" = Some data /\
    sha256hex data = ArtifactMetadata.SHA256 (StagedArtifact.Metadata Sample.manifestsA).
Proof.
  destruct (@extracted_bytes_are_the_object Sample.collaborators Sample.manifestsA
              "/tmp/extracted-artifact-0"
              (mkWorld Sample.bucket [("/tmp/extracted-artifact-0", Dir [])] 1 [] []) _
              ltac:(vm_compute; reflexivity)) as (data & Hobject & Hsum & _).
  exists data. split; [exact Hobject | exact Hsum].
Defined.

Lemma malformed_digest_never_extracts_witness :
  exists e w',
    @extractStagedArtifact Sample.collaborators Cases.capitalsA "/tmp/extracted-artifact-0"
      Sample.world
    = Some (Some e, w') /\
    trace w' = trace Sample.world.
Proof.
  apply (@malformed_digest_never_extracts Sample.collaborators Cases.capitalsA
           "/tmp/extracted-artifact-0" Sample.world).
  reflexivity.
Defined.

Lemma bundle_key_names_its_archives_witness :
  exists bundles w' ts,
    @unpackServerImagesFromRelease Sample.collaborators
      (Sample.staged [Sample.amd64A]) Sample.world
    = Some ((bundles, None), w') /\
    bundles !! "cainjector" = Some ts /\
    ts <> [] /\
    forall t, In t ts -> filepath.Base (images.tar_path t) = "cainjector.tar".
Proof.
  eexists _, _, _. split; [vm_compute; reflexivity|]. split; [vm_compute; reflexivity|].
  destruct (@bundle_key_names_its_archives Sample.collaborators
              (Sample.staged [Sample.amd64A]) Sample.world _ _
              ltac:(vm_compute; reflexivity) "cainjector" _ ltac:(vm_compute; reflexivity))
    as [Hsome Hall].
  split; [exact Hsome|]. intros t Hin. exact (proj1 (Hall t Hin)).
Defined.

Lemma Unpack_needs_one_manifests_artifact_witness :
  exists e,
    @Unpack Sample.collaborators (Sample.staged [Sample.manifestsA; Sample.manifestsB])
      Sample.world
    = Some ((None, Some e), Sample.world).
Proof.
  apply (@Unpack_needs_one_manifests_artifact Sample.collaborators
           (Sample.staged [Sample.manifestsA; Sample.manifestsB]) Sample.world).
  vm_compute. discriminate.
Defined.

Lemma Unpack_stops_before_the_servers_witness :
  exists e w1,
    @Unpack Sample.collaborators (Sample.staged [Sample.damagedA; Sample.amd64A])
      Sample.damaged_world
    = Some ((None, Some e), w1) /\
    trace w1 = [MkdirTemp "/tmp/extracted-artifact-0";
                Untar "/tmp/extracted-artifact-0" Sample.broken_chart_bytes].
Proof.
  destruct (@Unpack_stops_before_the_servers Sample.collaborators
              (Sample.staged [Sample.damagedA; Sample.amd64A]) Sample.damaged_world
              _ Sample.damagedA _ _
              ltac:(vm_compute; reflexivity) ltac:(vm_compute; reflexivity)
              ltac:(vm_compute; reflexivity)) as [e Hrun].
  - right. exists "/tmp/extracted-artifact-0/chart.tgz". split.
    + vm_compute. now left.
    + intros c. vm_compute. discriminate.
  - eexists e, _. split; [exact Hrun | reflexivity].
Defined.

Lemma appendArtifactWithPostprocess_cases_witness :
  exists artifacts' w' data,
    cmd.appendArtifactWithPostprocess [] Cases.repo "cert-manager-manifests.tar.gz" "" ""
      (Some Cases.sign) Cases.build_world
    = Some ((artifacts', None), w') /\
    lookup_disk (disk w') (Cases.built "cert-manager-manifests.tar.gz") = Some (File data) /\
    data = Sample.manifests_bytes ++ Cases.signature /\
    artifacts' = [] ++ [ArtifactMetadata.mk "cert-manager-manifests.tar.gz" (sha256hex data) "" ""].
Proof.
  eexists _, _.
  destruct (appendArtifactWithPostprocess_cases [] _ Cases.repo
              "cert-manager-manifests.tar.gz" "" "" (Some Cases.sign) Cases.build_world _ None
              ltac:(vm_compute; reflexivity)) as (data & Hfile & Hlist).
  exists data. split; [vm_compute; reflexivity|].
  split; [exact Hfile|]. split; [|exact Hlist].
  vm_compute in Hfile. now injection Hfile as <-.
Defined.

Lemma appendArtifact_hashes_the_built_file_witness :
  exists w',
    cmd.appendArtifact [] Cases.repo "cert-manager-server-linux-amd64.tar.gz" "linux" "amd64"
      Cases.build_world
    = Some (([ArtifactMetadata.mk "cert-manager-server-linux-amd64.tar.gz"
                (sha256hex Sample.amd64_bytes) "linux" "amd64"], None), w') /\
    exists e,
      cmd.appendArtifact [] Cases.repo "cert-manager-ctl-linux-amd64.tar.gz" "linux" "amd64"
        Cases.build_world
      = Some (([], Some (Wrapf cmd.failed_to_compute_sha256sum
                               (Cases.built "cert-manager-ctl-linux-amd64.tar.gz") e)),
              w').
Proof.
  destruct (appendArtifact_hashes_the_built_file [] Cases.repo
              "cert-manager-server-linux-amd64.tar.gz" "linux" "amd64" Cases.build_world)
    as (r & w' & Hrun & _ & Hfound & _).
  destruct (appendArtifact_hashes_the_built_file [] Cases.repo
              "cert-manager-ctl-linux-amd64.tar.gz" "linux" "amd64" Cases.build_world)
    as (r0 & w0 & Hrun0 & _ & _ & Hmissing).
  exists w'. split.
  - rewrite Hrun. now rewrite (Hfound Sample.amd64_bytes eq_refl ltac:(constructor)).
  - destruct (Hmissing ltac:(intros data; vm_compute; discriminate)) as [e He].
    exists e. rewrite Hrun0, He.
    assert (w0 = w') as ->; [|reflexivity].
    vm_compute in Hrun, Hrun0. congruence.
Defined.

Lemma staged_record_verifies_witness :
  exists err w',
    @extractStagedArtifact Sample.collaborators Sample.amd64A "/tmp/extracted-artifact-0"
      Sample.world
    = Some (err, w') /\
    trace w' = trace Sample.world ++ [Untar "/tmp/extracted-artifact-0" Sample.amd64_bytes].
Proof.
  apply (@staged_record_verifies Sample.collaborators
           [] _ Cases.repo "cert-manager-server-linux-amd64.tar.gz" "linux" "amd64"
           Cases.build_world _ Sample.amd64_bytes Sample.amd64A
           "/tmp/extracted-artifact-0" Sample.world
           ltac:(vm_compute; reflexivity)).
  - reflexivity.
  - vm_compute. reflexivity.
  - vm_compute. reflexivity.
  - constructor.
  - vm_compute. discriminate.
Defined.

Lemma bazelBuildEnv_sets_the_registry_witness :
  in_effect (cmd.bazelBuildEnv Cases.environ Cases.options) "DOCKER_REGISTRY"
  = Some "DOCKER_REGISTRY=quay.io/jetstack" /\
  in_effect (cmd.bazelBuildEnv Cases.environ Cases.options) "HOME" = Some "HOME=/root".
Proof.
  destruct (bazelBuildEnv_sets_the_registry Cases.environ Cases.options) as [Hregistry Hother].
  split; [exact Hregistry|].
  rewrite (Hother "HOME") by discriminate. reflexivity.
Defined.

Lemma buildArtifactPath_joins_witness :
  cmd.buildArtifactPath Cases.repo ["build"; "release-tars"; "cert-manager-manifests.tar.gz"]
  = Cases.built "cert-manager-manifests.tar.gz" /\
  cmd.buildArtifactPath "" ["version"] = "bazel-bin/version".
Proof.
  assert (Hentry : forall name, String.eqb name "" = false -> String.eqb name "." = false ->
                                String.eqb name ".." = false ->
                                forallb (fun c => negb (filepath.IsPathSeparator c))
                                        (GoString.chars name) = true ->
                                names_entry name).
  { intros name H0 H1 H2 Hall. repeat split; try (intros ->; discriminate).
    apply List.Forall_forall. intros c Hc.
    rewrite forallb_forall in Hall. specialize (Hall c Hc). now destruct (filepath.IsPathSeparator c). }
  split.
  - apply (proj1 (buildArtifactPath_joins Cases.repo
                    ["build"; "release-tars"; "cert-manager-manifests.tar.gz"]
                    ltac:(repeat constructor; now apply Hentry))).
    + reflexivity.
    + discriminate.
    + discriminate.
  - apply (proj2 (buildArtifactPath_joins "" ["version"]
                    ltac:(repeat constructor; now apply Hentry))).
Defined.

Lemma buildArtifactPath_ends_with_the_name_witness :
  filepath.Base (cmd.buildArtifactPath "../cert-manager/./"
                   (["build"; "release-tars"] ++ ["cert-manager-manifests.tar.gz"]))
  = "cert-manager-manifests.tar.gz".
Proof.
  apply buildArtifactPath_ends_with_the_name.
  repeat split; try discriminate. repeat constructor.
Defined.

(** The collaborators of [Cases.stager] are as the theorems on the
    command ask. *)

Lemma lookup_disk_write_root_file (d : list (string * Node)) (path p : string)
    (data new : Bytes) :
  lookup_root path d = Some (File data) ->
  p <> path ->
  lookup_disk (write_root path (File new) d) p = lookup_disk d p.
Proof.
  intros Hroot Hp. induction d as [|[r n] d IH]; simpl in *; [discriminate|].
  destruct (String.eqb_spec r path) as [->|Hr].
  - injection Hroot as ->. simpl.
    destruct (String.eqb_spec path p) as [->|_]; [congruence | reflexivity].
  - simpl. now rewrite IH.
Qed.

Lemma sign_post (path : string) (w : World) :
  post (Cases.sign path) w
       (fun _ w' => objects w' = objects w /\ files_same [path] w w').
Proof.
  unfold Cases.sign. apply post_bind, post_get.
  destruct (lookup_root path (disk w)) as [[data|es|e|e]|] eqn:Hroot;
    try (apply post_ret; split; [reflexivity | now intros p bytes _ Hfile]).
  apply post_bind, post_modify, post_ret. split; [reflexivity|].
  intros p bytes Hp Hfile. simpl.
  rewrite (lookup_disk_write_root_file _ _ _ data) by (try assumption; intros ->; apply Hp; now left).
  exact Hfile.
Qed.

Lemma stager_Run_keeps_bucket (wd : string) (env : option (list string)) (name : string)
    (args : list string) (w : World) :
  post (@cmd.Run Cases.stager wd env name args) w (fun _ w' => objects w' = objects w).
Proof. simpl. unfold Cases.run_command. destruct (String.eqb name "git"); now apply post_ret. Qed.

Lemma stager_sign_keeps_bucket (key : @cmd.GCPKMSKey Cases.stager) (path version : string)
    (w : World) :
  post (@cmd.CertManagerManifests Cases.stager key path version) w
       (fun _ w' => objects w' = objects w).
Proof.
  simpl. eapply post_mono; [apply sign_post|]. now intros err w' _ [Hbucket _].
Qed.

Lemma stager_files_kept : @files_kept Cases.stager.
Proof.
  split.
  - intros wd env name args w r w'. simpl. unfold Cases.run_command.
    destruct (String.eqb name "git"); intros [= _ <-]; now intros p data _ Hfile.
  - intros key path version w r w' Hrun. simpl in Hrun.
    exact (proj2 (post_elim _ _ _ _ _ (sign_post path w) Hrun)).
Qed.

Lemma stager_targets_plain (o : gcbStageOptions.t) : @targets_plain Cases.stager o.
Proof.
  split.
  - intros targetOSes. simpl. destruct (String.eqb _ "*"); [|discriminate].
    intros [= <-]. repeat constructor.
  - intros osVariant arches. simpl. intros Hlookup.
    apply lookup_singleton_Some in Hlookup. destruct Hlookup as [_ <-]. repeat constructor.
Qed.

Lemma runGCBStage_skip_push_witness :
  exists err w',
    @cmd.runGCBStage Cases.stager Cases.dry_options Cases.stage_world = Some (err, w') /\
    objects w' = ∅.
Proof.
  apply (@runGCBStage_skip_push Cases.stager stager_Run_keeps_bucket stager_sign_keeps_bucket
           Cases.dry_options Cases.stage_world).
  reflexivity.
Defined.

Lemma runGCBStage_writes_metadata_last_witness :
  exists err w',
    @cmd.runGCBStage Cases.stager Cases.signing_options
      (set_faults (replicate 11 None ++ [Some (External "connection reset")]) Cases.stage_world)
    = Some (err, w') /\
    is_Some err /\
    objects w' !! "gs://cert-manager-release/stage/gcb/release/v1.2.3-0a1b2c3d/metadata.json"
    = None.
Proof.
  destruct (@runGCBStage_writes_metadata_last Cases.stager
              stager_Run_keeps_bucket stager_sign_keeps_bucket Cases.signing_options
              (set_faults (replicate 11 None ++ [Some (External "connection reset")])
                          Cases.stage_world))
    as (err & w' & Hrun & Hchanged).
  exists err, w'. split; [exact Hrun|].
  assert (Herr : is_Some err).
  { assert (Hfst : option_map fst
                     (@cmd.runGCBStage Cases.stager Cases.signing_options
                        (set_faults (replicate 11 None ++ [Some (External "connection reset")])
                                    Cases.stage_world))
                   = Some err) by now rewrite Hrun.
    vm_compute in Hfst. injection Hfst as <-. eauto. }
  split; [exact Herr|].
  destruct (objects w' !! "gs://cert-manager-release/stage/gcb/release/v1.2.3-0a1b2c3d/metadata.json")
    as [meta|] eqn:Hmeta; [|reflexivity].
  exfalso.
  destruct (Hchanged "gs://cert-manager-release/stage/gcb/release/v1.2.3-0a1b2c3d/metadata.json")
    as (gitRef & releaseVersion & Hread & [[-> _]|(a & rest & Hh & Hname & _)]).
  - rewrite Hmeta. discriminate.
  - now destruct Herr.
  - destruct Hread as (w1 & w2 & w3 & HgitRef & Htag & Hversion).
    vm_compute in HgitRef. injection HgitRef as <- <-.
    vm_compute in Htag. injection Htag as <-.
    vm_compute in Hversion. injection Hversion as <- _.
    unfold artifact_object, cmd.ObjectHandle, cmd.buildObjectName in Hh.
    rewrite Hname in Hh. discriminate Hh.
Defined.

Lemma staged_release_unpacks_witness :
  exists w' a h data,
    @cmd.runGCBStage Cases.stager Cases.signing_options Cases.stage_world = Some (None, w') /\
    ArtifactMetadata.Name a = "cert-manager-manifests.tar.gz" /\
    objects w' !! h = Some data /\
    ArtifactMetadata.SHA256 a = sha256hex data /\
    exists e u',
      @extractStagedArtifact Sample.collaborators (StagedArtifact.mk a h)
        "/tmp/extracted-artifact-0" (mkWorld (objects w') [] 0 [] [])
      = Some (e, u') /\
      trace u' = [Untar "/tmp/extracted-artifact-0" data].
Proof.
  destruct (@staged_release_unpacks Cases.stager
              stager_Run_keeps_bucket stager_sign_keeps_bucket Sample.collaborators
              Cases.signing_options Cases.stage_world
              stager_files_kept (stager_targets_plain _)
              ltac:(intros rest Heq; discriminate Heq) eq_refl)
    as (err & w' & Hrun & Hstaged).
  assert (Herr : err = None).
  { assert (Hfst : option_map fst
                     (@cmd.runGCBStage Cases.stager Cases.signing_options Cases.stage_world)
                   = Some err) by now rewrite Hrun.
    vm_compute in Hfst. now injection Hfst. }
  subst err.
  destruct (Hstaged eq_refl) as (gitRef & releaseVersion & artifacts & sum & meta & _ & _ & Hall).
  destruct (Hall (ArtifactMetadata.mk "cert-manager-manifests.tar.gz" sum "" ""))
    as (data & Hobject & Hsum & Hextract).
  { apply in_or_app. right. now left. }
  exists w', (ArtifactMetadata.mk "cert-manager-manifests.tar.gz" sum "" "").
  eexists _, data. split; [exact Hrun|]. split; [reflexivity|].
  split; [exact Hobject|]. split; [exact Hsum|].
  apply (Hextract "/tmp/extracted-artifact-0" (mkWorld (objects w') [] 0 [] [])).
  - reflexivity.
  - constructor.
  - vm_compute. discriminate.
Defined.

Lemma runGCBStage_metadata_witness :
  exists w' gitRef releaseVersion sum1 sum2,
    @cmd.runGCBStage Cases.stager Cases.signing_options Cases.stage_world = Some (None, w') /\
    @read_at_start Cases.stager Cases.signing_options Cases.stage_world gitRef releaseVersion /\
    objects w' !! @metadata_object Cases.stager Cases.signing_options
                    (@outputDir_of Cases.stager Cases.signing_options releaseVersion gitRef)
    = Some (Cases.render
              (Metadata.mk "v1.2.3" gitRef
                 [ArtifactMetadata.mk "cert-manager-server-linux-amd64.tar.gz" sum1
                                      "linux" "amd64";
                  ArtifactMetadata.mk "cert-manager-manifests.tar.gz" sum2 "" ""])).
Proof.
  destruct (@runGCBStage_metadata Cases.stager
              stager_Run_keeps_bucket stager_sign_keeps_bucket
              Cases.signing_options Cases.stage_world eq_refl)
    as (err & w' & Hrun & Hstaged).
  assert (Herr : err = None).
  { assert (Hfst : option_map fst
                     (@cmd.runGCBStage Cases.stager Cases.signing_options Cases.stage_world)
                   = Some err) by now rewrite Hrun.
    vm_compute in Hfst. now injection Hfst. }
  subst err.
  destruct (Hstaged eq_refl)
    as (gitRef & releaseVersion & targetOSes & targetArches & artifacts & sum & meta
        & Hread & Hoses & Harches & _ & Hlist & Hmeta & Hobject).
  cbn in Hoses, Harches. injection Hoses as <-. injection Harches as <-.
  rewrite map_app in Hlist. apply app_inv_tail in Hlist.
  change (map (@target_of) artifacts
          = [("cert-manager-server-linux-amd64.tar.gz", "linux", "amd64")]) in Hlist.
  destruct artifacts as [|[name sum1 os arch] [|b rest]]; try discriminate Hlist.
  injection Hlist as -> -> ->.
  exists w', gitRef, releaseVersion, sum1, sum.
  split; [exact Hrun|]. split; [exact Hread|].
  simpl in Hmeta. injection Hmeta as <-. exact Hobject.
Defined.
